(** * NetBox v3.2 migration scripts: [netbox_v32_migration.py]

    A shallow embedding of the two scripts [MigrateSiteContactsScript] and
    [MigrateSiteASNsScript], and the properties of their find-or-create /
    link / clear loop.

    The ORM tables are lists of rows kept in the order in which a queryset
    returns them, so that [.first()] is the first matching row; a saved row
    is appended and gets the next value of its primary-key sequence.  The
    scripts run in a small state-and-exception monad over the database and
    the log stream; the queryset [sites] is evaluated once, by [if not
    sites], and the loop runs over that list.  Saving a row raises only
    where a NOT NULL column would be null. *)

From Stdlib Require Import ZArith NArith List Bool Lia String Ascii.
Import ListNotations.

(* ===================================================================== *)
(** ** Python strings *)
(* ===================================================================== *)

Module Py.

(** A [str] is a sequence of Unicode code points. *)
Definition str := list N.

(** ASCII literals, for examples. *)
Definition u (s : string) : str :=
    List.map N_of_ascii (list_ascii_of_string s).

Definition str_eqb (a b : str) : bool :=
    if list_eq_dec N.eq_dec a b then true else false.

(** [str.isspace] on one code point: the code points Python treats as
      whitespace, which [str.strip()] removes. *)
Definition isspace (c : N) : bool :=
    ((9 <=? c) && (c <=? 13) ||
     (28 <=? c) && (c <=? 32) ||
     (c =? 133) || (c =? 160) || (c =? 5760) ||
     (8192 <=? c) && (c <=? 8202) ||
     (c =? 8232) || (c =? 8233) || (c =? 8239) || (c =? 8287) ||
     (c =? 12288))%N.

Fixpoint lstrip (s : str) : str :=
    match s with
    | [] => []
    | c :: s' => if isspace c then lstrip s' else s
    end.

Definition rstrip (s : str) : str := rev (lstrip (rev s)).

(** [s.strip()] *)
Definition strip (s : str) : str := rstrip (lstrip s).

(** Truth value of a string: [if phone:] *)
Definition truthy (s : str) : bool :=
    match s with [] => false | _ => true end.

End Py.

Import Py.

(** What "trimmed" means, stated apart from [strip]: [t] is [s] without a
    leading and a trailing run of whitespace, and no whitespace is left at
    either end of [t]. *)
Definition trimmed_of (s t : str) : Prop :=
(exists l r, s = l ++ t ++ r /\
               Forall (fun c => isspace c = true) l /\
               Forall (fun c => isspace c = true) r) /\
(forall c t', t = c :: t' -> isspace c = false) /\
(forall c t', t = t' ++ [c] -> isspace c = false).

(* ===================================================================== *)
(** ** Models (rows of the tables the scripts touch) *)
(* ===================================================================== *)

Module Site.
Record t := mk {
    pk : Z;
    name : str;
    contact_name : str;
    contact_phone : str;
    contact_email : str;
    asn : option Z;           (* legacy field, nullable *)
    other : list str          (* columns the scripts never name *)
}.
End Site.

Module Contact.
Record t := mk {
    pk : Z;
    name : str;
    phone : str;
    email : str;
    other : list str          (* title, address, comments, ... *)
}.
End Contact.

(** The generic foreign key of a ContactAssignment. *)
Inductive ObjectRef :=
| SiteObject (pk : Z)
| OtherObject (content_type : Z) (pk : Z).

Module ContactAssignment.
Record t := mk {
    pk : Z;
    object : ObjectRef;
    contact : Z;
    role : Z;
    priority : str
}.
End ContactAssignment.

Module ASN.
Record t := mk {
    pk : Z;
    asn : Z;
    rir : Z
}.
End ASN.

(* ===================================================================== *)
(** ** The database and the log stream *)
(* ===================================================================== *)

(** Tables are lists of rows; [site_asns] is the through table of the
    many-to-many relation [Site.asns], rows [(site pk, asn pk)].  The
    [next_*] fields are the primary-key sequences. *)
Record Database := mkDatabase {
  sites : list Site.t;
  contacts : list Contact.t;
  contact_assignments : list ContactAssignment.t;
  asns : list ASN.t;
  site_asns : list (Z * Z);
  next_contact_pk : Z;
  next_assignment_pk : Z;
  next_asn_pk : Z
}.

(** Log messages carry the objects the f-string interpolates, not their
    rendered text. *)
Inductive Message :=
| NoContactSites
| FoundContactSites (count : nat)
| CreatingContact (name : str)
| SkippingContact (contact : Contact.t) (site : Site.t)
| AssigningContact (contact : Contact.t) (site : Site.t)
| ClearingContactData (site : Site.t)
| CreatedContacts (contacts_created : nat)
| CreatedAssignments (assignments_created : nat)
| NoASNSites
| FoundASNSites (count : nat)
| CreatingASN (asn : option Z)
| SkippingASN (asn : ASN.t) (site : Site.t)
| AssigningASN (asn : ASN.t) (site : Site.t)
| ClearingASN (site : Site.t)
| CreatedASNs (asns_created : nat)
| AssignedASNs (asns_assigned : nat).

Inductive Level := Warning | Info | Success | Debug.

Definition LogEntry := (Level * Message)%type.

Record World := mkWorld {
  db : Database;
  log : list LogEntry
}.

(* ===================================================================== *)
(** ** The script monad: state (database and log) and exceptions *)
(* ===================================================================== *)

Inductive Exception := IntegrityError.

Inductive Outcome (A : Type) :=
| Returned (a : A) (w : World)
| Raised (e : Exception) (w : World).

Arguments Returned {A} a w.
Arguments Raised {A} e w.

Definition Script (A : Type) := World -> Outcome A.

Definition ret {A} (a : A) : Script A := fun w => Returned a w.

Definition bind {A B} (c : Script A) (k : A -> Script B) : Script B :=
  fun w => match c w with
           | Returned a w' => k a w'
           | Raised e w' => Raised e w'
           end.

Definition raise {A} (e : Exception) : Script A := fun w => Raised e w.

Declare Scope script_scope.
Delimit Scope script_scope with script.
Notation "x <- c ;; k" := (bind c (fun x => k))
  (at level 61, c at next level, right associativity) : script_scope.
Notation "c ;; k" := (bind c (fun _ => k))
  (at level 61, right associativity) : script_scope.
Local Open Scope script_scope.

(** A read-only query of the database. *)
Definition query {A} (q : Database -> A) : Script A :=
  fun w => Returned (q (db w)) w.

(** A write to the database. *)
Definition execute (f : Database -> Database) : Script unit :=
  fun w => Returned tt {| db := f (db w); log := log w |}.

Definition emit (l : Level) (m : Message) : Script unit :=
  fun w => Returned tt {| db := db w; log := log w ++ [(l, m)] |}.

Definition log_warning := emit Warning.
Definition log_info := emit Info.
Definition log_success := emit Success.
Definition log_debug := emit Debug.

(** [for x in xs: body], the local variables the body rebinds threaded as
    an accumulator. *)
Fixpoint for_each {A S} (xs : list A) (body : A -> S -> Script S) (acc : S)
  : Script S :=
  match xs with
  | [] => ret acc
  | x :: xs' => acc' <- body x acc ;; for_each xs' body acc'
  end.

(* ===================================================================== *)
(** ** ORM operations used by the scripts *)
(* ===================================================================== *)

(** [Site.objects.exclude(contact_name='')] *)
Definition Site_exclude_contact_name_empty (d : Database) : list Site.t :=
  filter (fun s => negb (str_eqb (Site.contact_name s) [])) (sites d).

(** [Site.objects.filter(asn__isnull=False)] *)
Definition Site_filter_asn_notnull (d : Database) : list Site.t :=
  filter (fun s => match Site.asn s with Some _ => true | None => false end)
         (sites d).

(** [contact_data]: the dict built by [_get_contact_data]; the key ['name']
    is always present, ['phone'] and ['email'] may be absent. *)
Record ContactData := mkContactData {
  cd_name : str;
  cd_phone : option str;
  cd_email : option str
}.

(** Does a row satisfy [filter] called with the dict as keyword arguments?
    Only the keys present in the dict constrain the row. *)
Definition Contact_matches (attrs : ContactData) (c : Contact.t) : bool :=
  str_eqb (Contact.name c) (cd_name attrs) &&
  match cd_phone attrs with
  | Some phone => str_eqb (Contact.phone c) phone
  | None => true
  end &&
  match cd_email attrs with
  | Some email => str_eqb (Contact.email c) email
  | None => true
  end.

(** [Contact.objects.filter] with the dict as keyword arguments, then
    [.first()] *)
Definition Contact_filter_first (attrs : ContactData) (d : Database)
  : option Contact.t :=
  find (Contact_matches attrs) (contacts d).

(** [Contact] built from the dict as keyword arguments, then
    [contact.save()]: columns absent from the dict take their default, the
    empty string. *)
Definition Contact_new (pk : Z) (attrs : ContactData) : Contact.t :=
  {| Contact.pk := pk;
     Contact.name := cd_name attrs;
     Contact.phone := match cd_phone attrs with Some p => p | None => [] end;
     Contact.email := match cd_email attrs with Some e => e | None => [] end;
     Contact.other := [] |}.

Definition Contact_insert (c : Contact.t) (d : Database) : Database :=
  {| sites := sites d;
     contacts := contacts d ++ [c];
     contact_assignments := contact_assignments d;
     asns := asns d;
     site_asns := site_asns d;
     next_contact_pk := next_contact_pk d + 1;
     next_assignment_pk := next_assignment_pk d;
     next_asn_pk := next_asn_pk d |}.

Definition Contact_save (attrs : ContactData) : Script Contact.t :=
  pk <- query next_contact_pk ;;
  let contact := Contact_new pk attrs in
  execute (Contact_insert contact) ;;
  ret contact.

(** [site.contacts.filter(contact=contact).exists()] *)
Definition Site_contacts_exists (site : Site.t) (contact : Contact.t)
           (d : Database) : bool :=
  existsb (fun a =>
             match ContactAssignment.object a with
             | SiteObject pk => (pk =? Site.pk site)%Z
             | OtherObject _ _ => false
             end &&
             (ContactAssignment.contact a =? Contact.pk contact)%Z)
          (contact_assignments d).

Definition ContactAssignment_insert (a : ContactAssignment.t) (d : Database)
  : Database :=
  {| sites := sites d;
     contacts := contacts d;
     contact_assignments := contact_assignments d ++ [a];
     asns := asns d;
     site_asns := site_asns d;
     next_contact_pk := next_contact_pk d;
     next_assignment_pk := next_assignment_pk d + 1;
     next_asn_pk := next_asn_pk d |}.

(** [ContactAssignment(object=..., contact=..., role=..., priority=...)]
    followed by [assignment.save()]. *)
Definition ContactAssignment_save (site : Site.t) (contact : Contact.t)
           (role : Z) (priority : str) : Script unit :=
  pk <- query next_assignment_pk ;;
  execute (ContactAssignment_insert
             {| ContactAssignment.pk := pk;
                ContactAssignment.object := SiteObject (Site.pk site);
                ContactAssignment.contact := Contact.pk contact;
                ContactAssignment.role := role;
                ContactAssignment.priority := priority |}).

Definition with_sites (f : list Site.t -> list Site.t) (d : Database)
  : Database :=
  {| sites := f (sites d);
     contacts := contacts d;
     contact_assignments := contact_assignments d;
     asns := asns d;
     site_asns := site_asns d;
     next_contact_pk := next_contact_pk d;
     next_assignment_pk := next_assignment_pk d;
     next_asn_pk := next_asn_pk d |}.

(** [Site.objects.filter(pk=pk).update(contact_name='', contact_phone='',
    contact_email='')] *)
Definition Site_update_contact_fields_empty (pk : Z) : Database -> Database :=
  with_sites
    (map (fun s =>
            if (Site.pk s =? pk)%Z
            then {| Site.pk := Site.pk s;
                    Site.name := Site.name s;
                    Site.contact_name := [];
                    Site.contact_phone := [];
                    Site.contact_email := [];
                    Site.asn := Site.asn s;
                    Site.other := Site.other s |}
            else s)).

(** [Site.objects.filter(pk=pk).update(asn=None)] *)
Definition Site_update_asn_none (pk : Z) : Database -> Database :=
  with_sites
    (map (fun s =>
            if (Site.pk s =? pk)%Z
            then {| Site.pk := Site.pk s;
                    Site.name := Site.name s;
                    Site.contact_name := Site.contact_name s;
                    Site.contact_phone := Site.contact_phone s;
                    Site.contact_email := Site.contact_email s;
                    Site.asn := None;
                    Site.other := Site.other s |}
            else s)).

(** [ASN.objects.filter(asn=value).first()]; [asn] is a non-null column,
    so [filter(asn=None)], which Django turns into [IS NULL], has no row. *)
Definition ASN_filter_first (value : option Z) (d : Database)
  : option ASN.t :=
  match value with
  | Some n => find (fun a => (ASN.asn a =? n)%Z) (asns d)
  | None => None
  end.

Definition ASN_insert (a : ASN.t) (d : Database) : Database :=
  {| sites := sites d;
     contacts := contacts d;
     contact_assignments := contact_assignments d;
     asns := asns d ++ [a];
     site_asns := site_asns d;
     next_contact_pk := next_contact_pk d;
     next_assignment_pk := next_assignment_pk d;
     next_asn_pk := next_asn_pk d + 1 |}.

(** [ASN(asn=value, rir=rir)] followed by [asn.save()]; a null [asn]
    violates the column's NOT NULL constraint. *)
Definition ASN_save (value : option Z) (rir : Z) : Script ASN.t :=
  match value with
  | None => raise IntegrityError
  | Some n =>
      pk <- query next_asn_pk ;;
      let asn := {| ASN.pk := pk; ASN.asn := n; ASN.rir := rir |} in
      execute (ASN_insert asn) ;;
      ret asn
  end.

Definition linked (site_pk asn_pk : Z) (d : Database) : bool :=
  existsb (fun p => (fst p =? site_pk)%Z && (snd p =? asn_pk)%Z) (site_asns d).

(** [site.asns.all()] *)
Definition Site_asns_all (site : Site.t) (d : Database) : list ASN.t :=
  filter (fun a => linked (Site.pk site) (ASN.pk a) d) (asns d).

(** [asn in queryset]: model instances are equal when their primary keys
    are. *)
Definition ASN_in (asn : ASN.t) (qs : list ASN.t) : bool :=
  existsb (fun a => (ASN.pk a =? ASN.pk asn)%Z) qs.

Definition site_asns_insert (site_pk asn_pk : Z) (d : Database) : Database :=
  {| sites := sites d;
     contacts := contacts d;
     contact_assignments := contact_assignments d;
     asns := asns d;
     site_asns := if linked site_pk asn_pk d then site_asns d
                  else site_asns d ++ [(site_pk, asn_pk)];
     next_contact_pk := next_contact_pk d;
     next_assignment_pk := next_assignment_pk d;
     next_asn_pk := next_asn_pk d |}.

(** [site.asns.add(asn)]: a pair already in the through table is not
    inserted again. *)
Definition Site_asns_add (site : Site.t) (asn : ASN.t) : Script unit :=
  execute (site_asns_insert (Site.pk site) (ASN.pk asn)).

(* ===================================================================== *)
(** ** [class MigrateSiteContactsScript] *)
(* ===================================================================== *)

Module MigrateSiteContactsScript.

(** The script variables, as the harness passes them in [data]. *)
Record Data := mkData {
  contact_role : Z;
  contact_priority : str;
  clear_site_fields : bool
}.

Definition _get_contact_data (site : Site.t) : ContactData :=
  let name := strip (Site.contact_name site) in
  let phone := strip (Site.contact_phone site) in
  let email := strip (Site.contact_email site) in
  (* Return only fields which have a value after sanitization *)
  {| cd_name := name;
     cd_phone := if truthy phone then Some phone else None;
     cd_email := if truthy email then Some email else None |}.

(** The body of [for site in sites], from the assignment of the contact
    on: reached when the iteration did not [continue]. *)
Definition assign (data : Data) (site : Site.t) (contact : Contact.t)
           (contacts_created assignments_created : nat)
  : Script (nat * nat) :=
  log_success (AssigningContact contact site) ;;
  ContactAssignment_save site contact
                         (contact_role data) (contact_priority data) ;;
  let assignments_created := S assignments_created in
  (if clear_site_fields data
   then log_debug (ClearingContactData site) ;;
        execute (Site_update_contact_fields_empty (Site.pk site))
   else ret tt) ;;
  ret (contacts_created, assignments_created).

(** One iteration of [for site in sites]; the two counters are the loop's
    accumulator. *)
Definition iteration (data : Data) (site : Site.t) (counters : nat * nat)
  : Script (nat * nat) :=
  let '(contacts_created, assignments_created) := counters in
  let contact_data := _get_contact_data site in
  contact <- query (Contact_filter_first contact_data) ;;
  match contact with
  | None =>
      log_success (CreatingContact (cd_name contact_data)) ;;
      contact <- Contact_save contact_data ;;
      let contacts_created := S contacts_created in
      assign data site contact contacts_created assignments_created
  | Some contact =>
      exists_ <- query (Site_contacts_exists site contact) ;;
      if exists_
      then log_info (SkippingContact contact site) ;;
           ret (contacts_created, assignments_created)   (* continue *)
      else assign data site contact contacts_created assignments_created
  end.

(** [run(self, data, commit)]; the value returned is the pair of local
    counters at the point where the method returns. *)
Definition run (data : Data) (commit : bool) : Script (nat * nat) :=
  let contacts_created := 0 in
  let assignments_created := 0 in
  sites <- query Site_exclude_contact_name_empty ;;
  match sites with
  | [] =>
      log_warning NoContactSites ;;
      ret (contacts_created, assignments_created)
  | _ :: _ =>
      log_info (FoundContactSites (List.length sites)) ;;
      counters <- for_each sites (iteration data)
                           (contacts_created, assignments_created) ;;
      log_success (CreatedContacts (fst counters)) ;;
      log_success (CreatedAssignments (snd counters)) ;;
      ret counters
  end.

End MigrateSiteContactsScript.

(* ===================================================================== *)
(** ** [class MigrateSiteASNsScript] *)
(* ===================================================================== *)

Module MigrateSiteASNsScript.

Record Data := mkData {
  asn_rir : Z;
  clear_site_field : bool
}.

Definition assign (data : Data) (site : Site.t) (asn : ASN.t)
           (asns_created asns_assigned : nat) : Script (nat * nat) :=
  log_success (AssigningASN asn site) ;;
  Site_asns_add site asn ;;
  let asns_assigned := S asns_assigned in
  (if clear_site_field data
   then log_debug (ClearingASN site) ;;
        execute (Site_update_asn_none (Site.pk site))
   else ret tt) ;;
  ret (asns_created, asns_assigned).

Definition iteration (data : Data) (site : Site.t) (counters : nat * nat)
  : Script (nat * nat) :=
  let '(asns_created, asns_assigned) := counters in
  asn <- query (ASN_filter_first (Site.asn site)) ;;
  match asn with
  | None =>
      log_success (CreatingASN (Site.asn site)) ;;
      asn <- ASN_save (Site.asn site) (asn_rir data) ;;
      let asns_created := S asns_created in
      assign data site asn asns_created asns_assigned
  | Some asn =>
      all <- query (Site_asns_all site) ;;
      if ASN_in asn all
      then log_info (SkippingASN asn site) ;;
           ret (asns_created, asns_assigned)             (* continue *)
      else assign data site asn asns_created asns_assigned
  end.

Definition run (data : Data) (commit : bool) : Script (nat * nat) :=
  let asns_created := 0 in
  let asns_assigned := 0 in
  sites <- query Site_filter_asn_notnull ;;
  match sites with
  | [] =>
      log_warning NoASNSites ;;
      ret (asns_created, asns_assigned)
  | _ :: _ =>
      log_info (FoundASNSites (List.length sites)) ;;
      counters <- for_each sites (iteration data)
                           (asns_created, asns_assigned) ;;
      log_success (CreatedASNs (fst counters)) ;;
      log_success (AssignedASNs (snd counters)) ;;
      ret counters
  end.

End MigrateSiteASNsScript.

(* ===================================================================== *)
(** ** Observations on outcomes and tables *)
(* ===================================================================== *)

Definition world_of {A} (o : Outcome A) : World :=
  match o with
  | Returned _ w => w
  | Raised _ w => w
  end.

Definition value_of {A} (o : Outcome A) : option A :=
  match o with
  | Returned a _ => Some a
  | Raised _ _ => None
  end.

(** The rows appended to a table: what is in [after] beyond [before]. *)
Definition created_rows {A} (before after : list A) : list A :=
  skipn (List.length before) after.

(** The pair a ContactAssignment links. *)
Definition assignment_pair (a : ContactAssignment.t) : ObjectRef * Z :=
  (ContactAssignment.object a, ContactAssignment.contact a).

(** The iteration for [site] takes the [continue] branch in database [d]. *)
Definition contact_iteration_skips (site : Site.t) (d : Database) : bool :=
  match Contact_filter_first
          (MigrateSiteContactsScript._get_contact_data site) d with
  | Some contact => Site_contacts_exists site contact d
  | None => false
  end.

Definition asn_iteration_skips (site : Site.t) (d : Database) : bool :=
  match ASN_filter_first (Site.asn site) d with
  | Some asn => ASN_in asn (Site_asns_all site d)
  | None => false
  end.

(** A contact row carries exactly the attributes a row created from
    [attrs] gets. *)
Definition created_from (attrs : ContactData) (c : Contact.t) : bool :=
  str_eqb (Contact.name c) (Contact.name (Contact_new 0 attrs)) &&
  str_eqb (Contact.phone c) (Contact.phone (Contact_new 0 attrs)) &&
  str_eqb (Contact.email c) (Contact.email (Contact_new 0 attrs)).

(** Integrity of the primary-key sequences: every key in use was handed
    out by its sequence. *)
Definition contact_pks_allocated (d : Database) : bool :=
  forallb (fun c => (Contact.pk c <? next_contact_pk d)%Z) (contacts d) &&
  forallb (fun a => (ContactAssignment.contact a <? next_contact_pk d)%Z)
          (contact_assignments d).

Definition asn_pks_allocated (d : Database) : bool :=
  forallb (fun a => (ASN.pk a <? next_asn_pk d)%Z) (asns d) &&
  forallb (fun p => (snd p <? next_asn_pk d)%Z) (site_asns d).

(** The legacy contact columns of a site row set to the empty string, all
    else kept. *)
Definition contact_fields_emptied (s : Site.t) : Site.t :=
  {| Site.pk := Site.pk s;
     Site.name := Site.name s;
     Site.contact_name := [];
     Site.contact_phone := [];
     Site.contact_email := [];
     Site.asn := Site.asn s;
     Site.other := Site.other s |}.

(** Two readings of "the legacy contact fields are non-empty": some field
    is, or every field is. *)
Definition some_contact_field_nonempty (s : Site.t) : bool :=
  truthy (Site.contact_name s) || truthy (Site.contact_phone s) ||
  truthy (Site.contact_email s).

Definition every_contact_field_nonempty (s : Site.t) : bool :=
  truthy (Site.contact_name s) && truthy (Site.contact_phone s) &&
  truthy (Site.contact_email s).

(* ===================================================================== *)
(** ** The database effect of one iteration *)
(* ===================================================================== *)

(** The row [ContactAssignment_save] inserts. *)
Definition assignment_row (data : MigrateSiteContactsScript.Data)
           (site : Site.t) (contact : Contact.t) (d : Database)
  : ContactAssignment.t :=
  {| ContactAssignment.pk := next_assignment_pk d;
     ContactAssignment.object := SiteObject (Site.pk site);
     ContactAssignment.contact := Contact.pk contact;
     ContactAssignment.role := MigrateSiteContactsScript.contact_role data;
     ContactAssignment.priority :=
       MigrateSiteContactsScript.contact_priority data |}.

(** The database after [MigrateSiteContactsScript.assign]. *)
Definition contact_assign_db (data : MigrateSiteContactsScript.Data)
           (site : Site.t) (contact : Contact.t) (d : Database) : Database :=
  let d1 := ContactAssignment_insert (assignment_row data site contact d) d in
  if MigrateSiteContactsScript.clear_site_fields data
  then Site_update_contact_fields_empty (Site.pk site) d1
  else d1.

(** The three ways through one iteration of the contact loop: [continue],
    link a stored contact, create a contact and link it. *)
Inductive contact_step (data : MigrateSiteContactsScript.Data) (site : Site.t)
  : nat * nat -> Database -> nat * nat -> Database -> Prop :=
| contact_step_skip cc ac d c :
    Contact_filter_first (MigrateSiteContactsScript._get_contact_data site) d
    = Some c ->
    Site_contacts_exists site c d = true ->
    contact_step data site (cc, ac) d (cc, ac) d
| contact_step_link cc ac d c :
    Contact_filter_first (MigrateSiteContactsScript._get_contact_data site) d
    = Some c ->
    Site_contacts_exists site c d = false ->
    contact_step data site (cc, ac) d
                 (cc, S ac) (contact_assign_db data site c d)
| contact_step_create cc ac d :
    Contact_filter_first (MigrateSiteContactsScript._get_contact_data site) d
    = None ->
    let c := Contact_new (next_contact_pk d)
                         (MigrateSiteContactsScript._get_contact_data site) in
    contact_step data site (cc, ac) d
                 (S cc, S ac)
                 (contact_assign_db data site c (Contact_insert c d)).

(** The database after [MigrateSiteASNsScript.assign]. *)
Definition asn_assign_db (data : MigrateSiteASNsScript.Data)
           (site : Site.t) (asn : ASN.t) (d : Database) : Database :=
  let d1 := site_asns_insert (Site.pk site) (ASN.pk asn) d in
  if MigrateSiteASNsScript.clear_site_field data
  then Site_update_asn_none (Site.pk site) d1
  else d1.

Inductive asn_step (data : MigrateSiteASNsScript.Data) (site : Site.t)
  : nat * nat -> Database -> nat * nat -> Database -> Prop :=
| asn_step_skip cc ac d a :
    ASN_filter_first (Site.asn site) d = Some a ->
    ASN_in a (Site_asns_all site d) = true ->
    asn_step data site (cc, ac) d (cc, ac) d
| asn_step_link cc ac d a :
    ASN_filter_first (Site.asn site) d = Some a ->
    ASN_in a (Site_asns_all site d) = false ->
    asn_step data site (cc, ac) d (cc, S ac) (asn_assign_db data site a d)
| asn_step_create cc ac d n :
    Site.asn site = Some n ->
    ASN_filter_first (Site.asn site) d = None ->
    let a := {| ASN.pk := next_asn_pk d; ASN.asn := n;
                ASN.rir := MigrateSiteASNsScript.asn_rir data |} in
    asn_step data site (cc, ac) d
             (S cc, S ac) (asn_assign_db data site a (ASN_insert a d)).

(* ===================================================================== *)
(** ** Sample data *)
(* ===================================================================== *)

Module Sample.
Local Open Scope Z_scope.

Definition jane : Contact.t :=
  {| Contact.pk := 1; Contact.name := u "Jane Doe";
     Contact.phone := u "555-1234"; Contact.email := [];
     Contact.other := [u "Site manager"] |}.

Definition site_a : Site.t :=
  {| Site.pk := 1; Site.name := u "A";
     Site.contact_name := u "Jane Doe";
     Site.contact_phone := u " 555-1234 "; Site.contact_email := [];
     Site.asn := Some 65001; Site.other := [] |}.

Definition site_b : Site.t :=
  {| Site.pk := 2; Site.name := u "B";
     Site.contact_name := u " Jane Doe";
     Site.contact_phone := u "555-1234"; Site.contact_email := u "  ";
     Site.asn := Some 65001; Site.other := [] |}.

(** No contact name, but a phone number. *)
Definition site_c : Site.t :=
  {| Site.pk := 3; Site.name := u "C";
     Site.contact_name := [];
     Site.contact_phone := u "555-9999"; Site.contact_email := [];
     Site.asn := None; Site.other := [] |}.

(** A contact name only. *)
Definition site_d : Site.t :=
  {| Site.pk := 4; Site.name := u "D";
     Site.contact_name := u "Jane Doe";
     Site.contact_phone := []; Site.contact_email := [];
     Site.asn := None; Site.other := [] |}.

Definition as65001 : ASN.t :=
  {| ASN.pk := 1; ASN.asn := 65001; ASN.rir := 9 |}.

Definition empty_db : Database :=
  {| sites := []; contacts := []; contact_assignments := [];
     asns := []; site_asns := [];
     next_contact_pk := 1; next_assignment_pk := 1; next_asn_pk := 1 |}.

(** Sites A and B, nothing migrated yet. *)
Definition fresh_db : Database :=
  {| sites := [site_a; site_b]; contacts := []; contact_assignments := [];
     asns := []; site_asns := [];
     next_contact_pk := 1; next_assignment_pk := 1; next_asn_pk := 1 |}.

(** Sites A and B; the contact and the ASN they name are stored already,
    and site A is linked to both. *)
Definition stored_db : Database :=
  {| sites := [site_a; site_b]; contacts := [jane];
     contact_assignments :=
       [{| ContactAssignment.pk := 1;
           ContactAssignment.object := SiteObject 1;
           ContactAssignment.contact := 1;
           ContactAssignment.role := 7;
           ContactAssignment.priority := u "primary" |}];
     asns := [as65001]; site_asns := [(1, 1)];
     next_contact_pk := 2; next_assignment_pk := 2; next_asn_pk := 2 |}.

Definition contacts_data : MigrateSiteContactsScript.Data :=
  {| MigrateSiteContactsScript.contact_role := 7;
     MigrateSiteContactsScript.contact_priority := u "primary";
     MigrateSiteContactsScript.clear_site_fields := true |}.

Definition asns_data : MigrateSiteASNsScript.Data :=
  {| MigrateSiteASNsScript.asn_rir := 9;
     MigrateSiteASNsScript.clear_site_field := true |}.

End Sample.

(* ===================================================================== *)
(** ** Further observations: the log, key sequences, paddings *)
(* ===================================================================== *)

(** The name, phone and email of a contact row. *)
Definition contact_attributes (c : Contact.t) : str * str * str :=
  (Contact.name c, Contact.phone c, Contact.email c).

(** The log entries of the assignment part of an iteration. *)
Definition contact_assign_entries (data : MigrateSiteContactsScript.Data)
           (site : Site.t) (contact : Contact.t) : list LogEntry :=
  (Success, AssigningContact contact site) ::
  (if MigrateSiteContactsScript.clear_site_fields data
   then [(Debug, ClearingContactData site)] else []).

(** The log entries one iteration of the contact loop appends when it
    starts in database [d]. *)
Definition contact_log_entries (data : MigrateSiteContactsScript.Data)
           (site : Site.t) (d : Database) : list LogEntry :=
  let attrs := MigrateSiteContactsScript._get_contact_data site in
  match Contact_filter_first attrs d with
  | None =>
      (Success, CreatingContact (cd_name attrs)) ::
      contact_assign_entries data site (Contact_new (next_contact_pk d) attrs)
  | Some c =>
      if Site_contacts_exists site c d
      then [(Info, SkippingContact c site)]
      else contact_assign_entries data site c
  end.

Definition asn_assign_entries (data : MigrateSiteASNsScript.Data)
           (site : Site.t) (asn : ASN.t) : list LogEntry :=
  (Success, AssigningASN asn site) ::
  (if MigrateSiteASNsScript.clear_site_field data
   then [(Debug, ClearingASN site)] else []).

Definition asn_log_entries (data : MigrateSiteASNsScript.Data)
           (site : Site.t) (d : Database) : list LogEntry :=
  match ASN_filter_first (Site.asn site) d with
  | None =>
      (Success, CreatingASN (Site.asn site)) ::
      match Site.asn site with
      | Some n =>
          asn_assign_entries
            data site
            {| ASN.pk := next_asn_pk d; ASN.asn := n;
               ASN.rir := MigrateSiteASNsScript.asn_rir data |}
      | None => []
      end
  | Some a =>
      if ASN_in a (Site_asns_all site d)
      then [(Info, SkippingASN a site)]
      else asn_assign_entries data site a
  end.






(** [n] consecutive keys from [first] on. *)
Definition keys_from (first : Z) (n : nat) : list Z :=
  map (fun i => (first + Z.of_nat i)%Z) (seq 0 n).

(** [b] is [a] between two runs of whitespace. *)
Definition padded (a b : str) : Prop :=
  exists l r, b = l ++ a ++ r /\
              Forall (fun c => isspace c = true) l /\
              Forall (fun c => isspace c = true) r.

(** Two databases that differ at most in their sites table. *)
Definition same_but_sites (d1 d2 : Database) : Prop :=
  contacts d1 = contacts d2 /\
  contact_assignments d1 = contact_assignments d2 /\
  asns d1 = asns d2 /\
  site_asns d1 = site_asns d2 /\
  next_contact_pk d1 = next_contact_pk d2 /\
  next_assignment_pk d1 = next_assignment_pk d2 /\
  next_asn_pk d1 = next_asn_pk d2.

(** A site row and what a run may have made of it. *)
Definition contact_fields_only_changed (s s' : Site.t) : Prop :=
  Site.pk s' = Site.pk s /\ Site.name s' = Site.name s /\
  Site.asn s' = Site.asn s /\ Site.other s' = Site.other s /\
  (s' = s \/
   (Site.contact_name s' = [] /\ Site.contact_phone s' = [] /\
    Site.contact_email s' = [])).

Definition asn_field_only_changed (s s' : Site.t) : Prop :=
  Site.pk s' = Site.pk s /\ Site.name s' = Site.name s /\
  Site.contact_name s' = Site.contact_name s /\
  Site.contact_phone s' = Site.contact_phone s /\
  Site.contact_email s' = Site.contact_email s /\
  Site.other s' = Site.other s /\
  (s' = s \/ Site.asn s' = None).

(** Goals about [contact_assign_db] and [asn_assign_db] that hold for
    either value of the clear flag. *)
Ltac by_clear_flag :=
  unfold contact_assign_db, asn_assign_db;
  try match goal with
      | |- context [MigrateSiteContactsScript.clear_site_fields ?data] =>
          destruct (MigrateSiteContactsScript.clear_site_fields data)
      | |- context [MigrateSiteASNsScript.clear_site_field ?data] =>
          destruct (MigrateSiteASNsScript.clear_site_field data)
      end;
  reflexivity.

(* ===================================================================== *)
(** ** Strings and trimming *)
(* ===================================================================== *)

Lemma str_eqb_eq (a b : str) : str_eqb a b = true <-> a = b.
Proof.
  unfold str_eqb. destruct (list_eq_dec N.eq_dec a b); split; congruence.
Qed.

Lemma str_eqb_refl (a : str) : str_eqb a a = true.
Proof. now apply str_eqb_eq. Qed.

Lemma str_eqb_neq (a b : str) : str_eqb a b = false <-> a <> b.
Proof.
  unfold str_eqb. destruct (list_eq_dec N.eq_dec a b); split; congruence.
Qed.

Lemma truthy_nonempty (s : str) : truthy s = true <-> s <> [].
Proof. destruct s; simpl; split; congruence. Qed.

Lemma truthy_str_eqb (s : str) : truthy s = negb (str_eqb s []).
Proof. destruct s; reflexivity. Qed.

Lemma lstrip_split (s : str) :
  exists l, s = l ++ lstrip s /\ Forall (fun c => isspace c = true) l.
Proof.
  induction s as [|c s IH]; simpl.
  - exists []. split; [reflexivity | constructor].
  - destruct (isspace c) eqn:Hc.
    + destruct IH as (l & Hs & Hl). exists (c :: l). split.
      * simpl. congruence.
      * constructor; assumption.
    + exists []. split; [reflexivity | constructor].
Qed.

Lemma lstrip_head (s : str) c t :
  lstrip s = c :: t -> isspace c = false.
Proof.
  induction s as [|x s IH]; simpl; [discriminate|].
  destruct (isspace x) eqn:Hx; [assumption|].
  intros [= <- _]. assumption.
Qed.

Lemma lstrip_snoc (s : str) c :
  isspace c = false -> lstrip (s ++ [c]) = lstrip s ++ [c].
Proof.
  intros Hc. induction s as [|x s IH]; simpl.
  - now rewrite Hc.
  - destruct (isspace x); [assumption | reflexivity].
Qed.

Lemma rstrip_split (s : str) :
  exists r, s = rstrip s ++ r /\ Forall (fun c => isspace c = true) r.
Proof.
  unfold rstrip. destruct (lstrip_split (rev s)) as (l & Hs & Hl).
  exists (rev l). split.
  - rewrite <- rev_app_distr, <- Hs. symmetry. apply rev_involutive.
  - apply Forall_rev. assumption.
Qed.

Lemma rstrip_last (s : str) c t :
  rstrip s = t ++ [c] -> isspace c = false.
Proof.
  unfold rstrip. intros H.
  apply (f_equal (@rev N)) in H.
  rewrite rev_involutive, rev_app_distr in H. simpl in H.
  eapply lstrip_head; eassumption.
Qed.

Lemma rstrip_cons (s : str) c :
  isspace c = false -> rstrip (c :: s) = c :: rstrip s.
Proof.
  intros Hc. unfold rstrip. simpl.
  rewrite lstrip_snoc by assumption.
  rewrite rev_app_distr. reflexivity.
Qed.

Lemma strip_trimmed (s : str) : trimmed_of s (strip s).
Proof.
  unfold trimmed_of, strip. repeat split.
  - destruct (lstrip_split s) as (l & Hs & Hl).
    destruct (rstrip_split (lstrip s)) as (r & Hr & Hr').
    exists l, r. repeat split; try assumption.
    rewrite <- Hr. assumption.
  - intros c t' H.
    destruct (lstrip s) as [|x s'] eqn:Hx; [discriminate H|].
    pose proof (lstrip_head s x s' Hx) as Hsp.
    rewrite (rstrip_cons s' x Hsp) in H. congruence.
  - intros c t' H. eapply rstrip_last; eassumption.
Qed.

(** A trimmed form is unique, so [trimmed_of] determines [strip]. *)
Lemma trimmed_of_unique (s t1 t2 : str) :
  trimmed_of s t1 -> trimmed_of s t2 -> t1 = t2.
Proof.
  assert (front : forall (l1 l2 : str) x1 x2 (y1 y2 : str),
             Forall (fun c => isspace c = true) l1 ->
             Forall (fun c => isspace c = true) l2 ->
             isspace x1 = false -> isspace x2 = false ->
             l1 ++ x1 :: y1 = l2 ++ x2 :: y2 -> l1 = l2 /\ x1 :: y1 = x2 :: y2).
  { induction l1 as [|a l1 IH]; intros [|b l2] x1 x2 y1 y2 H1 H2 N1 N2 E;
      simpl in E.
    - split; [reflexivity | assumption].
    - injection E as -> _. inversion H2; congruence.
    - injection E as <- _. inversion H1; congruence.
    - injection E as -> E. inversion H1; inversion H2; subst.
      destruct (IH l2 x1 x2 y1 y2) as [-> ?]; auto. }
  assert (allsp : forall (l : str) x (y r : str),
             Forall (fun c => isspace c = true) r ->
             isspace x = false -> l ++ x :: y = r -> False).
  { intros l x y r Hr Hx E. rewrite <- E in Hr.
    apply Forall_app in Hr as [_ Hr]. inversion Hr; congruence. }
  intros ((l1 & r1 & E1 & L1 & R1) & H1 & T1) ((l2 & r2 & E2 & L2 & R2) & H2 & T2).
  destruct t1 as [|x1 y1], t2 as [|x2 y2]; [reflexivity | | |].
  - exfalso. simpl in E1. rewrite E1 in E2.
    eapply (allsp l2 x2 (y2 ++ r2) (l1 ++ r1)).
    + apply Forall_app; split; assumption.
    + eapply H2; reflexivity.
    + simpl in E2. symmetry. exact E2.
  - exfalso. simpl in E2. rewrite E2 in E1.
    eapply (allsp l1 x1 (y1 ++ r1) (l2 ++ r2)).
    + apply Forall_app; split; assumption.
    + eapply H1; reflexivity.
    + simpl in E1. symmetry. exact E1.
  - pose proof (H1 _ _ eq_refl) as N1. pose proof (H2 _ _ eq_refl) as N2.
    rewrite E1 in E2. simpl in E2.
    destruct (front l1 l2 x1 x2 (y1 ++ r1) (y2 ++ r2) L1 L2 N1 N2 E2)
      as [_ E].
    (* same argument from the right end *)
    assert (Er : rev r1 ++ rev (x1 :: y1) = rev r2 ++ rev (x2 :: y2)).
    { rewrite <- !rev_app_distr. f_equal. simpl. exact E. }
    destruct (exists_last (l := x1 :: y1)) as (p1 & c1 & P1); [discriminate|].
    destruct (exists_last (l := x2 :: y2)) as (p2 & c2 & P2); [discriminate|].
    rewrite P1, P2 in Er. rewrite !rev_app_distr in Er. simpl in Er.
    destruct (front (rev r1) (rev r2) c1 c2 (rev p1) (rev p2)) as [_ E'].
    + apply Forall_rev; assumption.
    + apply Forall_rev; assumption.
    + eapply T1; eassumption.
    + eapply T2; eassumption.
    + exact Er.
    + rewrite P1, P2.
      assert (E'' : rev (c1 :: rev p1) = rev (c2 :: rev p2)) by (f_equal; exact E').
      simpl in E''. rewrite !rev_involutive in E''. exact E''.
Qed.

(* ===================================================================== *)
(** ** The loop and the iterations *)
(* ===================================================================== *)

(** Loop rule: an invariant indexed by the elements already visited. *)
Lemma for_each_invariant {A S} (P : A -> Prop)
      (I : list A -> S -> World -> Prop) (body : A -> S -> Script S) :
  (forall pre x acc w, P x -> I pre acc w ->
     exists acc' w', body x acc w = Returned acc' w' /\ I (pre ++ [x]) acc' w') ->
  forall xs pre acc w, Forall P xs -> I pre acc w ->
    exists acc' w', for_each xs body acc w = Returned acc' w' /\
                    I (pre ++ xs) acc' w'.
Proof.
  intros Hstep. induction xs as [|x xs IH]; intros pre acc w HP HI.
  - exists acc, w. rewrite app_nil_r. split; [reflexivity | assumption].
  - inversion HP as [|? ? Hx Hxs]; subst.
    destruct (Hstep pre x acc w Hx HI) as (acc1 & w1 & E1 & I1).
    destruct (IH (pre ++ [x]) acc1 w1 Hxs I1) as (acc2 & w2 & E2 & I2).
    exists acc2, w2. split.
    + simpl. unfold bind. rewrite E1. exact E2.
    + rewrite <- app_assoc in I2. exact I2.
Qed.

Lemma contact_assign_eq data site contact cc ac w :
  MigrateSiteContactsScript.assign data site contact cc ac w =
  Returned (cc, S ac)
           {| db := contact_assign_db data site contact (db w);
              log := (log w ++ [(Success, AssigningContact contact site)]) ++
                     (if MigrateSiteContactsScript.clear_site_fields data
                      then [(Debug, ClearingContactData site)] else []) |}.
Proof.
  unfold MigrateSiteContactsScript.assign, contact_assign_db, assignment_row.
  destruct (MigrateSiteContactsScript.clear_site_fields data);
    cbn; rewrite ?app_nil_r; reflexivity.
Qed.

Lemma contact_iteration_skip data site cc ac w c :
  Contact_filter_first (MigrateSiteContactsScript._get_contact_data site) (db w)
  = Some c ->
  Site_contacts_exists site c (db w) = true ->
  MigrateSiteContactsScript.iteration data site (cc, ac) w =
  Returned (cc, ac)
           {| db := db w; log := log w ++ [(Info, SkippingContact c site)] |}.
Proof.
  intros Hf He. unfold MigrateSiteContactsScript.iteration, bind, query.
  rewrite Hf. cbn. rewrite He. reflexivity.
Qed.

Lemma contact_iteration_link data site cc ac w c :
  Contact_filter_first (MigrateSiteContactsScript._get_contact_data site) (db w)
  = Some c ->
  Site_contacts_exists site c (db w) = false ->
  MigrateSiteContactsScript.iteration data site (cc, ac) w =
  MigrateSiteContactsScript.assign data site c cc ac w.
Proof.
  intros Hf He. unfold MigrateSiteContactsScript.iteration, bind, query.
  rewrite Hf. cbn. rewrite He. destruct w; reflexivity.
Qed.

Lemma contact_iteration_create data site cc ac w :
  let attrs := MigrateSiteContactsScript._get_contact_data site in
  let c := Contact_new (next_contact_pk (db w)) attrs in
  Contact_filter_first attrs (db w) = None ->
  MigrateSiteContactsScript.iteration data site (cc, ac) w =
  MigrateSiteContactsScript.assign
    data site c (S cc) ac
    {| db := Contact_insert c (db w);
       log := log w ++ [(Success, CreatingContact (cd_name attrs))] |}.
Proof.
  intros attrs c Hf. unfold MigrateSiteContactsScript.iteration, bind, query.
  fold attrs. rewrite Hf. reflexivity.
Qed.

(** Every iteration of the contact loop returns, along one of the three
    paths. *)
Lemma contact_iteration_step data site cnt w :
  exists cnt' w',
    MigrateSiteContactsScript.iteration data site cnt w = Returned cnt' w' /\
    contact_step data site cnt (db w) cnt' (db w').
Proof.
  destruct cnt as [cc ac].
  destruct (Contact_filter_first
              (MigrateSiteContactsScript._get_contact_data site) (db w))
    as [c|] eqn:Hf.
  - destruct (Site_contacts_exists site c (db w)) eqn:He.
    + eexists _, _. split.
      * apply contact_iteration_skip; eassumption.
      * cbn. eapply contact_step_skip; eassumption.
    + eexists _, _. split.
      * rewrite (contact_iteration_link data site cc ac w c Hf He).
        apply contact_assign_eq.
      * cbn. eapply contact_step_link; eassumption.
  - eexists _, _. split.
    + rewrite (contact_iteration_create data site cc ac w Hf).
      apply contact_assign_eq.
    + cbn. apply contact_step_create. assumption.
Qed.

Lemma asn_assign_eq data site asn cc ac w :
  MigrateSiteASNsScript.assign data site asn cc ac w =
  Returned (cc, S ac)
           {| db := asn_assign_db data site asn (db w);
              log := (log w ++ [(Success, AssigningASN asn site)]) ++
                     (if MigrateSiteASNsScript.clear_site_field data
                      then [(Debug, ClearingASN site)] else []) |}.
Proof.
  unfold MigrateSiteASNsScript.assign, asn_assign_db.
  destruct (MigrateSiteASNsScript.clear_site_field data);
    cbn; rewrite ?app_nil_r; reflexivity.
Qed.

Lemma asn_iteration_skip data site cc ac w a :
  ASN_filter_first (Site.asn site) (db w) = Some a ->
  ASN_in a (Site_asns_all site (db w)) = true ->
  MigrateSiteASNsScript.iteration data site (cc, ac) w =
  Returned (cc, ac)
           {| db := db w; log := log w ++ [(Info, SkippingASN a site)] |}.
Proof.
  intros Hf He. unfold MigrateSiteASNsScript.iteration, bind, query.
  rewrite Hf. cbn. rewrite He. reflexivity.
Qed.

Lemma asn_iteration_link data site cc ac w a :
  ASN_filter_first (Site.asn site) (db w) = Some a ->
  ASN_in a (Site_asns_all site (db w)) = false ->
  MigrateSiteASNsScript.iteration data site (cc, ac) w =
  MigrateSiteASNsScript.assign data site a cc ac w.
Proof.
  intros Hf He. unfold MigrateSiteASNsScript.iteration, bind, query.
  rewrite Hf. cbn. rewrite He. destruct w; reflexivity.
Qed.

Lemma asn_iteration_create data site cc ac w n :
  let a := {| ASN.pk := next_asn_pk (db w); ASN.asn := n;
              ASN.rir := MigrateSiteASNsScript.asn_rir data |} in
  Site.asn site = Some n ->
  ASN_filter_first (Site.asn site) (db w) = None ->
  MigrateSiteASNsScript.iteration data site (cc, ac) w =
  MigrateSiteASNsScript.assign
    data site a (S cc) ac
    {| db := ASN_insert a (db w);
       log := log w ++ [(Success, CreatingASN (Some n))] |}.
Proof.
  intros a Hn Hf. unfold MigrateSiteASNsScript.iteration, bind, query.
  rewrite Hf. rewrite Hn. reflexivity.
Qed.

(** An iteration of the ASN loop over a site with a legacy ASN returns,
    along one of the three paths. *)
Lemma asn_iteration_step data site cnt w :
  Site.asn site <> None ->
  exists cnt' w',
    MigrateSiteASNsScript.iteration data site cnt w = Returned cnt' w' /\
    asn_step data site cnt (db w) cnt' (db w').
Proof.
  intros Hn. destruct cnt as [cc ac].
  destruct (ASN_filter_first (Site.asn site) (db w)) as [a|] eqn:Hf.
  - destruct (ASN_in a (Site_asns_all site (db w))) eqn:He.
    + eexists _, _. split.
      * apply asn_iteration_skip; eassumption.
      * cbn. eapply asn_step_skip; eassumption.
    + eexists _, _. split.
      * rewrite (asn_iteration_link data site cc ac w a Hf He).
        apply asn_assign_eq.
      * cbn. eapply asn_step_link; eassumption.
  - destruct (Site.asn site) as [n|] eqn:Hs; [|congruence].
    eexists _, _. split.
    + rewrite (asn_iteration_create data site cc ac w n Hs).
      * apply asn_assign_eq.
      * rewrite Hs. assumption.
    + cbn. apply asn_step_create; [assumption|]. rewrite Hs. assumption.
Qed.

(** The legacy-ASN selector returns only sites with a legacy ASN. *)
Lemma Site_filter_asn_notnull_Forall d :
  Forall (fun s => Site.asn s <> None) (Site_filter_asn_notnull d).
Proof.
  apply Forall_forall. intros s Hs.
  apply filter_In in Hs as [_ Hs]. destruct (Site.asn s); congruence.
Qed.

(** Loop rules specialised to the two scripts: an invariant on the
    visited sites, the counters and the database that every step keeps
    holds after the loop, and the loop returns. *)
Lemma contact_loop_invariant data
      (I : list Site.t -> nat * nat -> Database -> Prop) xs :
  (forall pre site cnt d cnt' d',
     In site xs -> I pre cnt d -> contact_step data site cnt d cnt' d' ->
     I (pre ++ [site]) cnt' d') ->
  forall cnt w, I [] cnt (db w) ->
    exists cnt' w',
      for_each xs (MigrateSiteContactsScript.iteration data) cnt w
      = Returned cnt' w' /\ I xs cnt' (db w').
Proof.
  intros Hstep cnt w HI.
  apply (for_each_invariant (fun s => In s xs)
           (fun pre cnt w => I pre cnt (db w))
           (MigrateSiteContactsScript.iteration data)) with (pre := []).
  - intros pre0 x acc w0 Hx HI0.
    destruct (contact_iteration_step data x acc w0) as (c' & w' & E & St).
    exists c', w'. split; [exact E|]. eapply Hstep; eassumption.
  - apply Forall_forall. trivial.
  - exact HI.
Qed.

Lemma asn_loop_invariant data
      (I : list Site.t -> nat * nat -> Database -> Prop) xs :
  (forall pre site cnt d cnt' d',
     In site xs -> I pre cnt d -> asn_step data site cnt d cnt' d' ->
     I (pre ++ [site]) cnt' d') ->
  forall cnt w,
    Forall (fun s => Site.asn s <> None) xs -> I [] cnt (db w) ->
    exists cnt' w',
      for_each xs (MigrateSiteASNsScript.iteration data) cnt w
      = Returned cnt' w' /\ I xs cnt' (db w').
Proof.
  intros Hstep cnt w Hxs HI.
  apply (for_each_invariant (fun s => In s xs /\ Site.asn s <> None)
           (fun pre cnt w => I pre cnt (db w))
           (MigrateSiteASNsScript.iteration data)) with (pre := []).
  - intros pre0 x acc w0 [Hx Hn] HI0.
    destruct (asn_iteration_step data x acc w0 Hn) as (c' & w' & E & St).
    exists c', w'. split; [exact E|]. eapply Hstep; eassumption.
  - apply Forall_forall. intros x Hx. split; [exact Hx|].
    rewrite Forall_forall in Hxs. auto.
  - exact HI.
Qed.

(** [run] in terms of its loop. *)
Lemma contact_run_unfold data commit w :
  MigrateSiteContactsScript.run data commit w =
  match Site_exclude_contact_name_empty (db w) with
  | [] => Returned (0, 0)
                   {| db := db w;
                      log := log w ++ [(Warning, NoContactSites)] |}
  | sites =>
      match for_each sites (MigrateSiteContactsScript.iteration data) (0, 0)
                     {| db := db w;
                        log := log w ++
                               [(Info, FoundContactSites (List.length sites))] |}
      with
      | Returned cnt w' =>
          Returned cnt
                   {| db := db w';
                      log := (log w' ++ [(Success, CreatedContacts (fst cnt))])
                             ++ [(Success, CreatedAssignments (snd cnt))] |}
      | Raised e w' => Raised e w'
      end
  end.
Proof.
  unfold MigrateSiteContactsScript.run, bind, query.
  destruct (Site_exclude_contact_name_empty (db w)) as [|s l]; [reflexivity|].
  unfold log_info, log_success, emit, ret. cbv beta iota.
  destruct (for_each (s :: l) (MigrateSiteContactsScript.iteration data)
                     (0, 0) _); reflexivity.
Qed.

Lemma asn_run_unfold data commit w :
  MigrateSiteASNsScript.run data commit w =
  match Site_filter_asn_notnull (db w) with
  | [] => Returned (0, 0)
                   {| db := db w; log := log w ++ [(Warning, NoASNSites)] |}
  | sites =>
      match for_each sites (MigrateSiteASNsScript.iteration data) (0, 0)
                     {| db := db w;
                        log := log w ++
                               [(Info, FoundASNSites (List.length sites))] |}
      with
      | Returned cnt w' =>
          Returned cnt
                   {| db := db w';
                      log := (log w' ++ [(Success, CreatedASNs (fst cnt))])
                             ++ [(Success, AssignedASNs (snd cnt))] |}
      | Raised e w' => Raised e w'
      end
  end.
Proof.
  unfold MigrateSiteASNsScript.run, bind, query.
  destruct (Site_filter_asn_notnull (db w)) as [|s l]; [reflexivity|].
  unfold log_info, log_success, emit, ret. cbv beta iota.
  destruct (for_each (s :: l) (MigrateSiteASNsScript.iteration data)
                     (0, 0) _); reflexivity.
Qed.

(** Run rules: an invariant that holds of the database before the run and
    that every step on a selected site keeps holds after the run, and the
    run returns. *)
Lemma contact_run_invariant data commit w
      (I : list Site.t -> nat * nat -> Database -> Prop) :
  (forall pre site cnt d cnt' d',
     In site (Site_exclude_contact_name_empty (db w)) ->
     I pre cnt d -> contact_step data site cnt d cnt' d' ->
     I (pre ++ [site]) cnt' d') ->
  I [] (0, 0) (db w) ->
  exists cnt w',
    MigrateSiteContactsScript.run data commit w = Returned cnt w' /\
    I (Site_exclude_contact_name_empty (db w)) cnt (db w').
Proof.
  intros Hstep H0. rewrite contact_run_unfold.
  destruct (Site_exclude_contact_name_empty (db w)) as [|s l] eqn:Hsel.
  - eexists _, _. split; [reflexivity|]. exact H0.
  - destruct (contact_loop_invariant data I (s :: l) Hstep (0, 0)
                {| db := db w;
                   log := log w ++
                          [(Info, FoundContactSites (List.length (s :: l)))] |}
                H0) as (cnt & w' & E & HI).
    cbv beta iota zeta. rewrite E. eexists _, _. split; [reflexivity|].
    exact HI.
Qed.

Lemma asn_run_invariant data commit w
      (I : list Site.t -> nat * nat -> Database -> Prop) :
  (forall pre site cnt d cnt' d',
     In site (Site_filter_asn_notnull (db w)) ->
     I pre cnt d -> asn_step data site cnt d cnt' d' ->
     I (pre ++ [site]) cnt' d') ->
  I [] (0, 0) (db w) ->
  exists cnt w',
    MigrateSiteASNsScript.run data commit w = Returned cnt w' /\
    I (Site_filter_asn_notnull (db w)) cnt (db w').
Proof.
  intros Hstep H0. rewrite asn_run_unfold.
  pose proof (Site_filter_asn_notnull_Forall (db w)) as Hall.
  destruct (Site_filter_asn_notnull (db w)) as [|s l] eqn:Hsel.
  - eexists _, _. split; [reflexivity|]. exact H0.
  - destruct (asn_loop_invariant data I (s :: l) Hstep (0, 0)
                {| db := db w;
                   log := log w ++
                          [(Info, FoundASNSites (List.length (s :: l)))] |}
                Hall H0) as (cnt & w' & E & HI).
    cbv beta iota zeta. rewrite E. eexists _, _. split; [reflexivity|].
    exact HI.
Qed.

(* ===================================================================== *)
(** ** Lists *)
(* ===================================================================== *)

Lemma find_app_some {A} (f : A -> bool) (l l' : list A) x :
  find f l = Some x -> find f (l ++ l') = Some x.
Proof.
  induction l as [|a l IH]; simpl; [discriminate|].
  destruct (f a); auto.
Qed.

Lemma find_app_none {A} (f : A -> bool) (l l' : list A) :
  find f l = None -> find f (l ++ l') = find f l'.
Proof.
  induction l as [|a l IH]; simpl; [reflexivity|].
  destruct (f a); [discriminate | auto].
Qed.

Lemma find_none_iff {A} (f : A -> bool) (l : list A) :
  find f l = None <-> forall x, In x l -> f x = false.
Proof.
  split.
  - apply find_none.
  - induction l as [|a l IH]; simpl; [reflexivity|]. intros H.
    rewrite (H a) by auto. apply IH. intros x Hx. apply H. auto.
Qed.

Lemma created_rows_app {A} (l new : list A) : created_rows l (l ++ new) = new.
Proof.
  unfold created_rows. rewrite skipn_app, skipn_all, Nat.sub_diag.
  reflexivity.
Qed.

Lemma created_rows_same {A} (l : list A) : created_rows l l = [].
Proof. unfold created_rows. apply skipn_all. Qed.

Lemma Forall2_In_r {A B} (R : A -> B -> Prop) l l' y :
  Forall2 R l l' -> In y l' -> exists x, In x l /\ R x y.
Proof.
  induction 1 as [|a b l l' Hab _ IH]; simpl; [tauto|].
  intros [<- | Hy].
  - exists a. auto.
  - destruct (IH Hy) as (x & Hx & Hr). exists x. auto.
Qed.

Lemma Forall2_diag {A} (R : A -> A -> Prop) l :
  (forall x, R x x) -> Forall2 R l l.
Proof. intros H. induction l; constructor; auto. Qed.

Lemma Forall2_map_r_compose {A} (R : A -> A -> Prop) (f : A -> A) l l' :
  (forall x y, R x y -> R x (f y)) ->
  Forall2 R l l' -> Forall2 R l (map f l').
Proof.
  intros H. induction 1; simpl; constructor; auto.
Qed.

(* ===================================================================== *)
(** ** Frame lemmas for the database effects *)
(* ===================================================================== *)

Lemma Site_update_contact_fields_empty_sites pk d :
  sites (Site_update_contact_fields_empty pk d) =
  map (fun s => if (Site.pk s =? pk)%Z then contact_fields_emptied s else s)
      (sites d).
Proof. reflexivity. Qed.

Lemma contact_assign_db_contacts data site c d :
  contacts (contact_assign_db data site c d) = contacts d.
Proof. by_clear_flag. Qed.

Lemma contact_assign_db_assignments data site c d :
  contact_assignments (contact_assign_db data site c d) =
  contact_assignments d ++ [assignment_row data site c d].
Proof. by_clear_flag. Qed.

Lemma contact_assign_db_sites data site c d :
  sites (contact_assign_db data site c d) =
  if MigrateSiteContactsScript.clear_site_fields data
  then sites (Site_update_contact_fields_empty (Site.pk site) d)
  else sites d.
Proof. by_clear_flag. Qed.

Lemma contact_assign_db_next_contact_pk data site c d :
  next_contact_pk (contact_assign_db data site c d) = next_contact_pk d.
Proof. by_clear_flag. Qed.

Lemma contact_assign_db_asns data site c d :
  asns (contact_assign_db data site c d) = asns d /\
  site_asns (contact_assign_db data site c d) = site_asns d /\
  next_asn_pk (contact_assign_db data site c d) = next_asn_pk d.
Proof. repeat split; by_clear_flag. Qed.

Lemma asn_assign_db_asns data site a d :
  asns (asn_assign_db data site a d) = asns d.
Proof. by_clear_flag. Qed.

Lemma asn_assign_db_site_asns data site a d :
  site_asns (asn_assign_db data site a d) =
  if linked (Site.pk site) (ASN.pk a) d then site_asns d
  else site_asns d ++ [(Site.pk site, ASN.pk a)].
Proof. by_clear_flag. Qed.

Lemma asn_assign_db_sites data site a d :
  sites (asn_assign_db data site a d) =
  if MigrateSiteASNsScript.clear_site_field data
  then sites (Site_update_asn_none (Site.pk site) d)
  else sites d.
Proof. by_clear_flag. Qed.

Lemma asn_assign_db_next_asn_pk data site a d :
  next_asn_pk (asn_assign_db data site a d) = next_asn_pk d.
Proof. by_clear_flag. Qed.

Lemma asn_assign_db_contacts data site a d :
  contacts (asn_assign_db data site a d) = contacts d /\
  contact_assignments (asn_assign_db data site a d) = contact_assignments d /\
  next_contact_pk (asn_assign_db data site a d) = next_contact_pk d /\
  next_assignment_pk (asn_assign_db data site a d) = next_assignment_pk d.
Proof. repeat split; by_clear_flag. Qed.

(** What a step of the contact loop does to the two tables it writes and
    to the counters. *)
Lemma contact_step_tables data site cnt d cnt' d' :
  contact_step data site cnt d cnt' d' ->
  exists newc newa,
    contacts d' = contacts d ++ newc /\
    contact_assignments d' = contact_assignments d ++ newa /\
    fst cnt' = fst cnt + List.length newc /\
    snd cnt' = snd cnt + List.length newa.
Proof.
  intros [cc ac d0 c Hf He | cc ac d0 c Hf He | cc ac d0 Hf c].
  - exists [], []. rewrite !app_nil_r. simpl. repeat split; lia.
  - exists [], [assignment_row data site c d0].
    rewrite contact_assign_db_contacts, contact_assign_db_assignments,
      app_nil_r. simpl. repeat split; lia.
  - exists [c], [assignment_row data site c (Contact_insert c d0)].
    rewrite contact_assign_db_contacts, contact_assign_db_assignments.
    simpl. repeat split; lia.
Qed.

Lemma asn_step_tables data site cnt d cnt' d' :
  asn_step data site cnt d cnt' d' ->
  exists newa newl,
    asns d' = asns d ++ newa /\
    site_asns d' = site_asns d ++ newl /\
    fst cnt' = fst cnt + List.length newa /\
    Forall (fun a => ASN.rir a = MigrateSiteASNsScript.asn_rir data) newa.
Proof.
  intros [cc ac d0 a Hf He | cc ac d0 a Hf He | cc ac d0 n Hn Hf a].
  - exists [], []. rewrite !app_nil_r. simpl. repeat split; auto.
  - exists [], (if linked (Site.pk site) (ASN.pk a) d0 then []
                else [(Site.pk site, ASN.pk a)]).
    rewrite asn_assign_db_asns, asn_assign_db_site_asns, app_nil_r.
    simpl. repeat split; auto.
    destruct (linked _ _ _); [symmetry; apply app_nil_r | reflexivity].
  - exists [a], (if linked (Site.pk site) (ASN.pk a) (ASN_insert a d0)
                 then [] else [(Site.pk site, ASN.pk a)]).
    rewrite asn_assign_db_asns, asn_assign_db_site_asns.
    simpl. repeat split; auto.
    + destruct (linked _ _ _); [symmetry; apply app_nil_r | reflexivity].
    + lia.
Qed.

(* ===================================================================== *)
(** ** Lookups are stable under the writes of a step *)
(* ===================================================================== *)

Lemma Contact_matches_new attrs pk :
  Contact_matches attrs (Contact_new pk attrs) = true.
Proof.
  unfold Contact_matches, Contact_new. simpl.
  rewrite str_eqb_refl. simpl.
  destruct (cd_phone attrs), (cd_email attrs);
    rewrite ?str_eqb_refl; reflexivity.
Qed.

Lemma Contact_filter_first_ext attrs d d' new c :
  contacts d' = contacts d ++ new ->
  Contact_filter_first attrs d = Some c ->
  Contact_filter_first attrs d' = Some c.
Proof.
  unfold Contact_filter_first. intros -> H. apply find_app_some. exact H.
Qed.

Lemma Contact_filter_first_matches attrs d c :
  Contact_filter_first attrs d = Some c ->
  In c (contacts d) /\ Contact_matches attrs c = true.
Proof. unfold Contact_filter_first. apply find_some. Qed.

Lemma Site_contacts_exists_ext site c d d' new :
  contact_assignments d' = contact_assignments d ++ new ->
  Site_contacts_exists site c d = true ->
  Site_contacts_exists site c d' = true.
Proof.
  unfold Site_contacts_exists. intros -> H.
  rewrite existsb_app, H. reflexivity.
Qed.

Lemma Site_contacts_exists_row data site c d0 d :
  In (assignment_row data site c d0) (contact_assignments d) ->
  Site_contacts_exists site c d = true.
Proof.
  intros H. unfold Site_contacts_exists. apply existsb_exists.
  eexists. split; [exact H|]. simpl. rewrite !Z.eqb_refl. reflexivity.
Qed.

Lemma contact_skips_ext s d d' newc newa :
  contacts d' = contacts d ++ newc ->
  contact_assignments d' = contact_assignments d ++ newa ->
  contact_iteration_skips s d = true ->
  contact_iteration_skips s d' = true.
Proof.
  unfold contact_iteration_skips. intros Hc Ha.
  destruct (Contact_filter_first _ d) as [c|] eqn:Hf; [|discriminate].
  rewrite (Contact_filter_first_ext _ d d' newc c Hc Hf).
  eapply Site_contacts_exists_ext; eassumption.
Qed.

(** A step keeps every site that would be skipped skipped. *)
Lemma contact_step_skips_stable data site cnt d cnt' d' s :
  contact_step data site cnt d cnt' d' ->
  contact_iteration_skips s d = true ->
  contact_iteration_skips s d' = true.
Proof.
  intros St.
  destruct (contact_step_tables data site cnt d cnt' d' St) as (nc & na & Hc & Ha & _).
  eapply contact_skips_ext; eassumption.
Qed.

(** After its step, a site is one that would be skipped: its contact is
    stored and the assignment exists. *)
Lemma contact_step_skips_self data site cnt d cnt' d' :
  contact_step data site cnt d cnt' d' ->
  contact_iteration_skips site d' = true.
Proof.
  intros [cc ac d0 c Hf He | cc ac d0 c Hf He | cc ac d0 Hf c];
    unfold contact_iteration_skips.
  - rewrite Hf. exact He.
  - rewrite (Contact_filter_first_ext _ d0 _ [] c); auto.
    + eapply Site_contacts_exists_row.
      rewrite contact_assign_db_assignments. apply in_or_app. right.
      left. reflexivity.
    + rewrite contact_assign_db_contacts, app_nil_r. reflexivity.
  - assert (E : Contact_filter_first
                  (MigrateSiteContactsScript._get_contact_data site)
                  (contact_assign_db data site c (Contact_insert c d0))
                = Some c).
    { unfold Contact_filter_first in *.
      rewrite contact_assign_db_contacts. simpl.
      rewrite (find_app_none _ _ _ Hf). simpl.
      subst c. rewrite Contact_matches_new. reflexivity. }
    rewrite E. eapply Site_contacts_exists_row.
    rewrite contact_assign_db_assignments. apply in_or_app. right.
    left. reflexivity.
Qed.

(** A step leaves each site row as it was or with an empty
    [contact_name]. *)
Lemma contact_step_sites data site cnt d cnt' d' :
  contact_step data site cnt d cnt' d' ->
  Forall2 (fun s s' => s' = s \/ Site.contact_name s' = [])
          (sites d) (sites d').
Proof.
  assert (K : forall c d0,
             Forall2 (fun s s' => s' = s \/ Site.contact_name s' = [])
                     (sites d0) (sites (contact_assign_db data site c d0))).
  { intros c d0. rewrite contact_assign_db_sites.
    destruct (MigrateSiteContactsScript.clear_site_fields data).
    - rewrite Site_update_contact_fields_empty_sites.
      apply Forall2_map_r_compose.
      + intros x y [-> | H]; destruct (Site.pk _ =? _)%Z; auto.
      + apply Forall2_diag. auto.
    - simpl. apply Forall2_diag. auto. }
  intros [cc ac d0 c Hf He | cc ac d0 c Hf He | cc ac d0 Hf c].
  - apply Forall2_diag. auto.
  - apply K.
  - apply (K c (Contact_insert c d0)).
Qed.

Lemma ASN_in_all_iff a site d :
  ASN_in a (Site_asns_all site d) = true <->
  exists r, In r (asns d) /\ linked (Site.pk site) (ASN.pk r) d = true /\
            ASN.pk r = ASN.pk a.
Proof.
  unfold ASN_in, Site_asns_all. rewrite existsb_exists. split.
  - intros (r & Hr & E). apply filter_In in Hr as [Hr Hl].
    exists r. repeat split; auto. apply Z.eqb_eq. exact E.
  - intros (r & Hr & Hl & E). exists r. split.
    + apply filter_In. auto.
    + apply Z.eqb_eq. exact E.
Qed.

Lemma linked_ext sp ap d d' new :
  site_asns d' = site_asns d ++ new ->
  linked sp ap d = true -> linked sp ap d' = true.
Proof.
  unfold linked. intros -> H. rewrite existsb_app, H. reflexivity.
Qed.

Lemma linked_after_insert sp ap d :
  linked sp ap (site_asns_insert sp ap d) = true.
Proof.
  unfold linked at 1. simpl. destruct (linked sp ap d) eqn:E.
  - exact E.
  - rewrite existsb_app. simpl. rewrite !Z.eqb_refl.
    apply orb_true_iff. right. reflexivity.
Qed.

Lemma linked_after_assign data site a d :
  linked (Site.pk site) (ASN.pk a) (asn_assign_db data site a d) = true.
Proof.
  unfold asn_assign_db.
  destruct (MigrateSiteASNsScript.clear_site_field data);
    [change (linked (Site.pk site) (ASN.pk a)
               (site_asns_insert (Site.pk site) (ASN.pk a) d) = true)|];
    apply linked_after_insert.
Qed.

Lemma ASN_filter_first_ext v d d' new a :
  asns d' = asns d ++ new ->
  ASN_filter_first v d = Some a -> ASN_filter_first v d' = Some a.
Proof.
  unfold ASN_filter_first. intros ->. destruct v; [|discriminate].
  apply find_app_some.
Qed.

Lemma ASN_filter_first_in v d a :
  ASN_filter_first v d = Some a -> In a (asns d) /\ v = Some (ASN.asn a).
Proof.
  unfold ASN_filter_first. destruct v as [n|]; [|discriminate].
  intros H. apply find_some in H as [Hin E]. split; [exact Hin|].
  apply Z.eqb_eq in E. congruence.
Qed.

Lemma asn_skips_ext s d d' newa newl :
  asns d' = asns d ++ newa ->
  site_asns d' = site_asns d ++ newl ->
  asn_iteration_skips s d = true ->
  asn_iteration_skips s d' = true.
Proof.
  unfold asn_iteration_skips. intros Ha Hl.
  destruct (ASN_filter_first _ d) as [a|] eqn:Hf; [|discriminate].
  rewrite (ASN_filter_first_ext _ d d' newa a Ha Hf).
  rewrite !ASN_in_all_iff. intros (r & Hr & Hlk & E).
  exists r. repeat split; auto.
  - rewrite Ha. apply in_or_app. auto.
  - eapply linked_ext; eassumption.
Qed.

Lemma asn_step_skips_stable data site cnt d cnt' d' s :
  asn_step data site cnt d cnt' d' ->
  asn_iteration_skips s d = true ->
  asn_iteration_skips s d' = true.
Proof.
  intros St.
  destruct (asn_step_tables data site cnt d cnt' d' St) as (na & nl & Ha & Hl & _).
  eapply asn_skips_ext; eassumption.
Qed.

Lemma asn_step_skips_self data site cnt d cnt' d' :
  asn_step data site cnt d cnt' d' ->
  asn_iteration_skips site d' = true.
Proof.
  intros [cc ac d0 a Hf He | cc ac d0 a Hf He | cc ac d0 n Hn Hf a];
    unfold asn_iteration_skips.
  - rewrite Hf. exact He.
  - rewrite (ASN_filter_first_ext _ d0 _ [] a).
    + apply ASN_in_all_iff. exists a. repeat split.
      * rewrite asn_assign_db_asns.
        apply (ASN_filter_first_in _ _ _ Hf).
      * apply linked_after_assign.
    + rewrite asn_assign_db_asns, app_nil_r. reflexivity.
    + exact Hf.
  - assert (E : ASN_filter_first (Site.asn site)
                  (asn_assign_db data site a (ASN_insert a d0)) = Some a).
    { unfold ASN_filter_first in *. rewrite Hn in *.
      rewrite asn_assign_db_asns. simpl.
      rewrite (find_app_none _ _ _ Hf). simpl.
      rewrite Z.eqb_refl. reflexivity. }
    rewrite E. apply ASN_in_all_iff. exists a. repeat split.
    + rewrite asn_assign_db_asns. simpl. apply in_or_app. right.
      left. reflexivity.
    + apply linked_after_assign.
Qed.

Lemma asn_step_sites data site cnt d cnt' d' :
  asn_step data site cnt d cnt' d' ->
  Forall2 (fun s s' => s' = s \/ Site.asn s' = None)
          (sites d) (sites d').
Proof.
  assert (K : forall a d0,
             Forall2 (fun s s' => s' = s \/ Site.asn s' = None)
                     (sites d0) (sites (asn_assign_db data site a d0))).
  { intros a d0. rewrite asn_assign_db_sites.
    destruct (MigrateSiteASNsScript.clear_site_field data).
    - unfold Site_update_asn_none, with_sites. simpl.
      apply Forall2_map_r_compose.
      + intros x y [-> | H]; destruct (Site.pk _ =? _)%Z; auto.
      + apply Forall2_diag. auto.
    - simpl. apply Forall2_diag. auto. }
  intros [cc ac d0 a Hf He | cc ac d0 a Hf He | cc ac d0 n Hn Hf a].
  - apply Forall2_diag. auto.
  - apply K.
  - apply (K a (ASN_insert a d0)).
Qed.

(* ===================================================================== *)
(** ** After a run every selected site is one the loop skips *)
(* ===================================================================== *)

Lemma Forall2_compose {A} (R : A -> A -> Prop) l1 l2 l3 :
  (forall x y z, R x y -> R y z -> R x z) ->
  Forall2 R l1 l2 -> Forall2 R l2 l3 -> Forall2 R l1 l3.
Proof.
  intros T H. revert l3. induction H as [|x y l1 l2 Hxy _ IH]; intros l3 H3.
  - inversion H3. constructor.
  - inversion H3; subst. constructor; eauto.
Qed.

Lemma contact_run_settles data commit w :
  exists cnt w',
    MigrateSiteContactsScript.run data commit w = Returned cnt w' /\
    (forall s, In s (Site_exclude_contact_name_empty (db w)) ->
               contact_iteration_skips s (db w') = true) /\
    (forall s, In s (Site_exclude_contact_name_empty (db w')) ->
               contact_iteration_skips s (db w') = true).
Proof.
  destruct (contact_run_invariant data commit w
    (fun pre _ d =>
       Forall2 (fun s s' => s' = s \/ Site.contact_name s' = [])
               (sites (db w)) (sites d) /\
       forall s, In s pre -> contact_iteration_skips s d = true))
    as (cnt & w' & E & HF & HS).
  - intros pre site cnt d cnt' d' _ [HF HS] St. split.
    + eapply Forall2_compose; [| exact HF |].
      * intros x y z [-> | Hy] [-> | Hz]; auto.
      * eapply contact_step_sites; exact St.
    + intros s Hs. apply in_app_or in Hs as [Hs | [<- | []]].
      * eapply contact_step_skips_stable; eauto.
      * eapply contact_step_skips_self; exact St.
  - split; [apply Forall2_diag; auto | intros s []].
  - exists cnt, w'. split; [exact E|]. split; [exact HS|].
    intros s Hs. apply HS.
    unfold Site_exclude_contact_name_empty in *.
    apply filter_In in Hs as [Hin Hne]. apply filter_In.
    destruct (Forall2_In_r _ _ _ _ HF Hin) as (s0 & H0 & [-> | Hc]).
    + auto.
    + rewrite Hc in Hne. discriminate.
Qed.

Lemma contact_run_all_skipped data commit w :
  (forall s, In s (Site_exclude_contact_name_empty (db w)) ->
             contact_iteration_skips s (db w) = true) ->
  exists w', MigrateSiteContactsScript.run data commit w = Returned (0, 0) w'
             /\ db w' = db w.
Proof.
  intros Hall.
  destruct (contact_run_invariant data commit w
              (fun _ cnt d => cnt = (0, 0) /\ d = db w))
    as (cnt & w' & E & -> & Hd).
  - intros pre site cnt d cnt' d' Hin [-> ->] St.
    specialize (Hall site Hin). unfold contact_iteration_skips in Hall.
    inversion St; subst; try (split; congruence);
      match goal with
      | H : Contact_filter_first _ _ = _ |- _ => rewrite H in Hall
      end; congruence.
  - auto.
  - exists w'. auto.
Qed.

Lemma asn_run_settles data commit w :
  exists cnt w',
    MigrateSiteASNsScript.run data commit w = Returned cnt w' /\
    (forall s, In s (Site_filter_asn_notnull (db w)) ->
               asn_iteration_skips s (db w') = true) /\
    (forall s, In s (Site_filter_asn_notnull (db w')) ->
               asn_iteration_skips s (db w') = true).
Proof.
  destruct (asn_run_invariant data commit w
    (fun pre _ d =>
       Forall2 (fun s s' => s' = s \/ Site.asn s' = None)
               (sites (db w)) (sites d) /\
       forall s, In s pre -> asn_iteration_skips s d = true))
    as (cnt & w' & E & HF & HS).
  - intros pre site cnt d cnt' d' _ [HF HS] St. split.
    + eapply Forall2_compose; [| exact HF |].
      * intros x y z [-> | Hy] [-> | Hz]; auto.
      * eapply asn_step_sites; exact St.
    + intros s Hs. apply in_app_or in Hs as [Hs | [<- | []]].
      * eapply asn_step_skips_stable; eauto.
      * eapply asn_step_skips_self; exact St.
  - split; [apply Forall2_diag; auto | intros s []].
  - exists cnt, w'. split; [exact E|]. split; [exact HS|].
    intros s Hs. apply HS.
    unfold Site_filter_asn_notnull in *.
    apply filter_In in Hs as [Hin Hne]. apply filter_In.
    destruct (Forall2_In_r _ _ _ _ HF Hin) as (s0 & H0 & [-> | Hc]).
    + auto.
    + rewrite Hc in Hne. discriminate.
Qed.

Lemma asn_run_all_skipped data commit w :
  (forall s, In s (Site_filter_asn_notnull (db w)) ->
             asn_iteration_skips s (db w) = true) ->
  exists w', MigrateSiteASNsScript.run data commit w = Returned (0, 0) w'
             /\ db w' = db w.
Proof.
  intros Hall.
  destruct (asn_run_invariant data commit w
              (fun _ cnt d => cnt = (0, 0) /\ d = db w))
    as (cnt & w' & E & -> & Hd).
  - intros pre site cnt d cnt' d' Hin [-> ->] St.
    specialize (Hall site Hin). unfold asn_iteration_skips in Hall.
    inversion St; subst; try (split; congruence);
      match goal with
      | H : ASN_filter_first _ _ = _ |- _ => rewrite H in Hall
      end; congruence.
  - auto.
  - exists w'. auto.
Qed.

(* ===================================================================== *)
(** ** Idempotence *)
(* ===================================================================== *)

(** C1.  From any database, each script run in commit mode returns, and
    running it again with the same parameters on the database the first
    run left returns too, with both counters at zero and the database
    unchanged: no contact or ASN, and no assignment or site-ASN link, is
    added by the second run. *)
Theorem second_run_creates_nothing :
  (forall data w,
     exists cnt1 w1 w2,
       MigrateSiteContactsScript.run data true w = Returned cnt1 w1 /\
       MigrateSiteContactsScript.run data true w1 = Returned (0, 0) w2 /\
       db w2 = db w1 /\
       created_rows (contacts (db w1)) (contacts (db w2)) = [] /\
       created_rows (contact_assignments (db w1))
                    (contact_assignments (db w2)) = []) /\
  (forall data w,
     exists cnt1 w1 w2,
       MigrateSiteASNsScript.run data true w = Returned cnt1 w1 /\
       MigrateSiteASNsScript.run data true w1 = Returned (0, 0) w2 /\
       db w2 = db w1 /\
       created_rows (asns (db w1)) (asns (db w2)) = [] /\
       created_rows (site_asns (db w1)) (site_asns (db w2)) = []).
Proof.
  split; intros data w.
  - destruct (contact_run_settles data true w) as (cnt1 & w1 & E1 & _ & H1).
    destruct (contact_run_all_skipped data true w1 H1) as (w2 & E2 & Hd).
    exists cnt1, w1, w2. rewrite Hd. repeat split; auto;
      apply created_rows_same.
  - destruct (asn_run_settles data true w) as (cnt1 & w1 & E1 & _ & H1).
    destruct (asn_run_all_skipped data true w1 H1) as (w2 & E2 & Hd).
    exists cnt1, w1, w2. rewrite Hd. repeat split; auto;
      apply created_rows_same.
Qed.

(* ===================================================================== *)
(** ** Empty selection *)
(* ===================================================================== *)

(** C8.  When the selector yields no site, either script returns the
    counters (0, 0), leaves the database as it was, and appends exactly
    one log entry, a warning. *)
Theorem empty_selection_only_warns :
  (forall data commit w,
     Site_exclude_contact_name_empty (db w) = [] ->
     MigrateSiteContactsScript.run data commit w =
     Returned (0, 0)
              {| db := db w; log := log w ++ [(Warning, NoContactSites)] |}) /\
  (forall data commit w,
     Site_filter_asn_notnull (db w) = [] ->
     MigrateSiteASNsScript.run data commit w =
     Returned (0, 0)
              {| db := db w; log := log w ++ [(Warning, NoASNSites)] |}).
Proof.
  split; intros data commit w H.
  - rewrite contact_run_unfold, H. reflexivity.
  - rewrite asn_run_unfold, H. reflexivity.
Qed.

Lemma empty_selection_only_warns_witness :
  let w := {| db := with_sites (fun _ => [Sample.site_c]) Sample.empty_db;
              log := [] |} in
  MigrateSiteContactsScript.run Sample.contacts_data true w =
  Returned (0, 0) {| db := db w; log := [(Warning, NoContactSites)] |} /\
  MigrateSiteASNsScript.run Sample.asns_data true w =
  Returned (0, 0) {| db := db w; log := [(Warning, NoASNSites)] |}.
Proof.
  split.
  - apply (proj1 empty_selection_only_warns). reflexivity.
  - apply (proj2 empty_selection_only_warns). reflexivity.
Defined.

(* ===================================================================== *)
(** ** The contact key *)
(* ===================================================================== *)

(** C7.  The dict [_get_contact_data] returns has, under ['name'], the
    trimmed [contact_name], whatever it is; under ['phone'] the trimmed
    [contact_phone] when that is not empty and no entry otherwise; and the
    same for ['email'].  Trimming is [strip], the one string left when the
    leading and trailing whitespace is removed. *)
Theorem contact_data_is_trimmed_fields (site : Site.t) :
  let attrs := MigrateSiteContactsScript._get_contact_data site in
  (cd_name attrs = strip (Site.contact_name site) /\
   cd_phone attrs = (if truthy (strip (Site.contact_phone site))
                     then Some (strip (Site.contact_phone site)) else None) /\
   cd_email attrs = (if truthy (strip (Site.contact_email site))
                     then Some (strip (Site.contact_email site)) else None)) /\
  (forall t, trimmed_of (Site.contact_name site) t <-> cd_name attrs = t) /\
  (forall t, trimmed_of (Site.contact_phone site) t ->
             cd_phone attrs = if truthy t then Some t else None) /\
  (forall t, trimmed_of (Site.contact_email site) t ->
             cd_email attrs = if truthy t then Some t else None).
Proof.
  cbv zeta. unfold MigrateSiteContactsScript._get_contact_data. simpl.
  split; [auto|]. split; [|split].
  - intros t. split.
    + intros H. eapply trimmed_of_unique; [apply strip_trimmed | exact H].
    + intros <-. apply strip_trimmed.
  - intros t H.
    rewrite (trimmed_of_unique _ _ _ (strip_trimmed _) H). reflexivity.
  - intros t H.
    rewrite (trimmed_of_unique _ _ _ (strip_trimmed _) H). reflexivity.
Qed.

(** Site A of the samples: the phone is trimmed, the empty email is left
    out; a whitespace-only name stays in the dict as the empty string. *)
Example contact_data_site_a :
  MigrateSiteContactsScript._get_contact_data Sample.site_a =
  {| cd_name := u "Jane Doe"; cd_phone := Some (u "555-1234");
     cd_email := None |} /\
  MigrateSiteContactsScript._get_contact_data
    (Site.mk 9 [] (u "   ") [] (u " ") None []) =
  {| cd_name := []; cd_phone := None; cd_email := None |}.
Proof. split; reflexivity. Qed.

(* ===================================================================== *)
(** ** The lookup constrains only the keys of the dict *)
(* ===================================================================== *)

Lemma Contact_matches_iff attrs c :
  Contact_matches attrs c = true <->
  Contact.name c = cd_name attrs /\
  (forall phone, cd_phone attrs = Some phone -> Contact.phone c = phone) /\
  (forall email, cd_email attrs = Some email -> Contact.email c = email).
Proof.
  unfold Contact_matches. rewrite !andb_true_iff, str_eqb_eq.
  destruct (cd_phone attrs) as [p|], (cd_email attrs) as [e|];
    rewrite ?str_eqb_eq; split.
  all: try (intros [[Hn Hp] He]; repeat split; auto; intros ? [= <-]; auto).
  all: try (intros [[Hn Hp] He]; repeat split; auto; intros ? [=]).
  all: intros (Hn & Hp & He); repeat split; auto.
Qed.

(** C4.  A stored contact matches the dict exactly when its name, and its
    phone and email where the dict has them, equal the dict's values; its
    primary key, its other columns, and its phone or email where the dict
    has no entry, are not looked at.  When such a contact is stored the
    lookup finds a match and the iteration creates no contact. *)
Theorem lookup_constrains_only_dict_keys data site cnt w c :
  let attrs := MigrateSiteContactsScript._get_contact_data site in
  In c (contacts (db w)) ->
  Contact.name c = cd_name attrs ->
  (forall phone, cd_phone attrs = Some phone -> Contact.phone c = phone) ->
  (forall email, cd_email attrs = Some email -> Contact.email c = email) ->
  (forall pk other phone email,
     Contact_matches attrs
       {| Contact.pk := pk; Contact.name := Contact.name c;
          Contact.phone :=
            match cd_phone attrs with Some _ => Contact.phone c | None => phone end;
          Contact.email :=
            match cd_email attrs with Some _ => Contact.email c | None => email end;
          Contact.other := other |} = true) /\
  (forall c',
     Contact_matches attrs c' = true <->
     Contact.name c' = cd_name attrs /\
     (forall phone, cd_phone attrs = Some phone -> Contact.phone c' = phone) /\
     (forall email, cd_email attrs = Some email -> Contact.email c' = email)) /\
  (exists c', Contact_filter_first attrs (db w) = Some c' /\
              Contact_matches attrs c' = true) /\
  (exists cnt' w',
     MigrateSiteContactsScript.iteration data site cnt w = Returned cnt' w' /\
     contacts (db w') = contacts (db w) /\ fst cnt' = fst cnt).
Proof.
  intros attrs Hin Hn Hp He.
  assert (Hm : Contact_matches attrs c = true).
  { apply Contact_matches_iff. auto. }
  split; [|split; [intros c'; apply Contact_matches_iff|split]].
  - intros pk other phone email. apply Contact_matches_iff. simpl.
    repeat split; auto.
    + intros p E. rewrite E. auto.
    + intros e E. rewrite E. auto.
  - destruct (Contact_filter_first attrs (db w)) as [c'|] eqn:Hf.
    + exists c'. split; [reflexivity|].
      apply (Contact_filter_first_matches _ _ _ Hf).
    + unfold Contact_filter_first in Hf.
      rewrite (find_none _ _ Hf c Hin) in Hm. discriminate.
  - destruct cnt as [cc ac].
    destruct (Contact_filter_first attrs (db w)) as [c'|] eqn:Hf.
    + destruct (Site_contacts_exists site c' (db w)) eqn:Hx.
      * eexists _, _. split.
        { apply (contact_iteration_skip data site cc ac w c' Hf Hx). }
        auto.
      * eexists _, _. split.
        { rewrite (contact_iteration_link data site cc ac w c' Hf Hx).
          apply contact_assign_eq. }
        simpl. rewrite contact_assign_db_contacts. auto.
    + unfold Contact_filter_first in Hf.
      rewrite (find_none _ _ Hf c Hin) in Hm. discriminate.
Qed.

(** The stored contact of the samples has a phone and a further column
    filled in; site D, whose dict has the name only, matches it. *)
Lemma lookup_constrains_only_dict_keys_witness :
  exists cnt' w',
    MigrateSiteContactsScript.iteration
      Sample.contacts_data Sample.site_d (0, 0)
      {| db := Sample.stored_db; log := [] |} = Returned cnt' w' /\
    contacts (db w') = contacts Sample.stored_db /\ fst cnt' = fst (0, 0).
Proof.
  apply (lookup_constrains_only_dict_keys
           Sample.contacts_data Sample.site_d (0, 0)
           {| db := Sample.stored_db; log := [] |} Sample.jane).
  - simpl. left. reflexivity.
  - reflexivity.
  - intros phone H. discriminate H.
  - intros email H. discriminate H.
Defined.

(* ===================================================================== *)
(** ** The selectors *)
(* ===================================================================== *)

(** C6, as stated, fails for the contact script.  Site C has an empty
    [contact_name] and a phone number: its legacy contact fields are not
    all empty, yet the selector leaves it out.  Site D has a name and
    neither phone nor email: it has empty legacy contact fields, yet the
    selector keeps it. *)
Lemma selector_reads_contact_name_only_counterexample :
  let d := with_sites (fun _ => [Sample.site_c; Sample.site_d])
                      Sample.empty_db in
  (In Sample.site_c (sites d) /\
   some_contact_field_nonempty Sample.site_c = true /\
   ~ In Sample.site_c (Site_exclude_contact_name_empty d)) /\
  (every_contact_field_nonempty Sample.site_d = false /\
   In Sample.site_d (Site_exclude_contact_name_empty d)).
Proof.
  cbv zeta. repeat split.
  - simpl. auto.
  - vm_compute. intros [H | []]. discriminate H.
  - vm_compute. auto.
Qed.

(** C6, amended.  The contact selector returns exactly the site rows whose
    [contact_name] is not the empty string, whatever their phone and email
    are; the ASN selector returns exactly the site rows whose legacy [asn]
    is not null.  Both keep the rows in table order. *)
Theorem selector_keeps_sites_with_legacy_value :
  (forall d s,
     In s (Site_exclude_contact_name_empty d) <->
     In s (sites d) /\ Site.contact_name s <> []) /\
  (forall d s,
     In s (Site_filter_asn_notnull d) <->
     In s (sites d) /\ Site.asn s <> None) /\
  (forall d,
     Site_exclude_contact_name_empty d =
     filter (fun s => truthy (Site.contact_name s)) (sites d)) /\
  (forall d s phone email,
     In s (Site_exclude_contact_name_empty d) ->
     In {| Site.pk := Site.pk s; Site.name := Site.name s;
           Site.contact_name := Site.contact_name s;
           Site.contact_phone := phone; Site.contact_email := email;
           Site.asn := Site.asn s; Site.other := Site.other s |}
        (Site_exclude_contact_name_empty
           (with_sites
              (map (fun r =>
                      {| Site.pk := Site.pk r; Site.name := Site.name r;
                         Site.contact_name := Site.contact_name r;
                         Site.contact_phone := phone;
                         Site.contact_email := email;
                         Site.asn := Site.asn r;
                         Site.other := Site.other r |})) d))).
Proof.
  split; [|split; [|split]].
  - intros d s. unfold Site_exclude_contact_name_empty.
    rewrite filter_In, negb_true_iff, str_eqb_neq. tauto.
  - intros d s. unfold Site_filter_asn_notnull. rewrite filter_In.
    destruct (Site.asn s); split; intros [Hin H]; split; congruence.
  - intros d. unfold Site_exclude_contact_name_empty.
    apply filter_ext. intros s. symmetry. apply truthy_str_eqb.
  - intros d s phone email H. apply filter_In in H as [Hin Hne].
    apply filter_In. split; [|exact Hne]. simpl.
    apply (in_map (fun r => Site.mk (Site.pk r) (Site.name r)
                                    (Site.contact_name r) phone email
                                    (Site.asn r) (Site.other r)) _ _ Hin).
Qed.

(* ===================================================================== *)
(** ** Links are created once *)
(* ===================================================================== *)

Lemma contact_pks_allocated_iff d :
  contact_pks_allocated d = true <->
  (forall c, In c (contacts d) -> (Contact.pk c < next_contact_pk d)%Z) /\
  (forall a, In a (contact_assignments d) ->
             (ContactAssignment.contact a < next_contact_pk d)%Z).
Proof.
  unfold contact_pks_allocated.
  rewrite andb_true_iff, !forallb_forall.
  split; intros [Hc Ha]; split; intros x Hx.
  - apply Z.ltb_lt. auto.
  - apply Z.ltb_lt. auto.
  - apply Z.ltb_lt. auto.
  - apply Z.ltb_lt. auto.
Qed.

Lemma Site_contacts_exists_false site c d :
  Site_contacts_exists site c d = false ->
  ~ In (SiteObject (Site.pk site), Contact.pk c)
       (map assignment_pair (contact_assignments d)).
Proof.
  intros Hx Hin. apply in_map_iff in Hin as (a & Ea & Hin).
  assert (Site_contacts_exists site c d = true); [|congruence].
  unfold Site_contacts_exists. apply existsb_exists. exists a.
  split; [exact Hin|]. unfold assignment_pair in Ea.
  injection Ea as -> ->. rewrite !Z.eqb_refl. reflexivity.
Qed.

Lemma linked_false sp ap d :
  linked sp ap d = false -> ~ In (sp, ap) (site_asns d).
Proof.
  intros Hx Hin. assert (linked sp ap d = true); [|congruence].
  unfold linked. apply existsb_exists. exists (sp, ap).
  split; [exact Hin|]. simpl. rewrite !Z.eqb_refl. reflexivity.
Qed.

(** A step of the contact loop on a database whose contact keys were all
    handed out by the sequence adds at most one assignment, for a pair no
    stored assignment has. *)
Lemma contact_step_links_once data site cnt d cnt' d' :
  contact_step data site cnt d cnt' d' ->
  contact_pks_allocated d = true ->
  contact_pks_allocated d' = true /\
  exists newa,
    contact_assignments d' = contact_assignments d ++ newa /\
    snd cnt' = snd cnt + List.length newa /\
    (newa = [] \/
     exists a, newa = [a] /\
               ~ In (assignment_pair a)
                    (map assignment_pair (contact_assignments d))).
Proof.
  intros St Hwf. pose proof Hwf as Hwf0.
  apply contact_pks_allocated_iff in Hwf as [Hc Ha].
  destruct St as [cc ac d0 c Hf He | cc ac d0 c Hf He | cc ac d0 Hf c].
  - split; [exact Hwf0|]. exists []. rewrite app_nil_r.
    simpl. repeat split; auto.
  - split.
    + apply contact_pks_allocated_iff.
      rewrite contact_assign_db_contacts, contact_assign_db_assignments,
        contact_assign_db_next_contact_pk.
      split; [exact Hc|]. intros a Hin.
      apply in_app_or in Hin as [Hin | [<- | []]]; [auto|]. simpl.
      apply Hc. apply (Contact_filter_first_matches _ _ _ Hf).
    + exists [assignment_row data site c d0].
      rewrite contact_assign_db_assignments. simpl.
      repeat split; [lia|]. right. eexists. split; [reflexivity|].
      apply Site_contacts_exists_false. exact He.
  - split.
    + apply contact_pks_allocated_iff.
      rewrite contact_assign_db_contacts, contact_assign_db_assignments,
        contact_assign_db_next_contact_pk. simpl.
      split.
      * intros x Hin. apply in_app_or in Hin as [Hin | [<- | []]].
        -- specialize (Hc x Hin). lia.
        -- subst c. simpl. lia.
      * intros a Hin. apply in_app_or in Hin as [Hin | [<- | []]].
        -- specialize (Ha a Hin). lia.
        -- subst c. simpl. lia.
    + exists [assignment_row data site c (Contact_insert c d0)].
      rewrite contact_assign_db_assignments. simpl.
      repeat split; [lia|]. right. eexists. split; [reflexivity|].
      intros Hin. apply in_map_iff in Hin as (a & Ea & Hin).
      specialize (Ha a Hin). unfold assignment_pair in Ea. simpl in Ea.
      subst c. simpl in Ea. injection Ea as _ Ea. lia.
Qed.

Lemma asn_step_links_once data site cnt d cnt' d' :
  asn_step data site cnt d cnt' d' ->
  exists newl,
    site_asns d' = site_asns d ++ newl /\
    snd cnt + List.length newl <= snd cnt' /\
    (newl = [] \/ exists p, newl = [p] /\ ~ In p (site_asns d)).
Proof.
  assert (K : forall a d0,
             exists newl,
               site_asns (asn_assign_db data site a d0) = site_asns d0 ++ newl /\
               List.length newl <= 1 /\
               (newl = [] \/ exists p, newl = [p] /\ ~ In p (site_asns d0))).
  { intros a d0. rewrite asn_assign_db_site_asns.
    destruct (linked (Site.pk site) (ASN.pk a) d0) eqn:E.
    - exists []. rewrite app_nil_r. simpl. auto.
    - exists [(Site.pk site, ASN.pk a)]. simpl. repeat split; auto.
      right. eexists. split; [reflexivity|]. apply linked_false. exact E. }
  intros [cc ac d0 a Hf He | cc ac d0 a Hf He | cc ac d0 n Hn Hf a].
  - exists []. rewrite app_nil_r. simpl. repeat split; auto; lia.
  - destruct (K a d0) as (newl & E & L & H). exists newl. simpl.
    repeat split; auto; lia.
  - destruct (K a (ASN_insert a d0)) as (newl & E & L & H).
    exists newl. simpl in *. repeat split; auto; lia.
Qed.

Lemma NoDup_snoc {A} (l : list A) x : NoDup l -> ~ In x l -> NoDup (l ++ [x]).
Proof.
  intros Hl Hx. apply NoDup_app; [exact Hl | repeat constructor; auto |].
  intros a Ha [<- | []]. auto.
Qed.

(** C2.  A run of the contact script on a database whose contact keys were
    all handed out by the sequence appends assignments whose (site,
    contact) pairs differ from one another and from every pair stored
    before the run, one per counted assignment; a run of the ASN script
    appends site-ASN rows that differ from one another and from every row
    stored before.  An iteration that finds the record and finds the link
    returns the counters and the database as they were and logs one info
    entry. *)
Theorem link_created_at_most_once_per_pair :
  (forall data commit w,
     contact_pks_allocated (db w) = true ->
     exists cnt w' newa,
       MigrateSiteContactsScript.run data commit w = Returned cnt w' /\
       contact_assignments (db w') = contact_assignments (db w) ++ newa /\
       snd cnt = List.length newa /\
       NoDup (map assignment_pair newa) /\
       forall a, In a newa ->
                 ~ In (assignment_pair a)
                      (map assignment_pair (contact_assignments (db w)))) /\
  (forall data commit w,
     exists cnt w' newl,
       MigrateSiteASNsScript.run data commit w = Returned cnt w' /\
       site_asns (db w') = site_asns (db w) ++ newl /\
       List.length newl <= snd cnt /\
       NoDup newl /\
       forall p, In p newl -> ~ In p (site_asns (db w))) /\
  (forall data site cc ac w c,
     Contact_filter_first (MigrateSiteContactsScript._get_contact_data site)
                          (db w) = Some c ->
     Site_contacts_exists site c (db w) = true ->
     MigrateSiteContactsScript.iteration data site (cc, ac) w =
     Returned (cc, ac)
              {| db := db w;
                 log := log w ++ [(Info, SkippingContact c site)] |}) /\
  (forall data site cc ac w a,
     ASN_filter_first (Site.asn site) (db w) = Some a ->
     ASN_in a (Site_asns_all site (db w)) = true ->
     MigrateSiteASNsScript.iteration data site (cc, ac) w =
     Returned (cc, ac)
              {| db := db w; log := log w ++ [(Info, SkippingASN a site)] |}).
Proof.
  split; [|split; [|split]].
  - intros data commit w Hwf.
    destruct (contact_run_invariant data commit w
      (fun _ cnt d =>
         contact_pks_allocated d = true /\
         exists newa,
           contact_assignments d = contact_assignments (db w) ++ newa /\
           snd cnt = List.length newa /\
           NoDup (map assignment_pair newa) /\
           forall a, In a newa ->
                     ~ In (assignment_pair a)
                          (map assignment_pair (contact_assignments (db w)))))
      as (cnt & w' & E & _ & newa & H).
    + intros pre site cnt d cnt' d' _ (Hw & newa & Ea & Hn & Hd & Hf) St.
      destruct (contact_step_links_once data site cnt d cnt' d' St Hw)
        as (Hw' & na & Ea' & Hn' & Hcase).
      split; [exact Hw'|].
      destruct Hcase as [-> | (a & -> & Hnew)].
      * exists newa. rewrite Ea', app_nil_r. simpl in Hn'.
        repeat split; auto. lia.
      * exists (newa ++ [a]). rewrite Ea', Ea, <- app_assoc.
        rewrite Ea, map_app in Hnew.
        repeat split.
        -- rewrite length_app. simpl in *. lia.
        -- rewrite map_app. simpl. apply NoDup_snoc; [exact Hd|].
           intros Hin. apply Hnew. apply in_or_app. auto.
        -- intros x Hx. apply in_app_or in Hx as [Hx | [<- | []]]; [auto|].
           intros Hin. apply Hnew. apply in_or_app. auto.
    + split; [exact Hwf|]. exists []. rewrite app_nil_r. simpl.
      repeat split; auto. constructor.
    + exists cnt, w', newa. tauto.
  - intros data commit w.
    destruct (asn_run_invariant data commit w
      (fun _ cnt d =>
         exists newl,
           site_asns d = site_asns (db w) ++ newl /\
           List.length newl <= snd cnt /\
           NoDup newl /\
           forall p, In p newl -> ~ In p (site_asns (db w))))
      as (cnt & w' & E & newl & H).
    + intros pre site cnt d cnt' d' _ (newl & El & Hn & Hd & Hf) St.
      destruct (asn_step_links_once data site cnt d cnt' d' St)
        as (nl & El' & Hn' & Hcase).
      destruct Hcase as [-> | (p & -> & Hnew)].
      * exists newl. rewrite El', app_nil_r. simpl in Hn'.
        repeat split; auto. lia.
      * exists (newl ++ [p]). rewrite El', El, <- app_assoc.
        rewrite El in Hnew.
        repeat split.
        -- rewrite length_app. simpl in *. lia.
        -- apply NoDup_snoc; [exact Hd|].
           intros Hin. apply Hnew. apply in_or_app. auto.
        -- intros x Hx. apply in_app_or in Hx as [Hx | [<- | []]]; [auto|].
           intros Hin. apply Hnew. apply in_or_app. auto.
    + exists []. rewrite app_nil_r. simpl. repeat split; auto. constructor.
    + exists cnt, w', newl. tauto.
  - intros. apply contact_iteration_skip; assumption.
  - intros. apply asn_iteration_skip; assumption.
Qed.

Lemma link_created_at_most_once_per_pair_witness :
  exists cnt w' newa,
    MigrateSiteContactsScript.run
      Sample.contacts_data true {| db := Sample.stored_db; log := [] |}
    = Returned cnt w' /\
    contact_assignments (db w') =
    contact_assignments Sample.stored_db ++ newa /\
    snd cnt = List.length newa /\
    NoDup (map assignment_pair newa) /\
    forall a, In a newa ->
              ~ In (assignment_pair a)
                   (map assignment_pair (contact_assignments Sample.stored_db)).
Proof.
  apply (proj1 link_created_at_most_once_per_pair
               Sample.contacts_data true
               {| db := Sample.stored_db; log := [] |}).
  reflexivity.
Defined.

(* ===================================================================== *)
(** ** Deduplication of canonical records *)
(* ===================================================================== *)

Lemma created_from_new_same_key s s' pk :
  created_from (MigrateSiteContactsScript._get_contact_data s)
               (Contact_new pk (MigrateSiteContactsScript._get_contact_data s'))
  = true ->
  MigrateSiteContactsScript._get_contact_data s =
  MigrateSiteContactsScript._get_contact_data s'.
Proof.
  unfold created_from, Contact_new,
    MigrateSiteContactsScript._get_contact_data. simpl.
  rewrite !andb_true_iff, !str_eqb_eq. intros [[Hn Hp] He].
  rewrite Hn. f_equal.
  - destruct (strip (Site.contact_phone s)) as [|x p],
             (strip (Site.contact_phone s')) as [|y q];
      simpl in *; congruence.
  - destruct (strip (Site.contact_email s)) as [|x p],
             (strip (Site.contact_email s')) as [|y q];
      simpl in *; congruence.
Qed.

Lemma created_from_new attrs pk : created_from attrs (Contact_new pk attrs) = true.
Proof.
  unfold created_from. simpl. rewrite !str_eqb_refl. reflexivity.
Qed.

Lemma Contact_filter_first_found attrs d c :
  In c (contacts d) -> Contact_matches attrs c = true ->
  Contact_filter_first attrs d <> None.
Proof.
  unfold Contact_filter_first. intros Hin Hm Hf.
  rewrite (find_none _ _ Hf c Hin) in Hm. discriminate.
Qed.

(** What a step of the contact loop does to the contact table. *)
Lemma contact_step_contacts data site cnt d cnt' d' :
  contact_step data site cnt d cnt' d' ->
  let attrs := MigrateSiteContactsScript._get_contact_data site in
  contacts d' =
  contacts d ++ match Contact_filter_first attrs d with
                | None => [Contact_new (next_contact_pk d) attrs]
                | Some _ => []
                end /\
  fst cnt' = fst cnt + match Contact_filter_first attrs d with
                       | None => 1
                       | Some _ => 0
                       end.
Proof.
  intros [cc ac d0 c Hf He | cc ac d0 c Hf He | cc ac d0 Hf c]; cbv zeta;
    rewrite Hf; simpl; rewrite ?contact_assign_db_contacts, ?app_nil_r;
    split; auto; lia.
Qed.

Lemma asn_step_asns data site cnt d cnt' d' :
  asn_step data site cnt d cnt' d' ->
  asns d' =
  asns d ++ match ASN_filter_first (Site.asn site) d, Site.asn site with
            | None, Some n =>
                [{| ASN.pk := next_asn_pk d; ASN.asn := n;
                    ASN.rir := MigrateSiteASNsScript.asn_rir data |}]
            | _, _ => []
            end /\
  fst cnt' = fst cnt + match ASN_filter_first (Site.asn site) d with
                       | None => 1
                       | Some _ => 0
                       end.
Proof.
  intros [cc ac d0 a Hf He | cc ac d0 a Hf He | cc ac d0 n Hn Hf a];
    rewrite Hf; simpl; rewrite ?asn_assign_db_asns, ?app_nil_r;
    try rewrite Hn; split; auto; lia.
Qed.

(** Run of the contact script, seen from one dict [attrs] derived from a
    site: at most one of the contacts it appends carries that dict's
    attributes, and none does when a stored contact matched the dict
    before the run. *)
Lemma contact_run_creates_once data commit w s :
  let attrs := MigrateSiteContactsScript._get_contact_data s in
  exists cnt w' newc,
    MigrateSiteContactsScript.run data commit w = Returned cnt w' /\
    contacts (db w') = contacts (db w) ++ newc /\
    fst cnt = List.length newc /\
    List.length (filter (created_from attrs) newc) <= 1 /\
    ((exists c0, In c0 (contacts (db w)) /\ Contact_matches attrs c0 = true) ->
     filter (created_from attrs) newc = []).
Proof.
  intros attrs.
  destruct (contact_run_invariant data commit w
    (fun _ cnt d =>
       exists newc,
         contacts d = contacts (db w) ++ newc /\
         fst cnt = List.length newc /\
         List.length (filter (created_from attrs) newc) <= 1 /\
         (filter (created_from attrs) newc <> [] ->
          Contact_filter_first attrs d <> None) /\
         ((exists c0, In c0 (contacts (db w)) /\
                      Contact_matches attrs c0 = true) ->
          filter (created_from attrs) newc = [])))
    as (cnt & w' & E & newc & H).
  - intros pre site cnt d cnt' d' _ (newc & Ec & Hn & Hl & Hp & H0) St.
    destruct (contact_step_contacts data site cnt d cnt' d' St) as [Ec' Hn'].
    destruct (Contact_filter_first
                (MigrateSiteContactsScript._get_contact_data site) d)
      as [c|] eqn:Hf.
    + exists newc. rewrite Ec', app_nil_r. repeat split; auto; [lia|].
      intros Hne. specialize (Hp Hne).
      destruct (Contact_filter_first attrs d) as [x|] eqn:Hx; [|congruence].
      rewrite (Contact_filter_first_ext attrs d d' [] x); [discriminate| |auto].
      rewrite Ec', app_nil_r. reflexivity.
    + set (cnew := Contact_new (next_contact_pk d)
                     (MigrateSiteContactsScript._get_contact_data site)) in *.
      exists (newc ++ [cnew]). rewrite Ec', Ec, <- app_assoc.
      rewrite filter_app. simpl.
      destruct (created_from attrs cnew) eqn:Hcf.
      * apply created_from_new_same_key in Hcf. fold attrs in Hcf.
        rewrite <- Hcf in Hf.
        assert (Hnil : filter (created_from attrs) newc = []).
        { destruct (filter (created_from attrs) newc) eqn:Hfl; [reflexivity|].
          exfalso. apply Hp; [discriminate | exact Hf]. }
        rewrite Hnil. simpl. repeat split; auto.
        -- rewrite length_app. simpl. lia.
        -- intros _. unfold Contact_filter_first. rewrite Ec', Ec.
           unfold Contact_filter_first in Hf. rewrite Ec in Hf.
           rewrite (find_app_none _ _ _ Hf). simpl.
           unfold cnew. rewrite <- Hcf, Contact_matches_new. discriminate.
        -- intros (c0 & Hin & Hm). exfalso.
           apply (Contact_filter_first_found attrs d c0); auto.
           rewrite Ec. apply in_or_app. auto.
      * rewrite app_nil_r. repeat split; auto.
        -- rewrite length_app. simpl. lia.
        -- intros Hne. specialize (Hp Hne).
           destruct (Contact_filter_first attrs d) as [x|] eqn:Hx;
             [|congruence].
           rewrite (Contact_filter_first_ext attrs d d' [cnew] x);
             [discriminate| |auto].
           rewrite Ec', Ec. reflexivity.
  - exists []. rewrite app_nil_r. simpl. repeat split; auto.
  - exists cnt, w', newc. tauto.
Qed.

Lemma ASN_filter_first_found n d a :
  In a (asns d) -> ASN.asn a = n -> ASN_filter_first (Some n) d <> None.
Proof.
  unfold ASN_filter_first. intros Hin Hm Hf.
  pose proof (find_none _ _ Hf a Hin) as H. simpl in H.
  rewrite Hm, Z.eqb_refl in H. discriminate.
Qed.

Lemma asn_run_creates_once data commit w n :
  exists cnt w' newa,
    MigrateSiteASNsScript.run data commit w = Returned cnt w' /\
    asns (db w') = asns (db w) ++ newa /\
    fst cnt = List.length newa /\
    List.length (filter (fun a => (ASN.asn a =? n)%Z) newa) <= 1 /\
    ((exists a0, In a0 (asns (db w)) /\ ASN.asn a0 = n) ->
     filter (fun a => (ASN.asn a =? n)%Z) newa = []).
Proof.
  set (f := fun a => (ASN.asn a =? n)%Z).
  destruct (asn_run_invariant data commit w
    (fun _ cnt d =>
       exists newa,
         asns d = asns (db w) ++ newa /\
         fst cnt = List.length newa /\
         List.length (filter f newa) <= 1 /\
         (filter f newa <> [] -> ASN_filter_first (Some n) d <> None) /\
         ((exists a0, In a0 (asns (db w)) /\ ASN.asn a0 = n) ->
          filter f newa = [])))
    as (cnt & w' & E & newa & H).
  - intros pre site cnt d cnt' d' _ (newa & Ea & Hn & Hl & Hp & H0) St.
    destruct (asn_step_asns data site cnt d cnt' d' St) as [Ea' Hn'].
    assert (Hstable : forall new, asns d' = asns d ++ new ->
                                  ASN_filter_first (Some n) d <> None ->
                                  ASN_filter_first (Some n) d' <> None).
    { intros new En Hx.
      destruct (ASN_filter_first (Some n) d) as [x|] eqn:Hfx; [|congruence].
      rewrite (ASN_filter_first_ext (Some n) d d' new x En Hfx).
      discriminate. }
    destruct (ASN_filter_first (Site.asn site) d) as [a|] eqn:Hf.
    + exists newa. rewrite Ea', app_nil_r. repeat split; auto; [lia|].
      intros Hne. apply (Hstable []); auto.
    + destruct (Site.asn site) as [m|] eqn:Hm.
      2:{ exists newa. rewrite Ea', app_nil_r. repeat split; auto.
          - inversion St; congruence.
          - intros Hne. apply (Hstable []); auto. }
      set (anew := {| ASN.pk := next_asn_pk d; ASN.asn := m;
                      ASN.rir := MigrateSiteASNsScript.asn_rir data |}) in *.
      exists (newa ++ [anew]). rewrite Ea', Ea, <- app_assoc.
      rewrite filter_app. simpl.
      destruct (f anew) eqn:Hmn.
      * unfold f, anew in Hmn. simpl in Hmn. apply Z.eqb_eq in Hmn. subst m.
        assert (Hnil : filter f newa = []).
        { destruct (filter f newa) eqn:Hfl; [reflexivity|].
          exfalso. apply Hp; [discriminate | exact Hf]. }
        rewrite Hnil. simpl. repeat split; auto.
        -- rewrite length_app. simpl. lia.
        -- intros _. apply (ASN_filter_first_found n d' anew); [|reflexivity].
           rewrite Ea'. apply in_or_app. right. left. reflexivity.
        -- intros (a0 & Hin & Ha0). exfalso.
           apply (ASN_filter_first_found n d a0); auto.
           rewrite Ea. apply in_or_app. auto.
      * rewrite app_nil_r. repeat split; auto.
        -- rewrite length_app. simpl. lia.
        -- intros Hne. apply (Hstable [anew]); auto.
  - exists []. rewrite app_nil_r. simpl. repeat split; auto.
  - exists cnt, w', newa. tauto.
Qed.

(** C3, as stated, fails.  In the stored sample database sites A and B
    derive the same contact dict and carry the same legacy ASN, and the
    contact and the ASN are stored already: the runs create no contact and
    no ASN, not one. *)
Lemma one_record_per_key_counterexample :
  let w := {| db := Sample.stored_db; log := [] |} in
  let selected := Site_exclude_contact_name_empty Sample.stored_db in
  (In Sample.site_a selected /\ In Sample.site_b selected /\
   MigrateSiteContactsScript._get_contact_data Sample.site_a =
   MigrateSiteContactsScript._get_contact_data Sample.site_b /\
   value_of (MigrateSiteContactsScript.run Sample.contacts_data true w)
   = Some (0, 1) /\
   created_rows
     (contacts Sample.stored_db)
     (contacts (db (world_of (MigrateSiteContactsScript.run
                                Sample.contacts_data true w)))) = []) /\
  (In Sample.site_a (Site_filter_asn_notnull Sample.stored_db) /\
   In Sample.site_b (Site_filter_asn_notnull Sample.stored_db) /\
   Site.asn Sample.site_a = Site.asn Sample.site_b /\
   value_of (MigrateSiteASNsScript.run Sample.asns_data true w)
   = Some (0, 1) /\
   created_rows
     (asns Sample.stored_db)
     (asns (db (world_of (MigrateSiteASNsScript.run
                            Sample.asns_data true w)))) = []).
Proof.
  cbv zeta. split.
  - split; [|split; [|split; [|split]]].
    + simpl. auto.
    + simpl. auto.
    + reflexivity.
    + reflexivity.
    + reflexivity.
  - split; [|split; [|split; [|split]]].
    + simpl. auto.
    + simpl. auto.
    + reflexivity.
    + reflexivity.
    + reflexivity.
Qed.

(** C3, amended.  For two selected sites with the same contact dict, the
    run of the contact script appends at most one contact carrying that
    dict's attributes, and none when a stored contact matched the dict
    before the run; after the run the lookup for the dict returns one
    contact, and both sites are assigned to it.  The same holds for the
    ASN script and two selected sites with the same legacy ASN.  In every
    iteration a record is appended exactly when the lookup returns none. *)
Theorem at_most_one_record_per_key :
  (forall data commit w s1 s2,
     In s1 (Site_exclude_contact_name_empty (db w)) ->
     In s2 (Site_exclude_contact_name_empty (db w)) ->
     MigrateSiteContactsScript._get_contact_data s1 =
     MigrateSiteContactsScript._get_contact_data s2 ->
     let attrs := MigrateSiteContactsScript._get_contact_data s1 in
     exists cnt w' newc c,
       MigrateSiteContactsScript.run data commit w = Returned cnt w' /\
       contacts (db w') = contacts (db w) ++ newc /\
       fst cnt = List.length newc /\
       List.length (filter (created_from attrs) newc) <= 1 /\
       ((exists c0, In c0 (contacts (db w)) /\
                    Contact_matches attrs c0 = true) ->
        filter (created_from attrs) newc = []) /\
       Contact_filter_first attrs (db w') = Some c /\
       Site_contacts_exists s1 c (db w') = true /\
       Site_contacts_exists s2 c (db w') = true) /\
  (forall data commit w s1 s2 n,
     In s1 (Site_filter_asn_notnull (db w)) ->
     In s2 (Site_filter_asn_notnull (db w)) ->
     Site.asn s1 = Some n -> Site.asn s2 = Some n ->
     exists cnt w' newa a,
       MigrateSiteASNsScript.run data commit w = Returned cnt w' /\
       asns (db w') = asns (db w) ++ newa /\
       fst cnt = List.length newa /\
       List.length (filter (fun r => (ASN.asn r =? n)%Z) newa) <= 1 /\
       ((exists a0, In a0 (asns (db w)) /\ ASN.asn a0 = n) ->
        filter (fun r => (ASN.asn r =? n)%Z) newa = []) /\
       ASN_filter_first (Some n) (db w') = Some a /\
       ASN_in a (Site_asns_all s1 (db w')) = true /\
       ASN_in a (Site_asns_all s2 (db w')) = true) /\
  (forall data site cnt w,
     exists cnt' w',
       MigrateSiteContactsScript.iteration data site cnt w = Returned cnt' w' /\
       contacts (db w') =
       contacts (db w) ++
       match Contact_filter_first
               (MigrateSiteContactsScript._get_contact_data site) (db w) with
       | None => [Contact_new
                    (next_contact_pk (db w))
                    (MigrateSiteContactsScript._get_contact_data site)]
       | Some _ => []
       end) /\
  (forall data site cnt w n,
     Site.asn site = Some n ->
     exists cnt' w',
       MigrateSiteASNsScript.iteration data site cnt w = Returned cnt' w' /\
       asns (db w') =
       asns (db w) ++
       match ASN_filter_first (Some n) (db w) with
       | None => [{| ASN.pk := next_asn_pk (db w); ASN.asn := n;
                     ASN.rir := MigrateSiteASNsScript.asn_rir data |}]
       | Some _ => []
       end).
Proof.
  split; [|split; [|split]].
  - intros data commit w s1 s2 H1 H2 Hk attrs.
    destruct (contact_run_creates_once data commit w s1)
      as (cnt & w' & newc & E & Ec & Hn & Hl & H0).
    destruct (contact_run_settles data commit w) as (cnt2 & w2 & E2 & HS & _).
    rewrite E in E2. injection E2 as <- <-.
    pose proof (HS s1 H1) as K1. pose proof (HS s2 H2) as K2.
    unfold contact_iteration_skips in K1, K2. rewrite <- Hk in K2.
    fold attrs in K1, K2.
    destruct (Contact_filter_first attrs (db w')) as [c|] eqn:Hf;
      [|discriminate].
    exists cnt, w', newc, c. repeat split; auto.
  - intros data commit w s1 s2 n H1 H2 N1 N2.
    destruct (asn_run_creates_once data commit w n)
      as (cnt & w' & newa & E & Ea & Hn & Hl & H0).
    destruct (asn_run_settles data commit w) as (cnt2 & w2 & E2 & HS & _).
    rewrite E in E2. injection E2 as <- <-.
    pose proof (HS s1 H1) as K1. pose proof (HS s2 H2) as K2.
    unfold asn_iteration_skips in K1, K2. rewrite N1 in K1. rewrite N2 in K2.
    destruct (ASN_filter_first (Some n) (db w')) as [a|] eqn:Hf;
      [|discriminate].
    exists cnt, w', newa, a. repeat split; auto.
  - intros data site cnt w.
    destruct (contact_iteration_step data site cnt w) as (cnt' & w' & E & St).
    exists cnt', w'. split; [exact E|].
    apply (contact_step_contacts data site cnt (db w) cnt' (db w') St).
  - intros data site cnt w n Hn.
    destruct (asn_iteration_step data site cnt w) as (cnt' & w' & E & St);
      [congruence|].
    exists cnt', w'. split; [exact E|].
    destruct (asn_step_asns data site cnt (db w) cnt' (db w') St) as [Ea _].
    rewrite Hn in Ea. rewrite Ea.
    destruct (ASN_filter_first (Some n) (db w)); reflexivity.
Qed.

(** Sites A and B of the samples on the database without contacts: one
    contact is created, and both sites are assigned to it. *)
Lemma at_most_one_record_per_key_witness :
  let w := {| db := Sample.fresh_db; log := [] |} in
  let attrs := MigrateSiteContactsScript._get_contact_data Sample.site_a in
  exists cnt w' newc c,
    MigrateSiteContactsScript.run Sample.contacts_data true w
    = Returned cnt w' /\
    contacts (db w') = contacts (db w) ++ newc /\
    fst cnt = List.length newc /\
    List.length (filter (created_from attrs) newc) <= 1 /\
    ((exists c0, In c0 (contacts (db w)) /\ Contact_matches attrs c0 = true) ->
     filter (created_from attrs) newc = []) /\
    Contact_filter_first attrs (db w') = Some c /\
    Site_contacts_exists Sample.site_a c (db w') = true /\
    Site_contacts_exists Sample.site_b c (db w') = true.
Proof.
  apply (proj1 at_most_one_record_per_key
               Sample.contacts_data true
               {| db := Sample.fresh_db; log := [] |}
               Sample.site_a Sample.site_b).
  - simpl. auto.
  - simpl. auto.
  - reflexivity.
Defined.

(* ===================================================================== *)
(** ** Clearing the legacy fields *)
(* ===================================================================== *)

Lemma map_changes {A} (f : A -> A) (l : list A) x :
  In x l -> f x <> x -> map f l <> l.
Proof.
  induction l as [|a l IH]; simpl; [tauto|].
  intros [-> | Hin] Hne E; injection E as E1 E2; [auto|].
  apply (IH Hin Hne E2).
Qed.

Lemma app_one_neq {A} (l : list A) x : l ++ [x] <> l.
Proof.
  intros E. apply (f_equal (@List.length A)) in E.
  rewrite length_app in E. simpl in E. lia.
Qed.

Lemma Site_update_contact_fields_empty_changes site d :
  In site (sites d) -> Site.contact_name site <> [] ->
  sites (Site_update_contact_fields_empty (Site.pk site) d) <> sites d.
Proof.
  intros Hin Hne. rewrite Site_update_contact_fields_empty_sites.
  apply (map_changes _ _ site Hin).
  rewrite Z.eqb_refl. intros E.
  apply (f_equal Site.contact_name) in E. simpl in E. congruence.
Qed.

Lemma Site_update_asn_none_changes site d :
  In site (sites d) -> Site.asn site <> None ->
  sites (Site_update_asn_none (Site.pk site) d) <> sites d.
Proof.
  intros Hin Hne. unfold Site_update_asn_none, with_sites. simpl.
  apply (map_changes _ _ site Hin).
  rewrite Z.eqb_refl. intros E.
  apply (f_equal Site.asn) in E. simpl in E. congruence.
Qed.

(** The sites table after a contact step that did not skip. *)
Lemma contact_assign_db_clears data site c d :
  In site (sites d) -> Site.contact_name site <> [] ->
  let d' := contact_assign_db data site c d in
  (sites d' <> sites d <->
   MigrateSiteContactsScript.clear_site_fields data = true /\
   contact_assignments d' <> contact_assignments d) /\
  (sites d' = sites d \/
   sites d' = sites (Site_update_contact_fields_empty (Site.pk site) d)).
Proof.
  intros Hin Hne d'. unfold d'.
  rewrite contact_assign_db_sites, contact_assign_db_assignments.
  destruct (MigrateSiteContactsScript.clear_site_fields data).
  - split; [|right; reflexivity]. split.
    + intros _. split; [reflexivity | apply app_one_neq].
    + intros _. apply Site_update_contact_fields_empty_changes; assumption.
  - split; [|left; reflexivity]. split.
    + intros H. exfalso. apply H. reflexivity.
    + intros [H _]. discriminate H.
Qed.

Lemma asn_pks_allocated_iff d :
  asn_pks_allocated d = true <->
  (forall a, In a (asns d) -> (ASN.pk a < next_asn_pk d)%Z) /\
  (forall p, In p (site_asns d) -> (snd p < next_asn_pk d)%Z).
Proof.
  unfold asn_pks_allocated.
  rewrite andb_true_iff, !forallb_forall.
  split; intros [Hc Ha]; split; intros x Hx; apply Z.ltb_lt; auto.
Qed.

Lemma linked_true sp ap d : linked sp ap d = true -> In (sp, ap) (site_asns d).
Proof.
  unfold linked. intros H. apply existsb_exists in H as ([x y] & Hin & E).
  simpl in E. apply andb_true_iff in E as [E1 E2].
  apply Z.eqb_eq in E1, E2. subst. exact Hin.
Qed.

Lemma asn_assign_db_clears data site a d :
  In site (sites d) -> Site.asn site <> None ->
  linked (Site.pk site) (ASN.pk a) d = false ->
  let d' := asn_assign_db data site a d in
  (sites d' <> sites d <->
   MigrateSiteASNsScript.clear_site_field data = true /\
   site_asns d' <> site_asns d) /\
  (sites d' = sites d \/
   sites d' = sites (Site_update_asn_none (Site.pk site) d)).
Proof.
  intros Hin Hne Hl d'. unfold d'.
  rewrite asn_assign_db_sites, asn_assign_db_site_asns, Hl.
  destruct (MigrateSiteASNsScript.clear_site_field data).
  - split; [|right; reflexivity]. split.
    + intros _. split; [reflexivity | apply app_one_neq].
    + intros _. apply Site_update_asn_none_changes; assumption.
  - split; [|left; reflexivity]. split.
    + intros H. exfalso. apply H. reflexivity.
    + intros [H _]. discriminate H.
Qed.

(** The sites table and the link counter after any iteration of the
    contact loop. *)
Lemma contact_iteration_sites data site cnt w :
  exists cnt' w',
    MigrateSiteContactsScript.iteration data site cnt w = Returned cnt' w' /\
    sites (db w') =
    (if MigrateSiteContactsScript.clear_site_fields data &&
        negb (contact_iteration_skips site (db w))
     then sites (Site_update_contact_fields_empty (Site.pk site) (db w))
     else sites (db w)) /\
    snd cnt' = (if contact_iteration_skips site (db w)
                then snd cnt else S (snd cnt)).
Proof.
  destruct cnt as [cc ac]. unfold contact_iteration_skips.
  destruct (Contact_filter_first
              (MigrateSiteContactsScript._get_contact_data site) (db w))
    as [c|] eqn:Hf.
  - destruct (Site_contacts_exists site c (db w)) eqn:Hx.
    + eexists _, _. split.
      { apply (contact_iteration_skip data site cc ac w c Hf Hx). }
      simpl. rewrite andb_false_r. auto.
    + eexists _, _. split.
      { rewrite (contact_iteration_link data site cc ac w c Hf Hx).
        apply contact_assign_eq. }
      simpl. rewrite contact_assign_db_sites, andb_true_r. auto.
  - eexists _, _. split.
    { rewrite (contact_iteration_create data site cc ac w Hf).
      apply contact_assign_eq. }
    simpl. rewrite contact_assign_db_sites, andb_true_r. auto.
Qed.

Lemma asn_iteration_sites data site cnt w :
  Site.asn site <> None ->
  exists cnt' w',
    MigrateSiteASNsScript.iteration data site cnt w = Returned cnt' w' /\
    sites (db w') =
    (if MigrateSiteASNsScript.clear_site_field data &&
        negb (asn_iteration_skips site (db w))
     then sites (Site_update_asn_none (Site.pk site) (db w))
     else sites (db w)) /\
    snd cnt' = (if asn_iteration_skips site (db w)
                then snd cnt else S (snd cnt)).
Proof.
  intros Hne. destruct cnt as [cc ac]. unfold asn_iteration_skips.
  destruct (ASN_filter_first (Site.asn site) (db w)) as [a|] eqn:Hf.
  - destruct (ASN_in a (Site_asns_all site (db w))) eqn:Hx.
    + eexists _, _. split.
      { apply (asn_iteration_skip data site cc ac w a Hf Hx). }
      simpl. rewrite andb_false_r. auto.
    + eexists _, _. split.
      { rewrite (asn_iteration_link data site cc ac w a Hf Hx).
        apply asn_assign_eq. }
      simpl. rewrite asn_assign_db_sites, andb_true_r. auto.
  - destruct (Site.asn site) as [n|] eqn:Hn; [|congruence].
    eexists _, _. split.
    { rewrite (asn_iteration_create data site cc ac w n Hn).
      - apply asn_assign_eq.
      - rewrite Hn. exact Hf. }
    simpl. rewrite asn_assign_db_sites, andb_true_r. auto.
Qed.

(** C5.  Every iteration runs the update that clears the legacy fields of
    its site exactly when the clear flag is set and the iteration is not
    on the skip path, the path on which no link is created and the link
    counter stays.  In an iteration over a site row with a legacy value,
    the sites table changes exactly when the clear flag is set and the
    iteration appended a link; and on the skip path neither the sites
    table nor the link table changes, whatever the flag.  (For the ASN
    script the ASN keys in use were handed out by the sequence.) *)
Theorem legacy_fields_cleared_iff_flag_and_link :
  (forall data site cnt w,
     In site (sites (db w)) -> Site.contact_name site <> [] ->
     exists cnt' w',
       MigrateSiteContactsScript.iteration data site cnt w = Returned cnt' w' /\
       (sites (db w') <> sites (db w) <->
        MigrateSiteContactsScript.clear_site_fields data = true /\
        contact_assignments (db w') <> contact_assignments (db w)) /\
       (sites (db w') = sites (db w) \/
        sites (db w') =
        sites (Site_update_contact_fields_empty (Site.pk site) (db w))) /\
       (contact_iteration_skips site (db w) = true ->
        sites (db w') = sites (db w) /\
        contact_assignments (db w') = contact_assignments (db w))) /\
  (forall data site cnt w,
     In site (sites (db w)) -> Site.asn site <> None ->
     asn_pks_allocated (db w) = true ->
     exists cnt' w',
       MigrateSiteASNsScript.iteration data site cnt w = Returned cnt' w' /\
       (sites (db w') <> sites (db w) <->
        MigrateSiteASNsScript.clear_site_field data = true /\
        site_asns (db w') <> site_asns (db w)) /\
       (sites (db w') = sites (db w) \/
        sites (db w') = sites (Site_update_asn_none (Site.pk site) (db w))) /\
       (asn_iteration_skips site (db w) = true ->
        sites (db w') = sites (db w) /\
        site_asns (db w') = site_asns (db w))) /\
  (forall data site cnt w,
     exists cnt' w',
       MigrateSiteContactsScript.iteration data site cnt w = Returned cnt' w' /\
       sites (db w') =
       (if MigrateSiteContactsScript.clear_site_fields data &&
           negb (contact_iteration_skips site (db w))
        then sites (Site_update_contact_fields_empty (Site.pk site) (db w))
        else sites (db w)) /\
       snd cnt' = (if contact_iteration_skips site (db w)
                   then snd cnt else S (snd cnt))) /\
  (forall data site cnt w,
     Site.asn site <> None ->
     exists cnt' w',
       MigrateSiteASNsScript.iteration data site cnt w = Returned cnt' w' /\
       sites (db w') =
       (if MigrateSiteASNsScript.clear_site_field data &&
           negb (asn_iteration_skips site (db w))
        then sites (Site_update_asn_none (Site.pk site) (db w))
        else sites (db w)) /\
       snd cnt' = (if asn_iteration_skips site (db w)
                   then snd cnt else S (snd cnt))).
Proof.
  split; [|split; [|split; [apply contact_iteration_sites
                           |apply asn_iteration_sites]]].
  - intros data site [cc ac] w Hin Hne.
    unfold contact_iteration_skips.
    destruct (Contact_filter_first
                (MigrateSiteContactsScript._get_contact_data site) (db w))
      as [c|] eqn:Hf.
    + destruct (Site_contacts_exists site c (db w)) eqn:Hx.
      * eexists _, _. split.
        { apply (contact_iteration_skip data site cc ac w c Hf Hx). }
        simpl. repeat split; auto; try tauto.
      * eexists _, _. split.
        { rewrite (contact_iteration_link data site cc ac w c Hf Hx).
          apply contact_assign_eq. }
        simpl.
        destruct (contact_assign_db_clears data site c (db w) Hin Hne)
          as [H1 H2].
        repeat split; try apply H1; auto; discriminate.
    + eexists _, _. split.
      { rewrite (contact_iteration_create data site cc ac w Hf).
        apply contact_assign_eq. }
      simpl.
      set (c := Contact_new (next_contact_pk (db w))
                  (MigrateSiteContactsScript._get_contact_data site)).
      destruct (contact_assign_db_clears data site c
                  (Contact_insert c (db w)) Hin Hne) as [H1 H2].
      repeat split; try apply H1; auto; discriminate.
  - intros data site [cc ac] w Hin Hne Hwf.
    apply asn_pks_allocated_iff in Hwf as [Hwa Hwl].
    unfold asn_iteration_skips.
    destruct (ASN_filter_first (Site.asn site) (db w)) as [a|] eqn:Hf.
    + destruct (ASN_in a (Site_asns_all site (db w))) eqn:Hx.
      * eexists _, _. split.
        { apply (asn_iteration_skip data site cc ac w a Hf Hx). }
        simpl. repeat split; auto; try tauto.
      * eexists _, _. split.
        { rewrite (asn_iteration_link data site cc ac w a Hf Hx).
          apply asn_assign_eq. }
        simpl.
        assert (Hl : linked (Site.pk site) (ASN.pk a) (db w) = false).
        { destruct (linked (Site.pk site) (ASN.pk a) (db w)) eqn:E;
            [|reflexivity].
          assert (ASN_in a (Site_asns_all site (db w)) = true);
            [|congruence].
          apply ASN_in_all_iff. exists a. repeat split; auto.
          apply (ASN_filter_first_in _ _ _ Hf). }
        destruct (asn_assign_db_clears data site a (db w) Hin Hne Hl)
          as [H1 H2].
        repeat split; try apply H1; auto; discriminate.
    + destruct (Site.asn site) as [n|] eqn:Hn; [|congruence].
      eexists _, _. split.
      { rewrite (asn_iteration_create data site cc ac w n Hn).
        - apply asn_assign_eq.
        - rewrite Hn. exact Hf. }
      simpl.
      set (a := {| ASN.pk := next_asn_pk (db w); ASN.asn := n;
                   ASN.rir := MigrateSiteASNsScript.asn_rir data |}).
      assert (Hl : linked (Site.pk site) (ASN.pk a) (ASN_insert a (db w))
                   = false).
      { destruct (linked (Site.pk site) (ASN.pk a) (ASN_insert a (db w)))
          eqn:E; [|reflexivity].
        apply linked_true in E. simpl in E. specialize (Hwl _ E).
        simpl in Hwl. lia. }
      assert (Hne' : Site.asn site <> None) by congruence.
      destruct (asn_assign_db_clears data site a (ASN_insert a (db w))
                  Hin Hne' Hl) as [H1 H2].
      repeat split; try apply H1; auto; discriminate.
Qed.

(** Site A on the sample database without contacts and ASNs, the clear
    flag set. *)
Lemma legacy_fields_cleared_iff_flag_and_link_witness :
  let w := {| db := Sample.fresh_db; log := [] |} in
  (exists cnt' w',
     MigrateSiteContactsScript.iteration
       Sample.contacts_data Sample.site_a (0, 0) w = Returned cnt' w' /\
     (sites (db w') <> sites (db w) <->
      MigrateSiteContactsScript.clear_site_fields Sample.contacts_data = true /\
      contact_assignments (db w') <> contact_assignments (db w)) /\
     (sites (db w') = sites (db w) \/
      sites (db w') =
      sites (Site_update_contact_fields_empty (Site.pk Sample.site_a) (db w))) /\
     (contact_iteration_skips Sample.site_a (db w) = true ->
      sites (db w') = sites (db w) /\
      contact_assignments (db w') = contact_assignments (db w))) /\
  (exists cnt' w',
     MigrateSiteASNsScript.iteration
       Sample.asns_data Sample.site_a (0, 0) w = Returned cnt' w' /\
     (sites (db w') <> sites (db w) <->
      MigrateSiteASNsScript.clear_site_field Sample.asns_data = true /\
      site_asns (db w') <> site_asns (db w)) /\
     (sites (db w') = sites (db w) \/
      sites (db w') = sites (Site_update_asn_none (Site.pk Sample.site_a) (db w))) /\
     (asn_iteration_skips Sample.site_a (db w) = true ->
      sites (db w') = sites (db w) /\
      site_asns (db w') = site_asns (db w))).
Proof.
  split.
  - apply (proj1 legacy_fields_cleared_iff_flag_and_link
                 Sample.contacts_data Sample.site_a (0, 0)
                 {| db := Sample.fresh_db; log := [] |}).
    + simpl. auto.
    + discriminate.
  - apply (proj1 (proj2 legacy_fields_cleared_iff_flag_and_link)
                 Sample.asns_data Sample.site_a (0, 0)
                 {| db := Sample.fresh_db; log := [] |}).
    + simpl. auto.
    + discriminate.
    + reflexivity.
Defined.

(** C9.  When the contact script clears the legacy fields for a site (the
    flag is set and the iteration does not skip), every site row with that
    site's primary key gets [contact_name], [contact_phone] and
    [contact_email] set to the empty string, whatever they held, and keeps
    its other columns; every other site row is left as it was. *)
Theorem clearing_empties_three_fields_of_that_site data site cnt w :
  MigrateSiteContactsScript.clear_site_fields data = true ->
  contact_iteration_skips site (db w) = false ->
  exists cnt' w',
    MigrateSiteContactsScript.iteration data site cnt w = Returned cnt' w' /\
    Forall2 (fun s s' =>
               if (Site.pk s =? Site.pk site)%Z
               then Site.contact_name s' = [] /\
                    Site.contact_phone s' = [] /\
                    Site.contact_email s' = [] /\
                    Site.pk s' = Site.pk s /\
                    Site.name s' = Site.name s /\
                    Site.asn s' = Site.asn s /\
                    Site.other s' = Site.other s
               else s' = s)
            (sites (db w)) (sites (db w')) /\
    sites (db w') =
    map (fun s => if (Site.pk s =? Site.pk site)%Z
                  then contact_fields_emptied s else s) (sites (db w)).
Proof.
  intros Hflag Hskip. destruct cnt as [cc ac].
  assert (K : forall c d,
             sites d = sites (db w) ->
             sites (contact_assign_db data site c d) =
             map (fun s => if (Site.pk s =? Site.pk site)%Z
                           then contact_fields_emptied s else s)
                 (sites (db w))).
  { intros c d E. rewrite contact_assign_db_sites, Hflag.
    rewrite Site_update_contact_fields_empty_sites, E. reflexivity. }
  assert (F : forall l,
             Forall2 (fun s s' =>
               if (Site.pk s =? Site.pk site)%Z
               then Site.contact_name s' = [] /\
                    Site.contact_phone s' = [] /\
                    Site.contact_email s' = [] /\
                    Site.pk s' = Site.pk s /\
                    Site.name s' = Site.name s /\
                    Site.asn s' = Site.asn s /\
                    Site.other s' = Site.other s
               else s' = s)
               l (map (fun s => if (Site.pk s =? Site.pk site)%Z
                                then contact_fields_emptied s else s) l)).
  { induction l as [|s l IH]; simpl; constructor; [|exact IH].
    destruct (Site.pk s =? Site.pk site)%Z; simpl; auto 10. }
  unfold contact_iteration_skips in Hskip.
  destruct (Contact_filter_first
              (MigrateSiteContactsScript._get_contact_data site) (db w))
    as [c|] eqn:Hf.
  - eexists _, _. split.
    { rewrite (contact_iteration_link data site cc ac w c Hf Hskip).
      apply contact_assign_eq. }
    simpl. rewrite (K c (db w) eq_refl). split; [apply F | reflexivity].
  - eexists _, _. split.
    { rewrite (contact_iteration_create data site cc ac w Hf).
      apply contact_assign_eq. }
    simpl. rewrite K by reflexivity. split; [apply F | reflexivity].
Qed.

Lemma clearing_empties_three_fields_of_that_site_witness :
  let w := {| db := Sample.fresh_db; log := [] |} in
  exists cnt' w',
    MigrateSiteContactsScript.iteration
      Sample.contacts_data Sample.site_a (0, 0) w = Returned cnt' w' /\
    Forall2 (fun s s' =>
               if (Site.pk s =? Site.pk Sample.site_a)%Z
               then Site.contact_name s' = [] /\
                    Site.contact_phone s' = [] /\
                    Site.contact_email s' = [] /\
                    Site.pk s' = Site.pk s /\
                    Site.name s' = Site.name s /\
                    Site.asn s' = Site.asn s /\
                    Site.other s' = Site.other s
               else s' = s)
            (sites (db w)) (sites (db w')) /\
    sites (db w') =
    map (fun s => if (Site.pk s =? Site.pk Sample.site_a)%Z
                  then contact_fields_emptied s else s) (sites (db w)).
Proof.
  apply (clearing_empties_three_fields_of_that_site
           Sample.contacts_data Sample.site_a (0, 0)
           {| db := Sample.fresh_db; log := [] |}).
  - reflexivity.
  - reflexivity.
Defined.

(* ===================================================================== *)
(** ** Stored canonical records are left alone *)
(* ===================================================================== *)

(** C10.  A run only appends to the contact table and to the ASN table:
    every row stored before is there afterwards, at its place and
    unchanged, and each appended ASN has the [asn_rir] of the run.  An
    iteration whose lookup finds a record leaves the table of canonical
    records as it was; in the ASN script its outcome does not depend on
    [asn_rir]. *)
Theorem reused_record_is_not_modified :
  (forall data commit w,
     exists cnt w' newc,
       MigrateSiteContactsScript.run data commit w = Returned cnt w' /\
       contacts (db w') = contacts (db w) ++ newc) /\
  (forall data commit w,
     exists cnt w' newa,
       MigrateSiteASNsScript.run data commit w = Returned cnt w' /\
       asns (db w') = asns (db w) ++ newa /\
       Forall (fun a => ASN.rir a = MigrateSiteASNsScript.asn_rir data) newa) /\
  (forall data site cnt w c,
     Contact_filter_first (MigrateSiteContactsScript._get_contact_data site)
                          (db w) = Some c ->
     exists cnt' w',
       MigrateSiteContactsScript.iteration data site cnt w = Returned cnt' w' /\
       contacts (db w') = contacts (db w)) /\
  (forall data site cnt w a,
     ASN_filter_first (Site.asn site) (db w) = Some a ->
     exists cnt' w',
       MigrateSiteASNsScript.iteration data site cnt w = Returned cnt' w' /\
       asns (db w') = asns (db w) /\
       forall rir,
         MigrateSiteASNsScript.iteration
           {| MigrateSiteASNsScript.asn_rir := rir;
              MigrateSiteASNsScript.clear_site_field :=
                MigrateSiteASNsScript.clear_site_field data |}
           site cnt w = Returned cnt' w').
Proof.
  split; [|split; [|split]].
  - intros data commit w.
    destruct (contact_run_invariant data commit w
      (fun _ _ d => exists newc, contacts d = contacts (db w) ++ newc))
      as (cnt & w' & E & newc & H).
    + intros pre site cnt d cnt' d' _ (newc & Ec) St.
      destruct (contact_step_tables data site cnt d cnt' d' St)
        as (nc & _ & Ec' & _).
      exists (newc ++ nc). rewrite Ec', Ec, app_assoc. reflexivity.
    + exists []. rewrite app_nil_r. reflexivity.
    + exists cnt, w', newc. auto.
  - intros data commit w.
    destruct (asn_run_invariant data commit w
      (fun _ _ d =>
         exists newa,
           asns d = asns (db w) ++ newa /\
           Forall (fun a => ASN.rir a = MigrateSiteASNsScript.asn_rir data)
                  newa))
      as (cnt & w' & E & newa & H).
    + intros pre site cnt d cnt' d' _ (newa & Ea & Hr) St.
      destruct (asn_step_tables data site cnt d cnt' d' St)
        as (na & _ & Ea' & _ & _ & Hr').
      exists (newa ++ na). rewrite Ea', Ea, app_assoc. split; [reflexivity|].
      apply Forall_app. auto.
    + exists []. rewrite app_nil_r. split; [reflexivity | constructor].
    + exists cnt, w', newa. auto.
  - intros data site [cc ac] w c Hf.
    destruct (Site_contacts_exists site c (db w)) eqn:Hx.
    + eexists _, _. split.
      { apply (contact_iteration_skip data site cc ac w c Hf Hx). }
      reflexivity.
    + eexists _, _. split.
      { rewrite (contact_iteration_link data site cc ac w c Hf Hx).
        apply contact_assign_eq. }
      simpl. apply contact_assign_db_contacts.
  - intros data site [cc ac] w a Hf.
    destruct (ASN_in a (Site_asns_all site (db w))) eqn:Hx.
    + eexists _, _. split.
      { apply (asn_iteration_skip data site cc ac w a Hf Hx). }
      split; [reflexivity|]. intros rir.
      apply (asn_iteration_skip _ site cc ac w a Hf Hx).
    + eexists _, _. split.
      { rewrite (asn_iteration_link data site cc ac w a Hf Hx).
        apply asn_assign_eq. }
      split; [simpl; apply asn_assign_db_asns|]. intros rir.
      rewrite (asn_iteration_link _ site cc ac w a Hf Hx).
      rewrite asn_assign_eq. reflexivity.
Qed.

(** The stored ASN of the samples keeps its RIR, and the iteration is the
    same under another [asn_rir]. *)
Lemma reused_record_is_not_modified_witness :
  let w := {| db := Sample.stored_db; log := [] |} in
  exists cnt' w',
    MigrateSiteASNsScript.iteration Sample.asns_data Sample.site_b (0, 0) w
    = Returned cnt' w' /\
    asns (db w') = asns (db w) /\
    forall rir,
      MigrateSiteASNsScript.iteration
        {| MigrateSiteASNsScript.asn_rir := rir;
           MigrateSiteASNsScript.clear_site_field :=
             MigrateSiteASNsScript.clear_site_field Sample.asns_data |}
        Sample.site_b (0, 0) w = Returned cnt' w'.
Proof.
  apply (proj2 (proj2 (proj2 reused_record_is_not_modified))
               Sample.asns_data Sample.site_b (0, 0)
               {| db := Sample.stored_db; log := [] |} Sample.as65001).
  reflexivity.
Defined.

(* ===================================================================== *)
(** ** Worked examples *)
(* ===================================================================== *)

(** Sites A and B on the sample database without contacts: one contact,
    with the trimmed phone and no email, and two assignments carrying the
    role and the priority of the run. *)
Example contacts_run_fresh :
  let r := MigrateSiteContactsScript.run
             Sample.contacts_data true {| db := Sample.fresh_db; log := [] |} in
  value_of r = Some (1, 2) /\
  contacts (db (world_of r)) =
  [{| Contact.pk := 1; Contact.name := u "Jane Doe";
      Contact.phone := u "555-1234"; Contact.email := [];
      Contact.other := [] |}] /\
  map assignment_pair (contact_assignments (db (world_of r))) =
  [(SiteObject 1, 1%Z); (SiteObject 2, 1%Z)] /\
  map ContactAssignment.role (contact_assignments (db (world_of r))) =
  [7%Z; 7%Z] /\
  map Site.contact_name (sites (db (world_of r))) = [[]; []].
Proof. cbv zeta. repeat split; reflexivity. Qed.

(** The same sites with their legacy ASN 65001: one ASN with the RIR of
    the run, linked to both sites. *)
Example asns_run_fresh :
  let r := MigrateSiteASNsScript.run
             Sample.asns_data true {| db := Sample.fresh_db; log := [] |} in
  value_of r = Some (1, 2) /\
  asns (db (world_of r)) =
  [{| ASN.pk := 1; ASN.asn := 65001; ASN.rir := 9 |}] /\
  site_asns (db (world_of r)) = [(1%Z, 1%Z); (2%Z, 1%Z)] /\
  map Site.asn (sites (db (world_of r))) = [None; None].
Proof. cbv zeta. repeat split; reflexivity. Qed.

(** Site A is assigned to the stored contact already: the iteration logs
    the skip and changes nothing, although the clear flag is set. *)
Example contacts_iteration_skips_site_a :
  MigrateSiteContactsScript.iteration
    Sample.contacts_data Sample.site_a (0, 0)
    {| db := Sample.stored_db; log := [] |} =
  Returned (0, 0)
           {| db := Sample.stored_db;
              log := [(Info, SkippingContact Sample.jane Sample.site_a)] |}.
Proof. reflexivity. Qed.

(** A site without a legacy ASN is never handed to the loop by [run]; the
    loop body on its own would fail on it, when the ASN is saved. *)
Example asn_iteration_on_null_asn_raises :
  value_of (MigrateSiteASNsScript.iteration
              Sample.asns_data Sample.site_c (0, 0)
              {| db := Sample.fresh_db; log := [] |}) = None.
Proof. reflexivity. Qed.

(* ===================================================================== *)
(** ** Iterations and runs with their log *)
(* ===================================================================== *)

Lemma contact_iteration_world data site cnt w :
  exists cnt' w',
    MigrateSiteContactsScript.iteration data site cnt w = Returned cnt' w' /\
    contact_step data site cnt (db w) cnt' (db w') /\
    log w' = log w ++ contact_log_entries data site (db w).
Proof.
  destruct cnt as [cc ac]. unfold contact_log_entries, contact_assign_entries.
  destruct (Contact_filter_first
              (MigrateSiteContactsScript._get_contact_data site) (db w))
    as [c|] eqn:Hf.
  - destruct (Site_contacts_exists site c (db w)) eqn:He.
    + eexists _, _. split; [|split].
      * apply contact_iteration_skip; eassumption.
      * cbn. eapply contact_step_skip; eassumption.
      * reflexivity.
    + eexists _, _. split; [|split].
      * rewrite (contact_iteration_link data site cc ac w c Hf He).
        apply contact_assign_eq.
      * cbn. eapply contact_step_link; eassumption.
      * cbn. rewrite <- app_assoc. reflexivity.
  - eexists _, _. split; [|split].
    + rewrite (contact_iteration_create data site cc ac w Hf).
      apply contact_assign_eq.
    + cbn. apply contact_step_create. assumption.
    + cbn. rewrite <- !app_assoc. reflexivity.
Qed.

Lemma asn_iteration_world data site cnt w :
  Site.asn site <> None ->
  exists cnt' w',
    MigrateSiteASNsScript.iteration data site cnt w = Returned cnt' w' /\
    asn_step data site cnt (db w) cnt' (db w') /\
    log w' = log w ++ asn_log_entries data site (db w).
Proof.
  intros Hn. destruct cnt as [cc ac].
  unfold asn_log_entries, asn_assign_entries.
  destruct (ASN_filter_first (Site.asn site) (db w)) as [a|] eqn:Hf.
  - destruct (ASN_in a (Site_asns_all site (db w))) eqn:He.
    + eexists _, _. split; [|split].
      * apply asn_iteration_skip; eassumption.
      * cbn. eapply asn_step_skip; eassumption.
      * reflexivity.
    + eexists _, _. split; [|split].
      * rewrite (asn_iteration_link data site cc ac w a Hf He).
        apply asn_assign_eq.
      * cbn. eapply asn_step_link; eassumption.
      * cbn. rewrite <- app_assoc. reflexivity.
  - destruct (Site.asn site) as [n|] eqn:Hs; [|congruence].
    eexists _, _. split; [|split].
    + rewrite (asn_iteration_create data site cc ac w n Hs).
      * apply asn_assign_eq.
      * rewrite Hs. assumption.
    + cbn. apply asn_step_create; [assumption|]. rewrite Hs. assumption.
    + cbn. rewrite <- !app_assoc. reflexivity.
Qed.

(** Run rules with the log: an invariant on the visited sites, the
    counters and the world. *)
Lemma contact_run_invariant_world data commit w
      (I : list Site.t -> nat * nat -> World -> Prop) :
  let selected := Site_exclude_contact_name_empty (db w) in
  (forall pre site cnt w0 cnt' w',
     In site selected -> I pre cnt w0 ->
     contact_step data site cnt (db w0) cnt' (db w') ->
     log w' = log w0 ++ contact_log_entries data site (db w0) ->
     I (pre ++ [site]) cnt' w') ->
  selected <> [] ->
  I [] (0, 0)
    {| db := db w;
       log := log w ++ [(Info, FoundContactSites (List.length selected))] |} ->
  exists cnt w',
    MigrateSiteContactsScript.run data commit w =
    Returned cnt
             {| db := db w';
                log := log w' ++ [(Success, CreatedContacts (fst cnt));
                                  (Success, CreatedAssignments (snd cnt))] |} /\
    I selected cnt w'.
Proof.
  intros selected Hstep Hne H0. rewrite contact_run_unfold. fold selected.
  destruct selected as [|s l] eqn:Hsel; [congruence|].
  destruct (for_each_invariant
              (fun x => In x (s :: l)) I
              (MigrateSiteContactsScript.iteration data))
    with (xs := s :: l) (pre := @nil Site.t) (acc := (0, 0))
         (w := {| db := db w;
                  log := log w ++
                         [(Info, FoundContactSites (List.length (s :: l)))] |})
    as (cnt & w' & E & HI).
  - intros pre x acc w0 Hx HI0.
    destruct (contact_iteration_world data x acc w0) as (c' & w' & E & St & L).
    exists c', w'. split; [exact E|]. eapply Hstep; eassumption.
  - apply Forall_forall. trivial.
  - exact H0.
  - cbv beta iota zeta. rewrite E. exists cnt, w'. split; [|exact HI].
    rewrite <- app_assoc. reflexivity.
Qed.

Lemma asn_run_invariant_world data commit w
      (I : list Site.t -> nat * nat -> World -> Prop) :
  let selected := Site_filter_asn_notnull (db w) in
  (forall pre site cnt w0 cnt' w',
     In site selected -> I pre cnt w0 ->
     asn_step data site cnt (db w0) cnt' (db w') ->
     log w' = log w0 ++ asn_log_entries data site (db w0) ->
     I (pre ++ [site]) cnt' w') ->
  selected <> [] ->
  I [] (0, 0)
    {| db := db w;
       log := log w ++ [(Info, FoundASNSites (List.length selected))] |} ->
  exists cnt w',
    MigrateSiteASNsScript.run data commit w =
    Returned cnt
             {| db := db w';
                log := log w' ++ [(Success, CreatedASNs (fst cnt));
                                  (Success, AssignedASNs (snd cnt))] |} /\
    I selected cnt w'.
Proof.
  intros selected Hstep Hne H0. rewrite asn_run_unfold.
  pose proof (Site_filter_asn_notnull_Forall (db w)) as Hall.
  fold selected in Hall |- *.
  destruct selected as [|s l] eqn:Hsel; [congruence|].
  destruct (for_each_invariant
              (fun x => In x (s :: l) /\ Site.asn x <> None) I
              (MigrateSiteASNsScript.iteration data))
    with (xs := s :: l) (pre := @nil Site.t) (acc := (0, 0))
         (w := {| db := db w;
                  log := log w ++
                         [(Info, FoundASNSites (List.length (s :: l)))] |})
    as (cnt & w' & E & HI).
  - intros pre x acc w0 [Hx Hn] HI0.
    destruct (asn_iteration_world data x acc w0 Hn) as (c' & w' & E & St & L).
    exists c', w'. split; [exact E|]. eapply Hstep; eassumption.
  - apply Forall_forall. intros x Hx. split; [exact Hx|].
    rewrite Forall_forall in Hall. auto.
  - exact H0.
  - cbv beta iota zeta. rewrite E. exists cnt, w'. split; [|exact HI].
    rewrite <- app_assoc. reflexivity.
Qed.

(* ===================================================================== *)
(** ** Every selected site ends up linked *)
(* ===================================================================== *)

Lemma Site_contacts_exists_row_iff site c d :
  Site_contacts_exists site c d = true <->
  exists a, In a (contact_assignments d) /\
            ContactAssignment.object a = SiteObject (Site.pk site) /\
            ContactAssignment.contact a = Contact.pk c.
Proof.
  unfold Site_contacts_exists. rewrite existsb_exists. split.
  - intros (a & Hin & H). exists a. split; [exact Hin|].
    apply andb_true_iff in H as [H1 H2]. apply Z.eqb_eq in H2.
    destruct (ContactAssignment.object a) as [pk|]; [|discriminate].
    apply Z.eqb_eq in H1. subst. auto.
  - intros (a & Hin & Ho & Hc). exists a. split; [exact Hin|].
    rewrite Ho, Hc, !Z.eqb_refl. reflexivity.
Qed.

(** X1.  After a run, for every site the selector returned, the lookup
    for the site's dict (its legacy ASN) finds a stored record that
    matches it, and a link between the site and that record is stored. *)
Theorem every_selected_site_ends_linked :
  (forall data commit w,
     exists cnt w',
       MigrateSiteContactsScript.run data commit w = Returned cnt w' /\
       forall s, In s (Site_exclude_contact_name_empty (db w)) ->
         exists c a,
           Contact_filter_first
             (MigrateSiteContactsScript._get_contact_data s) (db w') = Some c /\
           In c (contacts (db w')) /\
           Contact.name c = strip (Site.contact_name s) /\
           In a (contact_assignments (db w')) /\
           ContactAssignment.object a = SiteObject (Site.pk s) /\
           ContactAssignment.contact a = Contact.pk c) /\
  (forall data commit w,
     exists cnt w',
       MigrateSiteASNsScript.run data commit w = Returned cnt w' /\
       forall s, In s (Site_filter_asn_notnull (db w)) ->
         exists a,
           ASN_filter_first (Site.asn s) (db w') = Some a /\
           In a (asns (db w')) /\
           Site.asn s = Some (ASN.asn a) /\
           In (Site.pk s, ASN.pk a) (site_asns (db w'))).
Proof.
  split; intros data commit w.
  - destruct (contact_run_settles data commit w) as (cnt & w' & E & HS & _).
    exists cnt, w'. split; [exact E|]. intros s Hs.
    specialize (HS s Hs). unfold contact_iteration_skips in HS.
    destruct (Contact_filter_first _ (db w')) as [c|] eqn:Hf; [|discriminate].
    apply Site_contacts_exists_row_iff in HS as (a & Hin & Ho & Hc).
    destruct (Contact_filter_first_matches _ _ _ Hf) as [Hc1 Hm].
    apply Contact_matches_iff in Hm as [Hname _].
    exists c, a. repeat split; auto.
  - destruct (asn_run_settles data commit w) as (cnt & w' & E & HS & _).
    exists cnt, w'. split; [exact E|]. intros s Hs.
    specialize (HS s Hs). unfold asn_iteration_skips in HS.
    destruct (ASN_filter_first _ (db w')) as [a|] eqn:Hf; [|discriminate].
    apply ASN_in_all_iff in HS as (r & Hr & Hl & Epk).
    destruct (ASN_filter_first_in _ _ _ Hf) as [Hin Hn].
    exists a. repeat split; auto.
    rewrite <- Epk. apply linked_true. exact Hl.
Qed.

(* ===================================================================== *)
(** ** Whitespace around the legacy contact fields *)
(* ===================================================================== *)

Lemma strip_padded a b : padded a b -> strip b = strip a.
Proof.
  intros (l & r & -> & Hl & Hr).
  apply (trimmed_of_unique (l ++ a ++ r)); [apply strip_trimmed|].
  destruct (strip_trimmed a) as ((l' & r' & Ea & Hl' & Hr') & Hh & Ht).
  split; [|split; assumption].
  exists (l ++ l'), (r' ++ r). split; [|split].
  - rewrite Ea at 1. rewrite <- !app_assoc. reflexivity.
  - apply Forall_app. auto.
  - apply Forall_app. auto.
Qed.

Lemma padded_strip a : padded (strip a) a.
Proof. destruct (strip_trimmed a) as [H _]. exact H. Qed.

(** X9.  Two sites whose legacy contact fields differ only by leading and
    trailing whitespace derive the same dict, so the lookup treats them
    alike; trimming a trimmed string changes nothing, and a phone or email
    in the dict is never empty and has no whitespace at either end. *)
Theorem padded_sites_same_contact_data s s' :
  padded (Site.contact_name s) (Site.contact_name s') ->
  padded (Site.contact_phone s) (Site.contact_phone s') ->
  padded (Site.contact_email s) (Site.contact_email s') ->
  MigrateSiteContactsScript._get_contact_data s' =
  MigrateSiteContactsScript._get_contact_data s /\
  (forall d, Contact_filter_first
               (MigrateSiteContactsScript._get_contact_data s') d =
             Contact_filter_first
               (MigrateSiteContactsScript._get_contact_data s) d) /\
  strip (cd_name (MigrateSiteContactsScript._get_contact_data s)) =
  cd_name (MigrateSiteContactsScript._get_contact_data s) /\
  (forall phone,
     cd_phone (MigrateSiteContactsScript._get_contact_data s) = Some phone ->
     phone <> [] /\ strip phone = phone) /\
  (forall email,
     cd_email (MigrateSiteContactsScript._get_contact_data s) = Some email ->
     email <> [] /\ strip email = email).
Proof.
  intros Hn Hp He.
  assert (E : MigrateSiteContactsScript._get_contact_data s' =
              MigrateSiteContactsScript._get_contact_data s).
  { unfold MigrateSiteContactsScript._get_contact_data.
    rewrite (strip_padded _ _ Hn), (strip_padded _ _ Hp),
      (strip_padded _ _ He). reflexivity. }
  assert (Idem : forall x, strip (strip x) = strip x).
  { intros x. symmetry. apply strip_padded, padded_strip. }
  split; [exact E|]. split; [intros d; rewrite E; reflexivity|].
  unfold MigrateSiteContactsScript._get_contact_data. simpl.
  split; [apply Idem|]. split.
  - intros phone H.
    destruct (strip (Site.contact_phone s)) as [|x t] eqn:Hs;
      simpl in H; [discriminate|].
    injection H as <-. split; [discriminate|]. rewrite <- Hs. apply Idem.
  - intros email H.
    destruct (strip (Site.contact_email s)) as [|x t] eqn:Hs;
      simpl in H; [discriminate|].
    injection H as <-. split; [discriminate|]. rewrite <- Hs. apply Idem.
Qed.

(** Site B of the samples is site A's contact data with other padding. *)
Lemma padded_sites_same_contact_data_witness :
  MigrateSiteContactsScript._get_contact_data Sample.site_b =
  MigrateSiteContactsScript._get_contact_data
    (Site.mk 5 [] (u "Jane Doe") (u "555-1234") [] None []).
Proof.
  apply (padded_sites_same_contact_data
           (Site.mk 5 [] (u "Jane Doe") (u "555-1234") [] None [])
           Sample.site_b).
  - exists (u " "), []. simpl. repeat split; repeat constructor.
  - exists [], []. simpl. repeat split; repeat constructor.
  - exists (u "  "), []. simpl. repeat split; repeat constructor.
Defined.

(* ===================================================================== *)
(** ** Exceptions *)
(* ===================================================================== *)



(* ===================================================================== *)
(** ** What each script leaves alone *)
(* ===================================================================== *)

Lemma contact_fields_only_changed_refl s : contact_fields_only_changed s s.
Proof. unfold contact_fields_only_changed. auto 10. Qed.

Lemma contact_fields_only_changed_trans s1 s2 s3 :
  contact_fields_only_changed s1 s2 -> contact_fields_only_changed s2 s3 ->
  contact_fields_only_changed s1 s3.
Proof.
  unfold contact_fields_only_changed.
  intros (P1 & N1 & A1 & O1 & C1) (P2 & N2 & A2 & O2 & C2).
  repeat split; try congruence.
  destruct C2 as [-> | C2]; [exact C1 | right; exact C2].
Qed.

Lemma asn_field_only_changed_refl s : asn_field_only_changed s s.
Proof. unfold asn_field_only_changed. auto 10. Qed.

Lemma asn_field_only_changed_trans s1 s2 s3 :
  asn_field_only_changed s1 s2 -> asn_field_only_changed s2 s3 ->
  asn_field_only_changed s1 s3.
Proof.
  unfold asn_field_only_changed.
  intros (P1 & N1 & A1 & B1 & E1 & O1 & C1) (P2 & N2 & A2 & B2 & E2 & O2 & C2).
  repeat split; try congruence.
  destruct C2 as [-> | C2]; [exact C1 | right; exact C2].
Qed.

Lemma contact_step_frame data site cnt d cnt' d' :
  contact_step data site cnt d cnt' d' ->
  asns d' = asns d /\ site_asns d' = site_asns d /\
  next_asn_pk d' = next_asn_pk d /\
  Forall2 contact_fields_only_changed (sites d) (sites d').
Proof.
  assert (K : forall c d0,
             Forall2 contact_fields_only_changed
                     (sites d0) (sites (contact_assign_db data site c d0))).
  { intros c d0. rewrite contact_assign_db_sites.
    destruct (MigrateSiteContactsScript.clear_site_fields data).
    - rewrite Site_update_contact_fields_empty_sites.
      induction (sites d0) as [|s l IH]; simpl; constructor; [|exact IH].
      destruct (Site.pk s =? Site.pk site)%Z.
      + unfold contact_fields_only_changed. simpl. auto 10.
      + apply contact_fields_only_changed_refl.
    - apply Forall2_diag. apply contact_fields_only_changed_refl. }
  intros [cc ac d0 c Hf He | cc ac d0 c Hf He | cc ac d0 Hf c].
  - repeat split; auto. apply Forall2_diag.
    apply contact_fields_only_changed_refl.
  - destruct (contact_assign_db_asns data site c d0) as (A & B & C).
    repeat split; auto.
  - destruct (contact_assign_db_asns data site c (Contact_insert c d0))
      as (A & B & C).
    repeat split; auto. apply (K c (Contact_insert c d0)).
Qed.

Lemma asn_step_frame data site cnt d cnt' d' :
  asn_step data site cnt d cnt' d' ->
  contacts d' = contacts d /\
  contact_assignments d' = contact_assignments d /\
  next_contact_pk d' = next_contact_pk d /\
  next_assignment_pk d' = next_assignment_pk d /\
  Forall2 asn_field_only_changed (sites d) (sites d').
Proof.
  assert (K : forall a d0,
             Forall2 asn_field_only_changed
                     (sites d0) (sites (asn_assign_db data site a d0))).
  { intros a d0. rewrite asn_assign_db_sites.
    destruct (MigrateSiteASNsScript.clear_site_field data).
    - unfold Site_update_asn_none, with_sites. simpl.
      induction (sites d0) as [|s l IH]; simpl; constructor; [|exact IH].
      destruct (Site.pk s =? Site.pk site)%Z.
      + unfold asn_field_only_changed. simpl. auto 10.
      + apply asn_field_only_changed_refl.
    - apply Forall2_diag. apply asn_field_only_changed_refl. }
  intros [cc ac d0 a Hf He | cc ac d0 a Hf He | cc ac d0 n Hn Hf a].
  - repeat split; auto. apply Forall2_diag.
    apply asn_field_only_changed_refl.
  - destruct (asn_assign_db_contacts data site a d0) as (A & B & C & D).
    repeat split; auto.
  - destruct (asn_assign_db_contacts data site a (ASN_insert a d0))
      as (A & B & C & D).
    repeat split; auto. apply (K a (ASN_insert a d0)).
Qed.

(** X3.  A run of the contact script leaves the ASN table, the site-ASN
    table and the ASN key sequence as they were, keeps the number and the
    order of the site rows, and changes nothing of a site row but its
    three legacy contact fields, which it either keeps or empties
    together.  A run of the ASN script leaves the contact table, the
    assignment table and their key sequences as they were, and changes
    nothing of a site row but its legacy ASN, which it keeps or nulls. *)
Theorem scripts_leave_the_rest_alone :
  (forall data commit w,
     exists cnt w',
       MigrateSiteContactsScript.run data commit w = Returned cnt w' /\
       asns (db w') = asns (db w) /\
       site_asns (db w') = site_asns (db w) /\
       next_asn_pk (db w') = next_asn_pk (db w) /\
       Forall2 contact_fields_only_changed (sites (db w)) (sites (db w'))) /\
  (forall data commit w,
     exists cnt w',
       MigrateSiteASNsScript.run data commit w = Returned cnt w' /\
       contacts (db w') = contacts (db w) /\
       contact_assignments (db w') = contact_assignments (db w) /\
       next_contact_pk (db w') = next_contact_pk (db w) /\
       next_assignment_pk (db w') = next_assignment_pk (db w) /\
       Forall2 asn_field_only_changed (sites (db w)) (sites (db w'))).
Proof.
  split; intros data commit w.
  - destruct (contact_run_invariant data commit w
      (fun _ _ d =>
         asns d = asns (db w) /\ site_asns d = site_asns (db w) /\
         next_asn_pk d = next_asn_pk (db w) /\
         Forall2 contact_fields_only_changed (sites (db w)) (sites d)))
      as (cnt & w' & E & H).
    + intros pre site cnt d cnt' d' _ (A & B & C & F) St.
      destruct (contact_step_frame data site cnt d cnt' d' St)
        as (A' & B' & C' & F').
      repeat split; try congruence.
      eapply Forall2_compose; [| exact F | exact F'].
      apply contact_fields_only_changed_trans.
    + repeat split; auto. apply Forall2_diag.
      apply contact_fields_only_changed_refl.
    + exists cnt, w'. tauto.
  - destruct (asn_run_invariant data commit w
      (fun _ _ d =>
         contacts d = contacts (db w) /\
         contact_assignments d = contact_assignments (db w) /\
         next_contact_pk d = next_contact_pk (db w) /\
         next_assignment_pk d = next_assignment_pk (db w) /\
         Forall2 asn_field_only_changed (sites (db w)) (sites d)))
      as (cnt & w' & E & H).
    + intros pre site cnt d cnt' d' _ (A & B & C & D & F) St.
      destruct (asn_step_frame data site cnt d cnt' d' St)
        as (A' & B' & C' & D' & F').
      repeat split; try congruence.
      eapply Forall2_compose; [| exact F | exact F'].
      apply asn_field_only_changed_trans.
    + repeat split; auto. apply Forall2_diag.
      apply asn_field_only_changed_refl.
    + exists cnt, w'. tauto.
Qed.

(* ===================================================================== *)
(** ** The rows a run appends *)
(* ===================================================================== *)

Lemma map_seq_shift {A} (f : nat -> A) n m a :
  map f (seq (a + n) m) = map (fun i => f (n + i)) (seq a m).
Proof.
  revert a. induction m as [|m IH]; intros a; simpl; [reflexivity|].
  rewrite (Nat.add_comm n a). f_equal. apply (IH (S a)).
Qed.

Lemma keys_from_app first n m :
  keys_from first (n + m) =
  keys_from first n ++ keys_from (first + Z.of_nat n) m.
Proof.
  unfold keys_from. rewrite seq_app, map_app. f_equal.
  rewrite (map_seq_shift _ n m 0). apply map_ext. intros i. lia.
Qed.

Lemma keys_from_one first : keys_from first 1 = [first].
Proof. unfold keys_from. simpl. f_equal. lia. Qed.

Lemma contact_assign_db_next_assignment_pk data site c d :
  next_assignment_pk (contact_assign_db data site c d) =
  (next_assignment_pk d + 1)%Z.
Proof. by_clear_flag. Qed.

(** The rows a step of the contact loop appends, with their keys. *)
Lemma contact_step_rows data site cnt d cnt' d' :
  contact_step data site cnt d cnt' d' ->
  let attrs := MigrateSiteContactsScript._get_contact_data site in
  exists newc newa,
    contacts d' = contacts d ++ newc /\
    contact_assignments d' = contact_assignments d ++ newa /\
    fst cnt' = fst cnt + List.length newc /\
    snd cnt' = snd cnt + List.length newa /\
    map Contact.pk newc = keys_from (next_contact_pk d) (List.length newc) /\
    next_contact_pk d' = (next_contact_pk d + Z.of_nat (List.length newc))%Z /\
    map ContactAssignment.pk newa =
    keys_from (next_assignment_pk d) (List.length newa) /\
    next_assignment_pk d' =
    (next_assignment_pk d + Z.of_nat (List.length newa))%Z /\
    Forall (fun c => c = Contact_new (Contact.pk c) attrs) newc /\
    Forall (fun a =>
              ContactAssignment.role a =
              MigrateSiteContactsScript.contact_role data /\
              ContactAssignment.priority a =
              MigrateSiteContactsScript.contact_priority data /\
              ContactAssignment.object a = SiteObject (Site.pk site) /\
              exists c, In c (contacts d') /\
                        Contact_matches attrs c = true /\
                        ContactAssignment.contact a = Contact.pk c) newa.
Proof.
  intros [cc ac d0 c Hf He | cc ac d0 c Hf He | cc ac d0 Hf c] attrs.
  - exists [], []. rewrite !app_nil_r. simpl.
    repeat split; auto; try lia; constructor.
  - exists [], [assignment_row data site c d0].
    rewrite contact_assign_db_contacts, contact_assign_db_assignments,
      contact_assign_db_next_contact_pk,
      contact_assign_db_next_assignment_pk, app_nil_r. simpl.
    rewrite keys_from_one.
    repeat split; auto; try lia; repeat constructor.
    exists c. destruct (Contact_filter_first_matches _ _ _ Hf). auto.
  - exists [c], [assignment_row data site c (Contact_insert c d0)].
    rewrite contact_assign_db_contacts, contact_assign_db_assignments,
      contact_assign_db_next_contact_pk,
      contact_assign_db_next_assignment_pk. simpl.
    rewrite !keys_from_one.
    repeat split; auto; try lia; repeat constructor.
    exists c. repeat split.
    + apply in_or_app. right. left. reflexivity.
    + apply Contact_matches_new.
Qed.

(** The rows a run of the contact script appends. *)
Lemma contact_run_rows data commit w :
  let selected := Site_exclude_contact_name_empty (db w) in
  exists cnt w' newc newa,
    MigrateSiteContactsScript.run data commit w = Returned cnt w' /\
    contacts (db w') = contacts (db w) ++ newc /\
    contact_assignments (db w') = contact_assignments (db w) ++ newa /\
    cnt = (List.length newc, List.length newa) /\
    map Contact.pk newc =
    keys_from (next_contact_pk (db w)) (List.length newc) /\
    next_contact_pk (db w') =
    (next_contact_pk (db w) + Z.of_nat (List.length newc))%Z /\
    map ContactAssignment.pk newa =
    keys_from (next_assignment_pk (db w)) (List.length newa) /\
    next_assignment_pk (db w') =
    (next_assignment_pk (db w) + Z.of_nat (List.length newa))%Z /\
    Forall (fun c =>
              exists s, In s selected /\
                c = Contact_new (Contact.pk c)
                                (MigrateSiteContactsScript._get_contact_data s))
           newc /\
    Forall (fun a =>
              ContactAssignment.role a =
              MigrateSiteContactsScript.contact_role data /\
              ContactAssignment.priority a =
              MigrateSiteContactsScript.contact_priority data /\
              exists s c,
                In s selected /\ In c (contacts (db w')) /\
                Contact_matches
                  (MigrateSiteContactsScript._get_contact_data s) c = true /\
                ContactAssignment.object a = SiteObject (Site.pk s) /\
                ContactAssignment.contact a = Contact.pk c) newa.
Proof.
  intros selected.
  destruct (contact_run_invariant data commit w
    (fun _ cnt d =>
       exists newc newa,
         contacts d = contacts (db w) ++ newc /\
         contact_assignments d = contact_assignments (db w) ++ newa /\
         cnt = (List.length newc, List.length newa) /\
         map Contact.pk newc =
         keys_from (next_contact_pk (db w)) (List.length newc) /\
         next_contact_pk d =
         (next_contact_pk (db w) + Z.of_nat (List.length newc))%Z /\
         map ContactAssignment.pk newa =
         keys_from (next_assignment_pk (db w)) (List.length newa) /\
         next_assignment_pk d =
         (next_assignment_pk (db w) + Z.of_nat (List.length newa))%Z /\
         Forall (fun c =>
                   exists s, In s selected /\
                     c = Contact_new
                           (Contact.pk c)
                           (MigrateSiteContactsScript._get_contact_data s))
                newc /\
         Forall (fun a =>
                   ContactAssignment.role a =
                   MigrateSiteContactsScript.contact_role data /\
                   ContactAssignment.priority a =
                   MigrateSiteContactsScript.contact_priority data /\
                   exists s c,
                     In s selected /\ In c (contacts d) /\
                     Contact_matches
                       (MigrateSiteContactsScript._get_contact_data s) c
                     = true /\
                     ContactAssignment.object a = SiteObject (Site.pk s) /\
                     ContactAssignment.contact a = Contact.pk c) newa))
    as (cnt & w' & E & newc & newa & H).
  - intros pre site [cc ac] d cnt' d' Hsel
           (newc & newa & Ec & Ea & Ecnt & Kc & Nc & Ka & Na & Fc & Fa) St.
    injection Ecnt as -> ->.
    destruct (contact_step_rows data site _ d cnt' d' St)
      as (nc & na & Ec' & Ea' & Hc & Ha & Kc' & Nc' & Ka' & Na' & Fc' & Fa').
    simpl in Hc, Ha.
    exists (newc ++ nc), (newa ++ na).
    split; [rewrite Ec', Ec, app_assoc; reflexivity|].
    split; [rewrite Ea', Ea, app_assoc; reflexivity|].
    split; [destruct cnt' as [a b]; simpl in *; rewrite !length_app;
            f_equal; lia|].
    split; [rewrite map_app, length_app, keys_from_app, Kc, Kc', Nc;
            reflexivity|].
    split; [rewrite Nc', Nc, length_app, Nat2Z.inj_add; lia|].
    split; [rewrite map_app, length_app, keys_from_app, Ka, Ka', Na;
            reflexivity|].
    split; [rewrite Na', Na, length_app, Nat2Z.inj_add; lia|].
    split.
    + apply Forall_app. split; [exact Fc|].
      eapply Forall_impl; [|exact Fc']. intros c Hc0. exists site. auto.
    + apply Forall_app. split.
      * eapply Forall_impl; [|exact Fa].
        intros a (Hr & Hp & s & c & Hs & Hin & Hm & Ho & Hk).
        repeat split; auto. exists s, c. repeat split; auto.
        rewrite Ec'. apply in_or_app. auto.
      * eapply Forall_impl; [|exact Fa'].
        intros a (Hr & Hp & Ho & c & Hin & Hm & Hk).
        repeat split; auto. exists site, c. repeat split; auto.
  - exists [], []. rewrite !app_nil_r. simpl.
    repeat split; auto; try lia; constructor.
  - exists cnt, w', newc, newa. exact (conj E H).
Qed.

(** The rows a step of the ASN loop appends, with their keys. *)
Lemma asn_step_rows data site cnt d cnt' d' :
  asn_step data site cnt d cnt' d' ->
  exists newa newl,
    asns d' = asns d ++ newa /\
    site_asns d' = site_asns d ++ newl /\
    fst cnt' = fst cnt + List.length newa /\
    map ASN.pk newa = keys_from (next_asn_pk d) (List.length newa) /\
    next_asn_pk d' = (next_asn_pk d + Z.of_nat (List.length newa))%Z /\
    Forall (fun a => ASN.rir a = MigrateSiteASNsScript.asn_rir data /\
                     Site.asn site = Some (ASN.asn a)) newa /\
    Forall (fun p => fst p = Site.pk site /\
                     exists a, In a (asns d') /\
                               Site.asn site = Some (ASN.asn a) /\
                               snd p = ASN.pk a) newl.
Proof.
  assert (K : forall a d0,
             In a (asns d0) -> Site.asn site = Some (ASN.asn a) ->
             exists newl,
               site_asns (asn_assign_db data site a d0) = site_asns d0 ++ newl /\
               Forall (fun p => fst p = Site.pk site /\
                                exists a', In a' (asns d0) /\
                                           Site.asn site = Some (ASN.asn a') /\
                                           snd p = ASN.pk a') newl).
  { intros a d0 Hin Hn. rewrite asn_assign_db_site_asns.
    destruct (linked (Site.pk site) (ASN.pk a) d0).
    - exists []. rewrite app_nil_r. split; [reflexivity | constructor].
    - exists [(Site.pk site, ASN.pk a)]. split; [reflexivity|].
      repeat constructor. exists a. auto. }
  intros [cc ac d0 a Hf He | cc ac d0 a Hf He | cc ac d0 n Hn Hf a].
  - exists [], []. rewrite !app_nil_r. simpl.
    repeat split; auto; try lia; constructor.
  - destruct (ASN_filter_first_in _ _ _ Hf) as [Hin Hsome].
    destruct (K a d0 Hin Hsome) as (newl & El & Fl).
    exists [], newl.
    rewrite asn_assign_db_asns, asn_assign_db_next_asn_pk, app_nil_r. simpl.
    repeat split; auto; try lia.
  - assert (Hin : In a (asns (ASN_insert a d0))).
    { simpl. apply in_or_app. right. left. reflexivity. }
    destruct (K a (ASN_insert a d0) Hin Hn) as (newl & El & Fl).
    exists [a], newl.
    rewrite asn_assign_db_asns, asn_assign_db_next_asn_pk. simpl.
    rewrite keys_from_one. simpl in El.
    repeat split; auto; try lia.
Qed.

Lemma asn_run_rows data commit w :
  let selected := Site_filter_asn_notnull (db w) in
  exists cnt w' newa newl,
    MigrateSiteASNsScript.run data commit w = Returned cnt w' /\
    asns (db w') = asns (db w) ++ newa /\
    site_asns (db w') = site_asns (db w) ++ newl /\
    fst cnt = List.length newa /\
    map ASN.pk newa = keys_from (next_asn_pk (db w)) (List.length newa) /\
    next_asn_pk (db w') =
    (next_asn_pk (db w) + Z.of_nat (List.length newa))%Z /\
    Forall (fun a => ASN.rir a = MigrateSiteASNsScript.asn_rir data /\
                     exists s, In s selected /\
                               Site.asn s = Some (ASN.asn a)) newa /\
    Forall (fun p => exists s a,
                In s selected /\ In a (asns (db w')) /\
                Site.asn s = Some (ASN.asn a) /\
                p = (Site.pk s, ASN.pk a)) newl.
Proof.
  intros selected.
  destruct (asn_run_invariant data commit w
    (fun _ cnt d =>
       exists newa newl,
         asns d = asns (db w) ++ newa /\
         site_asns d = site_asns (db w) ++ newl /\
         fst cnt = List.length newa /\
         map ASN.pk newa = keys_from (next_asn_pk (db w)) (List.length newa) /\
         next_asn_pk d =
         (next_asn_pk (db w) + Z.of_nat (List.length newa))%Z /\
         Forall (fun a => ASN.rir a = MigrateSiteASNsScript.asn_rir data /\
                          exists s, In s selected /\
                                    Site.asn s = Some (ASN.asn a)) newa /\
         Forall (fun p => exists s a,
                     In s selected /\ In a (asns d) /\
                     Site.asn s = Some (ASN.asn a) /\
                     p = (Site.pk s, ASN.pk a)) newl))
    as (cnt & w' & E & newa & newl & H).
  - intros pre site cnt d cnt' d' Hsel
           (newa & newl & Ea & El & Ecnt & Ka & Na & Fa & Fl) St.
    destruct (asn_step_rows data site cnt d cnt' d' St)
      as (na & nl & Ea' & El' & Hc & Ka' & Na' & Fa' & Fl').
    exists (newa ++ na), (newl ++ nl).
    split; [rewrite Ea', Ea, app_assoc; reflexivity|].
    split; [rewrite El', El, app_assoc; reflexivity|].
    split; [rewrite length_app; lia|].
    split; [rewrite map_app, length_app, keys_from_app, Ka, Ka', Na;
            reflexivity|].
    split; [rewrite Na', Na, length_app, Nat2Z.inj_add; lia|].
    split.
    + apply Forall_app. split; [exact Fa|].
      eapply Forall_impl; [|exact Fa']. intros a [Hr Hn].
      split; [exact Hr|]. exists site. auto.
    + apply Forall_app. split.
      * eapply Forall_impl; [|exact Fl].
        intros p (s & a & Hs & Hin & Hn & Ep).
        exists s, a. repeat split; auto.
        rewrite Ea'. apply in_or_app. auto.
      * eapply Forall_impl; [|exact Fl'].
        intros [sp ap] (Hfst & a & Hin & Hn & Hsnd). simpl in *.
        exists site, a. repeat split; auto. congruence.
  - exists [], []. rewrite !app_nil_r. simpl.
    repeat split; auto; try lia; constructor.
  - exists cnt, w', newa, newl. exact (conj E H).
Qed.

(** X4.  Every assignment a run of the contact script appends carries the
    role and the priority of the run and joins a selected site to a
    stored contact that matches the site's dict; every site-ASN row a run
    of the ASN script appends joins a selected site to a stored ASN with
    the site's legacy number. *)
Theorem created_links_join_sites_to_their_records :
  (forall data commit w,
     exists cnt w' newa,
       MigrateSiteContactsScript.run data commit w = Returned cnt w' /\
       contact_assignments (db w') = contact_assignments (db w) ++ newa /\
       Forall (fun a =>
                 ContactAssignment.role a =
                 MigrateSiteContactsScript.contact_role data /\
                 ContactAssignment.priority a =
                 MigrateSiteContactsScript.contact_priority data /\
                 exists s c,
                   In s (Site_exclude_contact_name_empty (db w)) /\
                   In c (contacts (db w')) /\
                   Contact_matches
                     (MigrateSiteContactsScript._get_contact_data s) c = true /\
                   ContactAssignment.object a = SiteObject (Site.pk s) /\
                   ContactAssignment.contact a = Contact.pk c) newa) /\
  (forall data commit w,
     exists cnt w' newl,
       MigrateSiteASNsScript.run data commit w = Returned cnt w' /\
       site_asns (db w') = site_asns (db w) ++ newl /\
       Forall (fun p => exists s a,
                   In s (Site_filter_asn_notnull (db w)) /\
                   In a (asns (db w')) /\
                   Site.asn s = Some (ASN.asn a) /\
                   p = (Site.pk s, ASN.pk a)) newl).
Proof.
  split; intros data commit w.
  - destruct (contact_run_rows data commit w)
      as (cnt & w' & newc & newa & E & _ & Ea & _ & _ & _ & _ & _ & _ & Fa).
    exists cnt, w', newa. auto.
  - destruct (asn_run_rows data commit w)
      as (cnt & w' & newa & newl & E & _ & El & _ & _ & _ & _ & Fl).
    exists cnt, w', newl. auto.
Qed.

(** X5.  The contacts a run appends get consecutive primary keys from the
    sequence on, which advances by their number, and each is the contact
    built from the dict of a selected site: trimmed name, trimmed phone
    and email or the empty string, nothing else.  The assignments get
    consecutive keys likewise.  The ASNs a run appends get consecutive
    keys, the RIR of the run, and the legacy number of a selected site. *)
Theorem appended_rows_take_the_next_keys :
  (forall data commit w,
     exists cnt w' newc newa,
       MigrateSiteContactsScript.run data commit w = Returned cnt w' /\
       contacts (db w') = contacts (db w) ++ newc /\
       contact_assignments (db w') = contact_assignments (db w) ++ newa /\
       map Contact.pk newc =
       keys_from (next_contact_pk (db w)) (List.length newc) /\
       next_contact_pk (db w') =
       (next_contact_pk (db w) + Z.of_nat (List.length newc))%Z /\
       map ContactAssignment.pk newa =
       keys_from (next_assignment_pk (db w)) (List.length newa) /\
       next_assignment_pk (db w') =
       (next_assignment_pk (db w) + Z.of_nat (List.length newa))%Z /\
       Forall (fun c =>
                 exists s, In s (Site_exclude_contact_name_empty (db w)) /\
                   Contact.name c = strip (Site.contact_name s) /\
                   Contact.phone c = strip (Site.contact_phone s) /\
                   Contact.email c = strip (Site.contact_email s) /\
                   Contact.other c = []) newc) /\
  (forall data commit w,
     exists cnt w' newa,
       MigrateSiteASNsScript.run data commit w = Returned cnt w' /\
       asns (db w') = asns (db w) ++ newa /\
       map ASN.pk newa = keys_from (next_asn_pk (db w)) (List.length newa) /\
       next_asn_pk (db w') =
       (next_asn_pk (db w) + Z.of_nat (List.length newa))%Z /\
       Forall (fun a => ASN.rir a = MigrateSiteASNsScript.asn_rir data /\
                        exists s, In s (Site_filter_asn_notnull (db w)) /\
                                  Site.asn s = Some (ASN.asn a)) newa).
Proof.
  split; intros data commit w.
  - destruct (contact_run_rows data commit w)
      as (cnt & w' & newc & newa & E & Ec & Ea & _ & Kc & Nc & Ka & Na & Fc & _).
    exists cnt, w', newc, newa. repeat split; auto.
    eapply Forall_impl; [|exact Fc]. intros c (s & Hs & Hc).
    exists s. split; [exact Hs|]. rewrite Hc.
    unfold Contact_new, MigrateSiteContactsScript._get_contact_data. simpl.
    repeat split.
    + destruct (strip (Site.contact_phone s)); reflexivity.
    + destruct (strip (Site.contact_email s)); reflexivity.
  - destruct (asn_run_rows data commit w)
      as (cnt & w' & newa & newl & E & Ea & _ & _ & Ka & Na & Fa & _).
    exists cnt, w', newa. auto.
Qed.

(* ===================================================================== *)
(** ** Key integrity and uniqueness are kept *)
(* ===================================================================== *)

Lemma keys_from_In first n x :
  In x (keys_from first n) <-> (first <= x < first + Z.of_nat n)%Z.
Proof.
  unfold keys_from. rewrite in_map_iff. split.
  - intros (i & <- & Hi). apply in_seq in Hi. lia.
  - intros H. exists (Z.to_nat (x - first)). split; [lia|].
    apply in_seq. lia.
Qed.

Lemma keys_from_NoDup first n : NoDup (keys_from first n).
Proof.
  induction n as [|n IH]; [constructor|].
  replace (S n) with (n + 1) by lia.
  rewrite keys_from_app, keys_from_one. apply NoDup_snoc; [exact IH|].
  rewrite keys_from_In. lia.
Qed.

Lemma NoDup_app_keys (old : list Z) first n :
  (forall x, In x old -> (x < first)%Z) -> NoDup old ->
  NoDup (old ++ keys_from first n).
Proof.
  intros Hlt Hold. apply NoDup_app; [exact Hold | apply keys_from_NoDup |].
  intros x Hx Hk. apply keys_from_In in Hk. specialize (Hlt x Hx). lia.
Qed.

(** X6.  If before a run every contact key in use lies below the contact
    sequence and no two contacts share a key, the same holds after the
    run; likewise for the ASN keys and the ASN script. *)
Theorem key_integrity_is_kept :
  (forall data commit w,
     contact_pks_allocated (db w) = true ->
     NoDup (map Contact.pk (contacts (db w))) ->
     exists cnt w',
       MigrateSiteContactsScript.run data commit w = Returned cnt w' /\
       contact_pks_allocated (db w') = true /\
       NoDup (map Contact.pk (contacts (db w')))) /\
  (forall data commit w,
     asn_pks_allocated (db w) = true ->
     NoDup (map ASN.pk (asns (db w))) ->
     exists cnt w',
       MigrateSiteASNsScript.run data commit w = Returned cnt w' /\
       asn_pks_allocated (db w') = true /\
       NoDup (map ASN.pk (asns (db w')))).
Proof.
  split; intros data commit w Hwf Hnd.
  - destruct (contact_run_rows data commit w)
      as (cnt & w' & newc & newa & E & Ec & Ea & _ & Kc & Nc & _ & _ & _ & Fa).
    apply contact_pks_allocated_iff in Hwf as [Hc Ha].
    assert (Hc' : forall c, In c (contacts (db w')) ->
                            (Contact.pk c < next_contact_pk (db w'))%Z).
    { intros c Hin. rewrite Ec in Hin. rewrite Nc.
      apply in_app_or in Hin as [Hin | Hin].
      - specialize (Hc c Hin). lia.
      - apply (in_map Contact.pk) in Hin. rewrite Kc in Hin.
        apply keys_from_In in Hin. lia. }
    exists cnt, w'. split; [exact E|]. split.
    + apply contact_pks_allocated_iff. split; [exact Hc'|].
      intros a Hin. rewrite Ea in Hin.
      apply in_app_or in Hin as [Hin | Hin].
      * specialize (Ha a Hin). rewrite Nc. lia.
      * rewrite Forall_forall in Fa.
        destruct (Fa a Hin) as (_ & _ & s & c & _ & Hcin & _ & _ & ->).
        apply Hc'. exact Hcin.
    + rewrite Ec, map_app, Kc. apply NoDup_app_keys; [|exact Hnd].
      intros x Hx. apply in_map_iff in Hx as (c & <- & Hin). auto.
  - destruct (asn_run_rows data commit w)
      as (cnt & w' & newa & newl & E & Ea & El & _ & Ka & Na & _ & Fl).
    apply asn_pks_allocated_iff in Hwf as [Ha Hl].
    assert (Ha' : forall a, In a (asns (db w')) ->
                            (ASN.pk a < next_asn_pk (db w'))%Z).
    { intros a Hin. rewrite Ea in Hin. rewrite Na.
      apply in_app_or in Hin as [Hin | Hin].
      - specialize (Ha a Hin). lia.
      - apply (in_map ASN.pk) in Hin. rewrite Ka in Hin.
        apply keys_from_In in Hin. lia. }
    exists cnt, w'. split; [exact E|]. split.
    + apply asn_pks_allocated_iff. split; [exact Ha'|].
      intros p Hin. rewrite El in Hin.
      apply in_app_or in Hin as [Hin | Hin].
      * specialize (Hl p Hin). rewrite Na. lia.
      * rewrite Forall_forall in Fl.
        destruct (Fl p Hin) as (s & a & _ & Hain & _ & ->). simpl.
        apply Ha'. exact Hain.
    + rewrite Ea, map_app, Ka. apply NoDup_app_keys; [|exact Hnd].
      intros x Hx. apply in_map_iff in Hx as (a & <- & Hin). auto.
Qed.

Lemma key_integrity_is_kept_witness :
  (exists cnt w',
     MigrateSiteContactsScript.run
       Sample.contacts_data true {| db := Sample.stored_db; log := [] |}
     = Returned cnt w' /\
     contact_pks_allocated (db w') = true /\
     NoDup (map Contact.pk (contacts (db w')))) /\
  (exists cnt w',
     MigrateSiteASNsScript.run
       Sample.asns_data true {| db := Sample.stored_db; log := [] |}
     = Returned cnt w' /\
     asn_pks_allocated (db w') = true /\
     NoDup (map ASN.pk (asns (db w')))).
Proof.
  split.
  - apply (proj1 key_integrity_is_kept Sample.contacts_data true
                 {| db := Sample.stored_db; log := [] |}).
    + reflexivity.
    + simpl. repeat constructor. intros [].
  - apply (proj2 key_integrity_is_kept Sample.asns_data true
                 {| db := Sample.stored_db; log := [] |}).
    + reflexivity.
    + simpl. repeat constructor. intros [].
Defined.

Lemma Contact_matches_attributes attrs c c' :
  contact_attributes c = contact_attributes c' ->
  Contact_matches attrs c = Contact_matches attrs c'.
Proof.
  unfold contact_attributes, Contact_matches. intros [= -> -> ->].
  reflexivity.
Qed.

(** X11.  If no two stored contacts have the same name, phone and email
    before a run of the contact script, none have after it; if no two
    stored ASNs have the same number before a run of the ASN script, none
    have after it. *)
Theorem business_keys_stay_unique :
  (forall data commit w,
     NoDup (map contact_attributes (contacts (db w))) ->
     exists cnt w',
       MigrateSiteContactsScript.run data commit w = Returned cnt w' /\
       NoDup (map contact_attributes (contacts (db w')))) /\
  (forall data commit w,
     NoDup (map ASN.asn (asns (db w))) ->
     exists cnt w',
       MigrateSiteASNsScript.run data commit w = Returned cnt w' /\
       NoDup (map ASN.asn (asns (db w')))).
Proof.
  split; intros data commit w Hnd.
  - destruct (contact_run_invariant data commit w
                (fun _ _ d => NoDup (map contact_attributes (contacts d))))
      as (cnt & w' & E & H).
    + intros pre site cnt d cnt' d' _ Hd St.
      destruct (contact_step_contacts data site cnt d cnt' d' St) as [Ec _].
      rewrite Ec.
      destruct (Contact_filter_first
                  (MigrateSiteContactsScript._get_contact_data site) d)
        eqn:Hf; [rewrite app_nil_r; exact Hd|].
      rewrite map_app. simpl. apply NoDup_snoc; [exact Hd|].
      intros Hin. apply in_map_iff in Hin as (c & Ec0 & Hin).
      unfold Contact_filter_first in Hf.
      pose proof (find_none _ _ Hf c Hin) as Hno.
      rewrite (Contact_matches_attributes _ _ _ Ec0),
        Contact_matches_new in Hno. discriminate.
    + exact Hnd.
    + exists cnt, w'. auto.
  - destruct (asn_run_invariant data commit w
                (fun _ _ d => NoDup (map ASN.asn (asns d))))
      as (cnt & w' & E & H).
    + intros pre site cnt d cnt' d' _ Hd St.
      destruct (asn_step_asns data site cnt d cnt' d' St) as [Ea _].
      rewrite Ea.
      destruct (ASN_filter_first (Site.asn site) d) eqn:Hf;
        [rewrite app_nil_r; exact Hd|].
      destruct (Site.asn site) as [n|]; [|rewrite app_nil_r; exact Hd].
      rewrite map_app. simpl. apply NoDup_snoc; [exact Hd|].
      intros Hin. apply in_map_iff in Hin as (a & Ea0 & Hin).
      apply (ASN_filter_first_found n d a Hin Ea0). exact Hf.
    + exact Hnd.
    + exists cnt, w'. auto.
Qed.

Lemma business_keys_stay_unique_witness :
  (exists cnt w',
     MigrateSiteContactsScript.run
       Sample.contacts_data true {| db := Sample.stored_db; log := [] |}
     = Returned cnt w' /\
     NoDup (map contact_attributes (contacts (db w')))) /\
  (exists cnt w',
     MigrateSiteASNsScript.run
       Sample.asns_data true {| db := Sample.stored_db; log := [] |}
     = Returned cnt w' /\
     NoDup (map ASN.asn (asns (db w')))).
Proof.
  split.
  - apply (proj1 business_keys_stay_unique Sample.contacts_data true
                 {| db := Sample.stored_db; log := [] |}).
    simpl. repeat constructor. intros [].
  - apply (proj2 business_keys_stay_unique Sample.asns_data true
                 {| db := Sample.stored_db; log := [] |}).
    simpl. repeat constructor. intros [].
Defined.

(* ===================================================================== *)
(** ** The log of a run *)
(* ===================================================================== *)






(** A step of the ASN loop on a database whose ASN keys were handed out
    by the sequence appends one site-ASN row per counted assignment. *)
Lemma asn_step_allocated data site cnt d cnt' d' :
  asn_step data site cnt d cnt' d' ->
  asn_pks_allocated d = true ->
  asn_pks_allocated d' = true /\
  exists newl,
    site_asns d' = site_asns d ++ newl /\
    snd cnt' = snd cnt + List.length newl.
Proof.
  intros St Hwf. pose proof Hwf as Hwf0.
  apply asn_pks_allocated_iff in Hwf as [Ha Hl].
  destruct St as [cc ac d0 a Hf He | cc ac d0 a Hf He | cc ac d0 n Hn Hf a].
  - split; [exact Hwf0|]. exists []. rewrite app_nil_r. simpl. auto.
  - destruct (ASN_filter_first_in _ _ _ Hf) as [Hin _].
    assert (Hno : linked (Site.pk site) (ASN.pk a) d0 = false).
    { destruct (linked (Site.pk site) (ASN.pk a) d0) eqn:E; [|reflexivity].
      assert (ASN_in a (Site_asns_all site d0) = true); [|congruence].
      apply ASN_in_all_iff. exists a. auto. }
    split.
    + apply asn_pks_allocated_iff.
      rewrite asn_assign_db_asns, asn_assign_db_site_asns,
        asn_assign_db_next_asn_pk, Hno.
      split; [exact Ha|]. intros p Hp.
      apply in_app_or in Hp as [Hp | [<- | []]]; [auto|]. simpl. auto.
    + exists [(Site.pk site, ASN.pk a)].
      rewrite asn_assign_db_site_asns, Hno. simpl. split; [reflexivity|lia].
  - assert (Hno : linked (Site.pk site) (ASN.pk a) (ASN_insert a d0) = false).
    { destruct (linked (Site.pk site) (ASN.pk a) (ASN_insert a d0)) eqn:E;
        [|reflexivity].
      apply linked_true in E. simpl in E. specialize (Hl _ E).
      subst a. simpl in Hl. lia. }
    split.
    + apply asn_pks_allocated_iff.
      rewrite asn_assign_db_asns, asn_assign_db_site_asns,
        asn_assign_db_next_asn_pk, Hno. simpl.
      split.
      * intros x Hx. apply in_app_or in Hx as [Hx | [<- | []]].
        -- specialize (Ha x Hx). lia.
        -- subst a. simpl. lia.
      * intros p Hp. apply in_app_or in Hp as [Hp | [<- | []]].
        -- specialize (Hl p Hp). lia.
        -- subst a. simpl. lia.
    + exists [(Site.pk site, ASN.pk a)].
      rewrite asn_assign_db_site_asns, Hno. simpl. split; [reflexivity|lia].
Qed.

(** X2.  When sites are selected, the last two log entries of a run are
    the summary lines, and the numbers they report, which are the
    counters, are the numbers of rows the run appended: contacts and
    assignments for the contact script; ASNs and, on a database whose ASN
    keys were handed out by the sequence, site-ASN rows for the ASN
    script. *)
Theorem summary_lines_report_rows_appended :
  (forall data commit w,
     Site_exclude_contact_name_empty (db w) <> [] ->
     exists cnt w' front,
       MigrateSiteContactsScript.run data commit w = Returned cnt w' /\
       log w' = front ++ [(Success, CreatedContacts (fst cnt));
                          (Success, CreatedAssignments (snd cnt))] /\
       fst cnt = List.length (created_rows (contacts (db w))
                                           (contacts (db w'))) /\
       snd cnt = List.length (created_rows (contact_assignments (db w))
                                           (contact_assignments (db w')))) /\
  (forall data commit w,
     Site_filter_asn_notnull (db w) <> [] ->
     asn_pks_allocated (db w) = true ->
     exists cnt w' front,
       MigrateSiteASNsScript.run data commit w = Returned cnt w' /\
       log w' = front ++ [(Success, CreatedASNs (fst cnt));
                          (Success, AssignedASNs (snd cnt))] /\
       fst cnt = List.length (created_rows (asns (db w)) (asns (db w'))) /\
       snd cnt = List.length (created_rows (site_asns (db w))
                                           (site_asns (db w')))).
Proof.
  split.
  - intros data commit w Hne.
    destruct (contact_run_invariant_world data commit w
      (fun _ cnt w0 =>
         exists newc newa,
           contacts (db w0) = contacts (db w) ++ newc /\
           contact_assignments (db w0) = contact_assignments (db w) ++ newa /\
           fst cnt = List.length newc /\ snd cnt = List.length newa))
      as (cnt & w' & E & newc & newa & Ec & Ea & Hc & Ha).
    + intros pre site cnt w0 cnt' w1 _ (newc & newa & Ec & Ea & Hc & Ha) St _.
      destruct (contact_step_tables data site cnt (db w0) cnt' (db w1) St)
        as (nc & na & Ec' & Ea' & Hc' & Ha').
      exists (newc ++ nc), (newa ++ na).
      split; [rewrite Ec', Ec, app_assoc; reflexivity|].
      split; [rewrite Ea', Ea, app_assoc; reflexivity|].
      rewrite !length_app. split; lia.
    + exact Hne.
    + exists [], []. rewrite !app_nil_r. simpl. auto.
    + eexists cnt, _, (log w'). split; [exact E|]. simpl.
      rewrite Ec, Ea, !created_rows_app. auto.
  - intros data commit w Hne Hwf.
    destruct (asn_run_invariant_world data commit w
      (fun _ cnt w0 =>
         asn_pks_allocated (db w0) = true /\
         exists newa newl,
           asns (db w0) = asns (db w) ++ newa /\
           site_asns (db w0) = site_asns (db w) ++ newl /\
           fst cnt = List.length newa /\ snd cnt = List.length newl))
      as (cnt & w' & E & _ & newa & newl & Ea & El & Ha & Hl).
    + intros pre site cnt w0 cnt' w1 _
             (Hw & newa & newl & Ea & El & Ha & Hl) St _.
      destruct (asn_step_allocated data site cnt (db w0) cnt' (db w1) St Hw)
        as (Hw' & nl & El' & Hl').
      destruct (asn_step_tables data site cnt (db w0) cnt' (db w1) St)
        as (na & nl0 & Ea' & _ & Ha' & _).
      split; [exact Hw'|].
      exists (newa ++ na), (newl ++ nl).
      split; [rewrite Ea', Ea, app_assoc; reflexivity|].
      split; [rewrite El', El, app_assoc; reflexivity|].
      rewrite !length_app. split; lia.
    + exact Hne.
    + split; [exact Hwf|]. exists [], []. rewrite !app_nil_r. simpl. auto.
    + eexists cnt, _, (log w'). split; [exact E|]. simpl.
      rewrite Ea, El, !created_rows_app. auto.
Qed.

Lemma summary_lines_report_rows_appended_witness :
  (exists cnt w' front,
     MigrateSiteContactsScript.run
       Sample.contacts_data true {| db := Sample.fresh_db; log := [] |}
     = Returned cnt w' /\
     log w' = front ++ [(Success, CreatedContacts (fst cnt));
                        (Success, CreatedAssignments (snd cnt))] /\
     fst cnt = List.length (created_rows (contacts Sample.fresh_db)
                                         (contacts (db w'))) /\
     snd cnt = List.length (created_rows (contact_assignments Sample.fresh_db)
                                         (contact_assignments (db w')))) /\
  (exists cnt w' front,
     MigrateSiteASNsScript.run
       Sample.asns_data true {| db := Sample.fresh_db; log := [] |}
     = Returned cnt w' /\
     log w' = front ++ [(Success, CreatedASNs (fst cnt));
                        (Success, AssignedASNs (snd cnt))] /\
     fst cnt = List.length (created_rows (asns Sample.fresh_db)
                                         (asns (db w'))) /\
     snd cnt = List.length (created_rows (site_asns Sample.fresh_db)
                                         (site_asns (db w')))).
Proof.
  split.
  - apply (proj1 summary_lines_report_rows_appended Sample.contacts_data true
                 {| db := Sample.fresh_db; log := [] |}).
    discriminate.
  - apply (proj2 summary_lines_report_rows_appended Sample.asns_data true
                 {| db := Sample.fresh_db; log := [] |}).
    + discriminate.
    + reflexivity.
Defined.

(* ===================================================================== *)
(** ** Runs with the clear flag *)
(* ===================================================================== *)

Lemma contact_step_clears_linked_site data site cnt d cnt' d' :
  contact_step data site cnt d cnt' d' ->
  MigrateSiteContactsScript.clear_site_fields data = true ->
  exists newa,
    contact_assignments d' = contact_assignments d ++ newa /\
    forall a, In a newa ->
      ContactAssignment.object a = SiteObject (Site.pk site) /\
      forall s', In s' (sites d') -> Site.pk s' = Site.pk site ->
                 Site.contact_name s' = [].
Proof.
  intros St Hflag.
  assert (K : forall c d0 s',
             In s' (sites (contact_assign_db data site c d0)) ->
             Site.pk s' = Site.pk site -> Site.contact_name s' = []).
  { intros c d0 s'. rewrite contact_assign_db_sites, Hflag,
      Site_update_contact_fields_empty_sites.
    intros Hin Hpk. apply in_map_iff in Hin as (s0 & Es & _).
    destruct (Site.pk s0 =? Site.pk site)%Z eqn:Epk.
    - subst s'. reflexivity.
    - subst s'. apply Z.eqb_neq in Epk. contradiction. }
  destruct St as [cc ac d0 c Hf He | cc ac d0 c Hf He | cc ac d0 Hf c].
  - exists []. rewrite app_nil_r. split; [reflexivity | intros a []].
  - exists [assignment_row data site c d0].
    rewrite contact_assign_db_assignments. split; [reflexivity|].
    intros a [<- | []]. split; [reflexivity | apply K].
  - exists [assignment_row data site c (Contact_insert c d0)].
    rewrite contact_assign_db_assignments. split; [reflexivity|].
    intros a [<- | []]. split; [reflexivity | apply K].
Qed.

Lemma asn_step_clears_linked_site data site cnt d cnt' d' :
  asn_step data site cnt d cnt' d' ->
  MigrateSiteASNsScript.clear_site_field data = true ->
  exists newl,
    site_asns d' = site_asns d ++ newl /\
    forall p, In p newl ->
      fst p = Site.pk site /\
      forall s', In s' (sites d') -> Site.pk s' = Site.pk site ->
                 Site.asn s' = None.
Proof.
  intros St Hflag.
  assert (K : forall a d0,
             exists newl,
               site_asns (asn_assign_db data site a d0) = site_asns d0 ++ newl /\
               forall p, In p newl ->
                 fst p = Site.pk site /\
                 forall s', In s' (sites (asn_assign_db data site a d0)) ->
                            Site.pk s' = Site.pk site -> Site.asn s' = None).
  { intros a d0. rewrite asn_assign_db_site_asns.
    assert (C : forall s', In s' (sites (asn_assign_db data site a d0)) ->
                           Site.pk s' = Site.pk site -> Site.asn s' = None).
    { intros s'. rewrite asn_assign_db_sites, Hflag.
      unfold Site_update_asn_none, with_sites. simpl.
      intros Hin Hpk. apply in_map_iff in Hin as (s0 & Es & _).
      destruct (Site.pk s0 =? Site.pk site)%Z eqn:Epk.
      - subst s'. reflexivity.
      - subst s'. apply Z.eqb_neq in Epk. contradiction. }
    destruct (linked (Site.pk site) (ASN.pk a) d0).
    - exists []. rewrite app_nil_r. split; [reflexivity | intros p []].
    - exists [(Site.pk site, ASN.pk a)]. split; [reflexivity|].
      intros p [<- | []]. split; [reflexivity | exact C]. }
  destruct St as [cc ac d0 a Hf He | cc ac d0 a Hf He | cc ac d0 n Hn Hf a].
  - exists []. rewrite app_nil_r. split; [reflexivity | intros p []].
  - apply K.
  - apply (K a (ASN_insert a d0)).
Qed.

(** X7.  After a run with the clear flag set, a site the selector still
    returns is one it returned before the run, and its link to the record
    the lookup finds for it was stored before the run already: only the
    sites the run skipped keep their legacy value.  On a database with no
    assignment (no site-ASN row) the selector returns nothing after the
    run. *)
Theorem with_clear_flag_only_skipped_sites_stay_selected :
  (forall data commit w,
     MigrateSiteContactsScript.clear_site_fields data = true ->
     exists cnt w',
       MigrateSiteContactsScript.run data commit w = Returned cnt w' /\
       (forall s, In s (Site_exclude_contact_name_empty (db w')) ->
          In s (Site_exclude_contact_name_empty (db w)) /\
          exists c,
            Contact_filter_first
              (MigrateSiteContactsScript._get_contact_data s) (db w') = Some c /\
            Site_contacts_exists s c (db w) = true) /\
       (contact_assignments (db w) = [] ->
        Site_exclude_contact_name_empty (db w') = [])) /\
  (forall data commit w,
     MigrateSiteASNsScript.clear_site_field data = true ->
     exists cnt w',
       MigrateSiteASNsScript.run data commit w = Returned cnt w' /\
       (forall s, In s (Site_filter_asn_notnull (db w')) ->
          In s (Site_filter_asn_notnull (db w)) /\
          exists a,
            ASN_filter_first (Site.asn s) (db w') = Some a /\
            linked (Site.pk s) (ASN.pk a) (db w) = true) /\
       (site_asns (db w) = [] -> Site_filter_asn_notnull (db w') = [])).
Proof.
  split; intros data commit w Hflag.
  - destruct (contact_run_invariant data commit w
      (fun _ _ d =>
         Forall2 contact_fields_only_changed (sites (db w)) (sites d) /\
         exists newa,
           contact_assignments d = contact_assignments (db w) ++ newa /\
           forall a s', In a newa -> In s' (sites d) ->
                        ContactAssignment.object a = SiteObject (Site.pk s') ->
                        Site.contact_name s' = []))
      as (cnt & w' & E & HF & newa & Ea & Hnew).
    + intros pre site cnt d cnt' d' _ (HF & newa & Ea & Hnew) St.
      destruct (contact_step_frame data site cnt d cnt' d' St)
        as (_ & _ & _ & HF').
      destruct (contact_step_clears_linked_site data site cnt d cnt' d'
                  St Hflag) as (na & Ea' & Hna).
      split.
      * eapply Forall2_compose; [| exact HF | exact HF'].
        apply contact_fields_only_changed_trans.
      * exists (newa ++ na). split; [rewrite Ea', Ea, app_assoc; reflexivity|].
        intros a s' Ha Hs' Ho. apply in_app_or in Ha as [Ha | Ha].
        -- destruct (Forall2_In_r _ _ _ _ HF' Hs')
             as (s0 & Hs0 & (Hpk & _ & _ & _ & [Es | (Hn & _)]));
             [|exact Hn].
           subst s'. apply (Hnew a s0 Ha Hs0 Ho).
        -- destruct (Hna a Ha) as [Ho' Hc]. apply Hc; [exact Hs'|].
           congruence.
    + split; [apply Forall2_diag, contact_fields_only_changed_refl|].
      exists []. rewrite app_nil_r. split; [reflexivity | intros a s' []].
    + destruct (contact_run_settles data commit w) as (c2 & w2 & E2 & _ & HS).
      rewrite E in E2. injection E2 as <- <-.
      assert (Main : forall s, In s (Site_exclude_contact_name_empty (db w')) ->
                In s (Site_exclude_contact_name_empty (db w)) /\
                exists c,
                  Contact_filter_first
                    (MigrateSiteContactsScript._get_contact_data s) (db w')
                  = Some c /\
                  Site_contacts_exists s c (db w) = true).
      { intros s Hs. pose proof (HS s Hs) as Hskip.
        unfold Site_exclude_contact_name_empty in Hs.
        apply filter_In in Hs as [Hin Hne]. split.
        - apply filter_In.
          destruct (Forall2_In_r _ _ _ _ HF Hin)
            as (s0 & Hs0 & (_ & _ & _ & _ & [-> | (Hn & _)])); auto.
          rewrite Hn in Hne. discriminate.
        - unfold contact_iteration_skips in Hskip.
          destruct (Contact_filter_first _ (db w')) as [c|]; [|discriminate].
          exists c. split; [reflexivity|].
          apply Site_contacts_exists_row_iff in Hskip as (a & Ha & Ho & Hc).
          apply Site_contacts_exists_row_iff.
          rewrite Ea in Ha. apply in_app_or in Ha as [Ha | Ha].
          + exists a. auto.
          + exfalso. rewrite (Hnew a s Ha Hin Ho) in Hne. discriminate. }
      exists cnt, w'. split; [exact E|]. split; [exact Main|].
      intros Hempty.
      destruct (Site_exclude_contact_name_empty (db w')) as [|s l] eqn:Hsel;
        [reflexivity|].
      destruct (Main s (or_introl eq_refl)) as (_ & c & _ & Hx).
      unfold Site_contacts_exists in Hx. rewrite Hempty in Hx. discriminate.
  - destruct (asn_run_invariant data commit w
      (fun _ _ d =>
         Forall2 asn_field_only_changed (sites (db w)) (sites d) /\
         exists newl,
           site_asns d = site_asns (db w) ++ newl /\
           forall p s', In p newl -> In s' (sites d) ->
                        fst p = Site.pk s' -> Site.asn s' = None))
      as (cnt & w' & E & HF & newl & El & Hnew).
    + intros pre site cnt d cnt' d' _ (HF & newl & El & Hnew) St.
      destruct (asn_step_frame data site cnt d cnt' d' St)
        as (_ & _ & _ & _ & HF').
      destruct (asn_step_clears_linked_site data site cnt d cnt' d'
                  St Hflag) as (nl & El' & Hnl).
      split.
      * eapply Forall2_compose; [| exact HF | exact HF'].
        apply asn_field_only_changed_trans.
      * exists (newl ++ nl). split; [rewrite El', El, app_assoc; reflexivity|].
        intros p s' Hp Hs' Ho. apply in_app_or in Hp as [Hp | Hp].
        -- destruct (Forall2_In_r _ _ _ _ HF' Hs')
             as (s0 & Hs0 & (Hpk & _ & _ & _ & _ & _ & [Es | Hn]));
             [|exact Hn].
           subst s'. apply (Hnew p s0 Hp Hs0 Ho).
        -- destruct (Hnl p Hp) as [Ho' Hc]. apply Hc; [exact Hs'|].
           congruence.
    + split; [apply Forall2_diag, asn_field_only_changed_refl|].
      exists []. rewrite app_nil_r. split; [reflexivity | intros p s' []].
    + destruct (asn_run_settles data commit w) as (c2 & w2 & E2 & _ & HS).
      rewrite E in E2. injection E2 as <- <-.
      assert (Main : forall s, In s (Site_filter_asn_notnull (db w')) ->
                In s (Site_filter_asn_notnull (db w)) /\
                exists a,
                  ASN_filter_first (Site.asn s) (db w') = Some a /\
                  linked (Site.pk s) (ASN.pk a) (db w) = true).
      { intros s Hs. pose proof (HS s Hs) as Hskip.
        unfold Site_filter_asn_notnull in Hs.
        apply filter_In in Hs as [Hin Hne]. split.
        - apply filter_In.
          destruct (Forall2_In_r _ _ _ _ HF Hin)
            as (s0 & Hs0 & (_ & _ & _ & _ & _ & _ & [-> | Hn])); auto.
          rewrite Hn in Hne. discriminate.
        - unfold asn_iteration_skips in Hskip.
          destruct (ASN_filter_first _ (db w')) as [a|]; [|discriminate].
          exists a. split; [reflexivity|].
          apply ASN_in_all_iff in Hskip as (r & _ & Hl & Epk).
          apply linked_true in Hl. rewrite Epk, El in Hl.
          apply in_app_or in Hl as [Hl | Hl].
          + unfold linked. apply existsb_exists. eexists. split; [exact Hl|].
            simpl. rewrite !Z.eqb_refl. reflexivity.
          + exfalso. rewrite (Hnew _ s Hl Hin eq_refl) in Hne. discriminate. }
      exists cnt, w'. split; [exact E|]. split; [exact Main|].
      intros Hempty.
      destruct (Site_filter_asn_notnull (db w')) as [|s l] eqn:Hsel;
        [reflexivity|].
      destruct (Main s (or_introl eq_refl)) as (_ & a & _ & Hx).
      unfold linked in Hx. rewrite Hempty in Hx. discriminate.
Qed.

Lemma with_clear_flag_only_skipped_sites_stay_selected_witness :
  (exists cnt w',
     MigrateSiteContactsScript.run
       Sample.contacts_data true {| db := Sample.stored_db; log := [] |}
     = Returned cnt w' /\
     (forall s, In s (Site_exclude_contact_name_empty (db w')) ->
        In s (Site_exclude_contact_name_empty Sample.stored_db) /\
        exists c,
          Contact_filter_first
            (MigrateSiteContactsScript._get_contact_data s) (db w') = Some c /\
          Site_contacts_exists s c Sample.stored_db = true) /\
     (contact_assignments Sample.stored_db = [] ->
      Site_exclude_contact_name_empty (db w') = [])) /\
  (exists cnt w',
     MigrateSiteASNsScript.run
       Sample.asns_data true {| db := Sample.stored_db; log := [] |}
     = Returned cnt w' /\
     (forall s, In s (Site_filter_asn_notnull (db w')) ->
        In s (Site_filter_asn_notnull Sample.stored_db) /\
        exists a,
          ASN_filter_first (Site.asn s) (db w') = Some a /\
          linked (Site.pk s) (ASN.pk a) Sample.stored_db = true) /\
     (site_asns Sample.stored_db = [] ->
      Site_filter_asn_notnull (db w') = [])).
Proof.
  split.
  - apply (proj1 with_clear_flag_only_skipped_sites_stay_selected
                 Sample.contacts_data true
                 {| db := Sample.stored_db; log := [] |}).
    reflexivity.
  - apply (proj2 with_clear_flag_only_skipped_sites_stay_selected
                 Sample.asns_data true
                 {| db := Sample.stored_db; log := [] |}).
    reflexivity.
Defined.

(* ===================================================================== *)
(** ** The clear flag does not change what is created *)
(* ===================================================================== *)

Lemma contact_iteration_flag_independent role priority site cnt w1 w2 :
  let on := MigrateSiteContactsScript.mkData role priority true in
  let off := MigrateSiteContactsScript.mkData role priority false in
  same_but_sites (db w1) (db w2) ->
  exists cnt' w1' w2',
    MigrateSiteContactsScript.iteration on site cnt w1 = Returned cnt' w1' /\
    MigrateSiteContactsScript.iteration off site cnt w2 = Returned cnt' w2' /\
    same_but_sites (db w1') (db w2') /\
    sites (db w2') = sites (db w2).
Proof.
  intros on off Hs. destruct cnt as [cc ac].
  pose proof Hs as (Ec & Ea & Eas & El & Nc & Na & Nas).
  assert (Ef : Contact_filter_first
                 (MigrateSiteContactsScript._get_contact_data site) (db w2) =
               Contact_filter_first
                 (MigrateSiteContactsScript._get_contact_data site) (db w1)).
  { unfold Contact_filter_first. rewrite Ec. reflexivity. }
  assert (Ex : forall c, Site_contacts_exists site c (db w2) =
                         Site_contacts_exists site c (db w1)).
  { intros c. unfold Site_contacts_exists. rewrite Ea. reflexivity. }
  destruct (Contact_filter_first
              (MigrateSiteContactsScript._get_contact_data site) (db w1))
    as [c|] eqn:Hf.
  - destruct (Site_contacts_exists site c (db w1)) eqn:He.
    + eexists _, _, _. split; [|split; [|split]].
      * apply (contact_iteration_skip on site cc ac w1 c Hf He).
      * apply (contact_iteration_skip off site cc ac w2 c).
        -- rewrite Ef. reflexivity.
        -- rewrite Ex. exact He.
      * exact Hs.
      * reflexivity.
    + eexists _, _, _. split; [|split; [|split]].
      * rewrite (contact_iteration_link on site cc ac w1 c Hf He).
        apply contact_assign_eq.
      * rewrite (contact_iteration_link off site cc ac w2 c).
        -- apply contact_assign_eq.
        -- rewrite Ef. reflexivity.
        -- rewrite Ex. exact He.
      * unfold same_but_sites, contact_assign_db, assignment_row. simpl.
        rewrite Ec, Ea, Eas, El, Nc, Na, Nas. auto 10.
      * reflexivity.
  - eexists _, _, _. split; [|split; [|split]].
    + rewrite (contact_iteration_create on site cc ac w1 Hf).
      apply contact_assign_eq.
    + rewrite (contact_iteration_create off site cc ac w2).
      * apply contact_assign_eq.
      * rewrite Ef. reflexivity.
    + unfold same_but_sites, contact_assign_db, assignment_row. simpl.
      rewrite Ec, Ea, Eas, El, Nc, Na, Nas. auto 10.
    + reflexivity.
Qed.

Lemma asn_iteration_flag_independent rir site cnt w1 w2 :
  let on := MigrateSiteASNsScript.mkData rir true in
  let off := MigrateSiteASNsScript.mkData rir false in
  Site.asn site <> None ->
  same_but_sites (db w1) (db w2) ->
  exists cnt' w1' w2',
    MigrateSiteASNsScript.iteration on site cnt w1 = Returned cnt' w1' /\
    MigrateSiteASNsScript.iteration off site cnt w2 = Returned cnt' w2' /\
    same_but_sites (db w1') (db w2') /\
    sites (db w2') = sites (db w2).
Proof.
  intros on off Hn Hs. destruct cnt as [cc ac].
  pose proof Hs as (Ec & Ea & Eas & El & Nc & Na & Nas).
  assert (Ef : ASN_filter_first (Site.asn site) (db w2) =
               ASN_filter_first (Site.asn site) (db w1)).
  { unfold ASN_filter_first. rewrite Eas. reflexivity. }
  assert (Ex : forall a, ASN_in a (Site_asns_all site (db w2)) =
                         ASN_in a (Site_asns_all site (db w1))).
  { intros a. unfold ASN_in, Site_asns_all, linked. rewrite Eas, El.
    reflexivity. }
  destruct (ASN_filter_first (Site.asn site) (db w1)) as [a|] eqn:Hf.
  - destruct (ASN_in a (Site_asns_all site (db w1))) eqn:He.
    + eexists _, _, _. split; [|split; [|split]].
      * apply (asn_iteration_skip on site cc ac w1 a Hf He).
      * apply (asn_iteration_skip off site cc ac w2 a).
        -- rewrite Ef. reflexivity.
        -- rewrite Ex. exact He.
      * exact Hs.
      * reflexivity.
    + eexists _, _, _. split; [|split; [|split]].
      * rewrite (asn_iteration_link on site cc ac w1 a Hf He).
        apply asn_assign_eq.
      * rewrite (asn_iteration_link off site cc ac w2 a).
        -- apply asn_assign_eq.
        -- rewrite Ef. reflexivity.
        -- rewrite Ex. exact He.
      * unfold same_but_sites, asn_assign_db, site_asns_insert, linked.
        simpl. rewrite Ec, Ea, Eas, El, Nc, Na, Nas. auto 10.
      * reflexivity.
  - destruct (Site.asn site) as [n|] eqn:Hsn; [|congruence].
    eexists _, _, _. split; [|split; [|split]].
    + rewrite (asn_iteration_create on site cc ac w1 n Hsn).
      * apply asn_assign_eq.
      * rewrite Hsn. exact Hf.
    + rewrite (asn_iteration_create off site cc ac w2 n Hsn).
      * apply asn_assign_eq.
      * rewrite Hsn. exact Ef.
    + unfold same_but_sites, asn_assign_db, site_asns_insert, linked.
      simpl. rewrite Ec, Ea, Eas, El, Nc, Na, Nas. auto 10.
    + reflexivity.
Qed.

Lemma loop_flag_independent {Data} (on off : Data)
      (body : Data -> Site.t -> nat * nat -> Script (nat * nat))
      (P : Site.t -> Prop) :
  (forall site cnt w1 w2,
     P site -> same_but_sites (db w1) (db w2) ->
     exists cnt' w1' w2',
       body on site cnt w1 = Returned cnt' w1' /\
       body off site cnt w2 = Returned cnt' w2' /\
       same_but_sites (db w1') (db w2') /\
       sites (db w2') = sites (db w2)) ->
  forall xs cnt w1 w2,
    Forall P xs -> same_but_sites (db w1) (db w2) ->
    exists cnt' w1' w2',
      for_each xs (body on) cnt w1 = Returned cnt' w1' /\
      for_each xs (body off) cnt w2 = Returned cnt' w2' /\
      same_but_sites (db w1') (db w2') /\
      sites (db w2') = sites (db w2).
Proof.
  intros Hstep. induction xs as [|x xs IH]; intros cnt w1 w2 HP Hs.
  - exists cnt, w1, w2. repeat split; auto; apply Hs.
  - inversion HP as [|? ? Hx Hxs]; subst.
    destruct (Hstep x cnt w1 w2 Hx Hs) as (c1 & u1 & u2 & E1 & E2 & Hs1 & S1).
    destruct (IH c1 u1 u2 Hxs Hs1) as (c2 & v1 & v2 & F1 & F2 & Hs2 & S2).
    exists c2, v1, v2. simpl. unfold bind. rewrite E1, E2.
    repeat split; auto; try apply Hs2. congruence.
Qed.

Lemma same_but_sites_refl d : same_but_sites d d.
Proof. unfold same_but_sites. auto 10. Qed.

(** X12.  Run with the clear flag set or not set, from the same database
    and with the other parameters the same, a script returns the same
    counters and leaves the same contacts, assignments, ASNs, site-ASN
    rows and key sequences; without the flag the sites table is left as
    it was. *)
Theorem clear_flag_changes_only_sites :
  (forall role priority commit w,
     exists cnt w_on w_off,
       MigrateSiteContactsScript.run
         (MigrateSiteContactsScript.mkData role priority true) commit w
       = Returned cnt w_on /\
       MigrateSiteContactsScript.run
         (MigrateSiteContactsScript.mkData role priority false) commit w
       = Returned cnt w_off /\
       same_but_sites (db w_on) (db w_off) /\
       sites (db w_off) = sites (db w)) /\
  (forall rir commit w,
     exists cnt w_on w_off,
       MigrateSiteASNsScript.run
         (MigrateSiteASNsScript.mkData rir true) commit w
       = Returned cnt w_on /\
       MigrateSiteASNsScript.run
         (MigrateSiteASNsScript.mkData rir false) commit w
       = Returned cnt w_off /\
       same_but_sites (db w_on) (db w_off) /\
       sites (db w_off) = sites (db w)).
Proof.
  split.
  - intros role priority commit w. rewrite !contact_run_unfold.
    destruct (Site_exclude_contact_name_empty (db w)) as [|s l] eqn:Hsel.
    + eexists _, _, _. repeat split; apply same_but_sites_refl.
    + destruct (loop_flag_independent
                  (MigrateSiteContactsScript.mkData role priority true)
                  (MigrateSiteContactsScript.mkData role priority false)
                  MigrateSiteContactsScript.iteration (fun _ => True))
        with (xs := s :: l) (cnt := (0, 0))
             (w1 := {| db := db w;
                       log := log w ++
                              [(Info, FoundContactSites
                                        (List.length (s :: l)))] |})
             (w2 := {| db := db w;
                       log := log w ++
                              [(Info, FoundContactSites
                                        (List.length (s :: l)))] |})
        as (cnt & v1 & v2 & E1 & E2 & Hs & Hsites).
      * intros site cnt w1 w2 _ H.
        apply contact_iteration_flag_independent. exact H.
      * apply Forall_forall. trivial.
      * apply same_but_sites_refl.
      * cbv beta iota zeta. rewrite E1, E2.
        eexists _, _, _. repeat split; try apply Hs. exact Hsites.
  - intros rir commit w. rewrite !asn_run_unfold.
    pose proof (Site_filter_asn_notnull_Forall (db w)) as Hall.
    destruct (Site_filter_asn_notnull (db w)) as [|s l] eqn:Hsel.
    + eexists _, _, _. repeat split; apply same_but_sites_refl.
    + destruct (loop_flag_independent
                  (MigrateSiteASNsScript.mkData rir true)
                  (MigrateSiteASNsScript.mkData rir false)
                  MigrateSiteASNsScript.iteration
                  (fun x => Site.asn x <> None))
        with (xs := s :: l) (cnt := (0, 0))
             (w1 := {| db := db w;
                       log := log w ++
                              [(Info, FoundASNSites (List.length (s :: l)))] |})
             (w2 := {| db := db w;
                       log := log w ++
                              [(Info, FoundASNSites (List.length (s :: l)))] |})
        as (cnt & v1 & v2 & E1 & E2 & Hs & Hsites).
      * intros site cnt w1 w2 Hn H.
        apply asn_iteration_flag_independent; assumption.
      * exact Hall.
      * apply same_but_sites_refl.
      * cbv beta iota zeta. rewrite E1, E2.
        eexists _, _, _. repeat split; try apply Hs. exact Hsites.
Qed.
